(** * myFT client: request builder, pagination, batch engine, synchronisation

    A shallow embedding of [lib/myFTClient.js].  JavaScript values are an
    inductive type, objects are finite maps from property names to values,
    promises are computations over an explicit trace of the outgoing calls
    (transport requests and event-stream writes), and the remote side is an
    oracle that answers each call from the history of calls made so far. *)

From stdpp Require Import gmap strings list pretty.
From Stdlib Require Import ZArith Lia Permutation Ascii.

#[local] Set Warnings "-register-all".
#[local] Open Scope Z_scope.

(** ** JavaScript values *)

(** [VNum n] is the number whose value is the integer [n]: every integer
    up to 2^53 in magnitude, and above that the integers that are numbers
    (multiples of the power of two the numbers are apart there).  Arithmetic
    on page numbers is exact, which it is in JavaScript below 2^53.
    [VFrac text] is a number that is not an integer, kept as the text
    JavaScript prints for it (its shortest decimal form, [600.5] or
    [5e-7]).  [NaN] and the infinities are not values a parsed response
    holds.  A string is the sequence of its code units, each below 256. *)
Inductive value :=
| VUndefined
| VNull
| VBool (b : bool)
| VNum (n : Z)
| VFrac (text : string)
| VStr (s : string)
| VArr (l : list value)
| VObj (o : gmap string value).

(** [!!v] *)
Definition truthy (v : value) : bool :=
  match v with
  | VUndefined | VNull => false
  | VBool b => b
  | VNum n => negb (n =? 0)
  | VFrac _ => true
  | VStr s => negb (String.eqb s "")
  | VArr _ | VObj _ => true
  end.

(** ** Numbers as text *)

(** The number of decimal digits of a positive integer. *)
Fixpoint count_digits (fuel : nat) (n : Z) : Z :=
  match fuel with
  | O => 1
  | S fuel' => if n <? 10 then 1 else 1 + count_digits fuel' (n / 10)
  end.

Definition digits10 (n : Z) : Z := count_digits (Z.to_nat (Z.log2 n)) n.

(** The search of [Number::toString] for the decimal with the fewest
    significant digits that reads back as the number [n]: with [q] trailing
    zeros, the two candidates around [n] are tried against the interval
    [lo .. hi] of the reals that round to [n] (its ends included when the
    mantissa of [n] is even); the closer one is taken when both read back,
    the even one on a tie; otherwise one zero less is tried. *)
Fixpoint shortest_from (fuel : nat) (n lo hi : Z) (closed : bool) (q : Z) : Z :=
  match fuel with
  | O => n
  | S fuel' =>
      let unit := 10 ^ q in
      let below := n / unit * unit in
      let above := below + unit in
      let below_reads := (lo <? below) || (closed && (lo =? below)) in
      let above_reads := (above <? hi) || (closed && (above =? hi)) in
      if below_reads && above_reads then
        if n - below <? above - n then below
        else if above - n <? n - below then above
        else if Z.even (below / unit) then below else above
      else if below_reads then below
      else if above_reads then above
      else shortest_from fuel' n lo hi closed (q - 1)
  end.

(** For an integer [n] above 2^53, where the numbers are [2^e] apart
    ([2^(e-1)] apart just below a power of two). *)
Definition shortest (n : Z) : Z :=
  let e := Z.log2 n - 52 in
  let mantissa := n / 2 ^ e in
  let half_up := 2 ^ (e - 1) in
  let half_down := if mantissa =? 2 ^ 52 then 2 ^ (e - 2) else half_up in
  let q := digits10 n - 1 in
  shortest_from (Z.to_nat q) n (n - half_down) (n + half_up) (Z.even mantissa) q.

Definition digit_char (d : Z) : ascii := ascii_of_nat (48 + Z.to_nat d).

Fixpoint strip_zeros (s : string) : string :=
  match s with
  | String c s' =>
      match strip_zeros s' with
      | EmptyString => if Ascii.eqb c "0" then EmptyString else String c EmptyString
      | rest => String c rest
      end
  | EmptyString => EmptyString
  end.

(** Exponent notation, [d.ddde+x], of a decimal [v] of [x + 1] digits. *)
Definition exponent_text (v : Z) : string :=
  let x := digits10 v - 1 in
  let fraction := strip_zeros (pretty (v mod 10 ^ x + 10 ^ x)) in
  String (digit_char ((v / 10 ^ x) mod 10))
    ((match fraction with
      | String _ (String c rest) => "." +:+ String c rest
      | _ => ""
      end) +:+ "e+" +:+ pretty x).

(** [String(n)] for an integer: its digits up to 2^53; above, the shortest
    decimal that reads back as [n], in full below 10^21 and in exponent
    notation from there on. *)
Definition number_text (n : Z) : string :=
  let a := Z.abs n in
  if a <=? 2 ^ 53 then pretty n
  else
    let v := shortest a in
    (if n <? 0 then "-" else "") +:+
    (if a <? 10 ^ 21 then pretty v else exponent_text v).

(** [String(v)] : arrays join their elements with a comma, [null] and
    [undefined] elements printing as the empty string. *)
Fixpoint toString (v : value) : string :=
  match v with
  | VUndefined => "undefined"
  | VNull => "null"
  | VBool true => "true"
  | VBool false => "false"
  | VNum n => number_text n
  | VFrac text => text
  | VStr s => s
  | VArr l =>
      String.concat ","
        (map (fun x => match x with
                       | VUndefined | VNull => ""
                       | _ => toString x
                       end) l)
  | VObj _ => "[object Object]"
  end.

(** Errors raised through rejected promises.  [clientErrors] supplies
    [NotFoundError] and [ClientError]; [PlainError] is [new Error(msg)];
    [TypeError] is what reading a property of [null] or [undefined] throws;
    [StatusError] stands for every other error class the transport or the
    parse step may raise.  All of them are instances of [Error]. *)
Inductive error :=
| NotFoundError (msg : string)
| ClientError (msg : string)
| PlainError (msg : string)
| TypeError (msg : string)
| StatusError (name msg : string).

(** [err instanceof clientErrors.NotFoundError] *)
Definition isNotFoundError (e : error) : bool :=
  match e with NotFoundError _ => true | _ => false end.

(** A settled promise of an external collaborator. *)
Inductive settled (A : Type) :=
| Fulfilled (a : A)
| Rejected (e : error).
Arguments Fulfilled {A} a.
Arguments Rejected {A} e.

(** [v.k] for the property names the client reads ([items], [total],
    [uuid]): none of them is a property of an array, a string, a number or a
    boolean, and reading any property of [null] or [undefined] throws. *)
Definition get_prop (v : value) (k : string) : settled value :=
  match v with
  | VUndefined => Rejected (TypeError "Cannot read property of undefined")
  | VNull => Rejected (TypeError "Cannot read property of null")
  | VObj o => Fulfilled (default VUndefined (o !! k))
  | _ => Fulfilled VUndefined
  end.

(** Own enumerable properties, as [Object.assign] copies them from a source:
    those of an object; the indexed elements of an array or characters of a
    string; none for the other primitives. *)
Definition indexed (l : list value) : gmap string value :=
  list_to_map (imap (fun i x => (pretty i, x)) l).

Fixpoint chars (s : string) : list value :=
  match s with
  | EmptyString => []
  | String c s' => VStr (String c EmptyString) :: chars s'
  end.

Definition own_props (v : value) : gmap string value :=
  match v with
  | VObj o => o
  | VArr l => indexed l
  | VStr s => indexed (chars s)
  | _ => ∅
  end.

(** [Object.assign({}, a, b)] on property maps: later sources win. *)
Definition assign (a b : gmap string value) : gmap string value := b ∪ a.

(** [a === b].  Objects and arrays compare by identity; the two sides always
    come from different parsed responses here, so they are never identical. *)
Definition strict_eq (a b : value) : bool :=
  match a, b with
  | VUndefined, VUndefined => true
  | VNull, VNull => true
  | VBool x, VBool y => Bool.eqb x y
  | VNum x, VNum y => x =? y
  | VFrac x, VFrac y => String.eqb x y
  | VStr x, VStr y => String.eqb x y
  | _, _ => false
  end.

(** ** [parseInt(v, 10)] *)

(** The white space [parseInt] skips, among the code units below 256: tab,
    line feed, vertical tab, form feed, carriage return, space and the
    no-break space. *)
Definition is_space (c : ascii) : bool :=
  let n := nat_of_ascii c in
  ((9 <=? n) && (n <=? 13))%nat || (n =? 32)%nat || (n =? 160)%nat.

Definition digit_of (c : ascii) : option Z :=
  let n := nat_of_ascii c in
  if ((48 <=? n) && (n <=? 57))%nat then Some (Z.of_nat n - 48) else None.

Fixpoint skip_spaces (s : string) : string :=
  match s with
  | String c s' => if is_space c then skip_spaces s' else s
  | EmptyString => s
  end.

(** Reads the longest prefix of decimal digits; [None] when there is none. *)
Fixpoint read_digits (acc : option Z) (s : string) : option Z :=
  match s with
  | String c s' =>
      match digit_of c with
      | Some d => read_digits (Some (10 * default 0 acc + d)) s'
      | None => acc
      end
  | EmptyString => acc
  end.

(** [None] is [NaN]. *)
Definition parseInt_string (s : string) : option Z :=
  match skip_spaces s with
  | String "-" s' => Z.opp <$> read_digits None s'
  | String "+" s' => read_digits None s'
  | s' => read_digits None s'
  end.

(** [parseInt] first converts its argument to a string.  A number below
    10^21 in magnitude prints as a decimal that reads back as that number;
    from 10^21 on the text is in exponent notation, of which [parseInt]
    reads the digits before the point or the [e].  The integer read from a
    text is kept as it is; JavaScript rounds it to the nearest number, which
    differs above 2^53 only. *)
Definition parseInt (v : value) : option Z :=
  match v with
  | VNum n => if Z.abs n <? 10 ^ 21 then Some n else parseInt_string (toString v)
  | _ => parseInt_string (toString v)
  end.

(** [a < b] where [b] may be [NaN]: every comparison with [NaN] is false. *)
Definition lt_num (a : Z) (b : option Z) : bool :=
  match b with
  | Some n => a <? n
  | None => false
  end.

(** ** Outgoing calls and the promise monad *)

(** [options.body] of a transport call. [BodyJSON d] is [JSON.stringify(d)]. *)
Inductive Body :=
| BodyUnset
| BodyNull
| BodyJSON (data : value).

(** The [Content-Length] header, when [_doRelationshipRequest] sets it:
    [Buffer.byteLength] of a body, or the constant [0]. *)
Inductive ContentLength :=
| ByteLengthOf (b : Body)
| ZeroLength.

(** The [options] handed to [fetch]: the configured [fetchOptions] (constant,
    with the [X-API-KEY] header) extended with the method, the body and the
    [Content-Length] header. *)
Record FetchOptions := mkFetchOptions {
  fo_method : string;
  fo_content_length : option ContentLength;
  fo_body : Body
}.

Inductive event :=
| EvFetch (url : string) (options : FetchOptions)
| EvKinesis (subject kind : string) (payload : list value).

Definition trace := list event.

(** How a promise ends: it resolves, it rejects, or the computation behind
    it has not finished within the steps it was given. *)
Inductive completion (A : Type) :=
| Resolved (a : A)
| Raised (e : error)
| Unfinished.
Arguments Resolved {A} a.
Arguments Raised {A} e.
Arguments Unfinished {A}.

Definition M (A : Type) : Type := trace -> completion A * trace.

Definition ret {A} (a : A) : M A := fun tr => (Resolved a, tr).
Definition throw {A} (e : error) : M A := fun tr => (Raised e, tr).
Definition never {A} : M A := fun tr => (Unfinished, tr).

(** [m.then(k)] *)
Definition bind {A B} (m : M A) (k : A -> M B) : M B :=
  fun tr =>
    match m tr with
    | (Resolved a, tr') => k a tr'
    | (Raised e, tr') => (Raised e, tr')
    | (Unfinished, tr') => (Unfinished, tr')
    end.

(** [m.catch(h)] *)
Definition catch {A} (m : M A) (h : error -> M A) : M A :=
  fun tr =>
    match m tr with
    | (Raised e, tr') => h e tr'
    | r => r
    end.

Definition of_settled {A} (s : settled A) : M A :=
  match s with
  | Fulfilled a => ret a
  | Rejected e => throw e
  end.

Notation "'do' x <- m ; k" := (bind m (fun x => k))
  (at level 10, x name, m at level 100, k at level 200, only parsing).
Notation "'do' '_' <- m ; k" := (bind m (fun _ => k))
  (at level 10, m at level 100, k at level 200, only parsing).

(** The text handed to the parse step for its error messages: a template
    literal, kept as its pieces ([Json v] is [JSON.stringify(v)]). *)
Inductive msg_part :=
| Text (s : string)
| Json (v : value).

(** What one chunk request of a batch left in the results array: the parsed
    response, or the error its [.catch] captured and returned. *)
Inductive outcome :=
| Success (res : value)
| Failure (err : error).

(** [res instanceof Error]: parsed JSON never is one, captured errors are. *)
Definition instanceof_Error (res : outcome) : bool :=
  match res with
  | Success _ => false
  | Failure _ => true
  end.

(** ** Configuration and collaborators *)

(** [helpers/config]: the values the client reads. *)
Record Config := mkConfig {
  MYFT_API_URL : string;
  NODE_ENV : string;
  BATCH_USER_COUNT : Z;
  BATCH_USER_CONCURRENCY : Z;
  MYFT_NO_EVENT : value;
  MYFT_WAIT_FOR_PURGE_ADD : value;
  FT_TOOL_ID : value;
  FT_TOOL_ADMIN_ID : value
}.

Module myftConst.
Definition userNodeName := "user".
Definition groupNodeName := "group".
Definition licenceNodeName := "license".
Definition memberRelName := "member".
Definition followedRelName := "followed".
Definition topicNodeName := "concept".
Definition prefRelName := "preference".
Definition prefRelType := "preferred".
Definition prefRelId := "email-digest".
End myftConst.

(** ** The promise library's [Promise.map]

    [Promise.map(xs, mapper, {concurrency})] of the promise library
    (bluebird) is not part of the repository; this is what it does with an
    array of plain values.  A first pass goes over the elements in order
    and calls the mapper on each, unless a limit is set and that many of
    the mapper's promises are pending: the element then waits in a queue.
    Whenever a pending promise settles, its value is written to the slot of
    its element and the queue is drained: while an element waits and a slot
    is free, the element pushed last is popped and the mapper is called on
    it.  When every slot is written the whole resolves with the array. *)

Inductive dispatch_event :=
| Started (i : nat)
| Completed (i : nat).

(** The mapping state: the queue of waiting elements (an array used
    through [push] and [pop] only, kept here newest first), the elements
    whose promise is pending, oldest first, and the timeline so far. *)
Record dispatch := mkDispatch {
  queue : list nat;
  inFlight : list nat;
  timeline : list dispatch_event
}.

(** [limit = concurrency >= 1 ? concurrency : 0], where [0] is no limit. *)
Definition concurrency_limit (concurrency : Z) : Z :=
  if 1 <=? concurrency then concurrency else 0.

(** An element is handed over: it is queued when the limit is reached,
    otherwise the mapper is called and its promise is pending. *)
Definition offer (limit : Z) (d : dispatch) (i : nat) : dispatch :=
  if (1 <=? limit) && (limit <=? Z.of_nat (length (inFlight d)))
  then {| queue := i :: queue d; inFlight := inFlight d; timeline := timeline d |}
  else {| queue := queue d; inFlight := inFlight d ++ [i];
          timeline := timeline d ++ [Started i] |}.

(** [while (queue.length > 0 && inFlight < limit) { index = queue.pop(); ... }] *)
Fixpoint drainQueue (fuel : nat) (limit : Z) (d : dispatch) : dispatch :=
  match fuel, queue d with
  | S fuel', index :: rest =>
      if Z.of_nat (length (inFlight d)) <? limit
      then drainQueue fuel' limit
             (offer limit {| queue := rest; inFlight := inFlight d;
                             timeline := timeline d |} index)
      else d
  | _, _ => d
  end.

(** The pending promise at position [p] settles; with a limit, the queue is
    drained. *)
Definition settle (limit : Z) (p : nat) (d : dispatch) : dispatch :=
  match inFlight d !! p with
  | Some i =>
      let d' := {| queue := queue d; inFlight := delete p (inFlight d);
                   timeline := timeline d ++ [Completed i] |} in
      if 1 <=? limit then drainQueue (length (queue d')) limit d' else d'
  | None => d
  end.

(** Which pending promise settles next is up to the remote side: of the
    requests in flight it answers first the one its [order] lists first
    (the oldest one when it lists none of them). *)
Definition next_answered (order pending : list nat) : nat :=
  match omap (fun i => fst <$> list_find (fun j => j = i) pending) order with
  | p :: _ => p
  | [] => 0%nat
  end.

Fixpoint run_dispatch (fuel : nat) (limit : Z) (order : list nat) (d : dispatch)
  : dispatch :=
  match fuel, inFlight d with
  | S fuel', _ :: _ =>
      run_dispatch fuel' limit order
        (settle limit (next_answered order (inFlight d)) d)
  | _, _ => d
  end.

(** The timeline of mapping [n] elements: the first pass, then one
    settlement after the other until nothing is pending. *)
Definition schedule (concurrency : Z) (order : list nat) (n : nat)
  : list dispatch_event :=
  let limit := concurrency_limit concurrency in
  timeline (run_dispatch n limit order
              (foldl (offer limit) {| queue := []; inFlight := []; timeline := [] |}
                 (seq 0 n))).

(** The elements in the order their mapper was called, and in the order
    their promises settled. *)
Definition started (t : list dispatch_event) : list nat :=
  omap (fun e => match e with Started i => Some i | Completed _ => None end) t.

Definition completions (t : list dispatch_event) : list nat :=
  omap (fun e => match e with Completed i => Some i | Started _ => None end) t.

Section Client.

(** What the transport resolves with. *)
Context {Response : Type}.

(** [helpers/helpers]: the query-string encoder and the parse step (which
    classifies a response by its status and otherwise yields the JSON
    body).  Both are used as given. *)
Record Helpers := mkHelpers {
  createParams : value -> string -> string;
  parseJsonRes : Response -> option (list msg_part) -> settled value
}.

(** The remote side: the transport [fetch], the event stream
    [kinesis.write], each answering from the history of calls, and the
    order in which the chunk requests of one batch of [n] chunks are
    served (any permutation of their positions): of the chunk requests in
    flight together, the one listed first is answered first. *)
Record World := mkWorld {
  fetch : trace -> string -> FetchOptions -> settled Response;
  kinesis_write : trace -> string -> string -> list value -> settled unit;
  service_order : nat -> list nat
}.

Context (config : Config) (helpers : Helpers) (world : World).

Definition do_fetch (url : string) (options : FetchOptions) : M Response :=
  fun tr =>
    match fetch world tr url options with
    | Fulfilled r => (Resolved r, tr ++ [EvFetch url options])
    | Rejected e => (Raised e, tr ++ [EvFetch url options])
    end.

Definition do_kinesis_write (subject kind : string) (payload : list value) : M unit :=
  fun tr =>
    match kinesis_write world tr subject kind payload with
    | Fulfilled r => (Resolved r, tr ++ [EvKinesis subject kind payload])
    | Rejected e => (Raised e, tr ++ [EvKinesis subject kind payload])
    end.

(** [.then(res => helpers.parseJsonRes(res, msg))] *)
Definition parse (msg : option (list msg_part)) (res : Response) : M value :=
  of_settled (parseJsonRes helpers res msg).

(** ** Request builder *)

Definition production : bool := String.eqb (NODE_ENV config) "production".

(** [data || {}] *)
Definition or_empty (data : value) : value :=
  if truthy data then data else VObj ∅.

Definition request_body (method : string) (data : value) : Body :=
  if negb (String.eqb method "GET") then
    if production then BodyJSON (or_empty data)
    else if truthy data then BodyJSON data else BodyNull
  else BodyUnset.

Definition request_content_length (method : string) (data : value)
  : option ContentLength :=
  if production then
    if negb (String.eqb method "GET")
    then Some (ByteLengthOf (request_body method data))
    else Some ZeroLength
  else None.

Definition request_query (method : string) (data params : value) : string :=
  let queryString := createParams helpers params "?" in
  if negb (String.eqb method "GET") then queryString
  else queryString +:+
       createParams helpers data (if String.eqb queryString "" then "?" else "&").

Definition _doRelationshipRequest (method theUrl : string) (data params : value)
  : M Response :=
  let options :=
    {| fo_method := method;
       fo_content_length := request_content_length method data;
       fo_body := request_body method data |} in
  do_fetch (theUrl +:+ request_query method data params) options.

(** One conditional [theUrl += `/${component}`]. *)
Definition add_segment (theUrl : string) (component : option string) : string :=
  match component with
  | Some c => theUrl +:+ "/" +:+ c
  | None => theUrl
  end.

Definition relationship_url (node : string)
    (nodeId relationship relatedNode relatedNodeId : option string) : string :=
  let theUrl := MYFT_API_URL config +:+ "/" +:+ node in
  let theUrl := add_segment theUrl nodeId in
  let theUrl := add_segment theUrl relationship in
  let theUrl := add_segment theUrl relatedNode in
  let theUrl := add_segment theUrl relatedNodeId in
  theUrl.

Definition _createAndTriggerRelationshipRequest (method node : string)
    (nodeId relationship relatedNode relatedNodeId : option string)
    (data params : value) : M Response :=
  _doRelationshipRequest method
    (relationship_url node nodeId relationship relatedNode relatedNodeId)
    data params.

Definition _createAndTriggerScopedRequest (method node nodeId relatedNode
    relatedNodeId relationship relatedType : string) (data params : value)
  : M Response :=
  let theUrl := MYFT_API_URL config +:+ "/" +:+ node +:+ "/" +:+ nodeId
                +:+ "/" +:+ relatedNode +:+ "/" +:+ relatedNodeId
                +:+ "/" +:+ relationship +:+ "/" +:+ relatedType in
  _doRelationshipRequest method theUrl data params.

(** ** Pagination aggregator *)

(** The query object of one page, [{ page, limit: 500 }]. *)
Definition page_params (page : Z) : value :=
  VObj (<["page" := VNum page]> (<["limit" := VNum 500]> ∅)).

(** One page request followed by the parse step. [_getAllNodeItems] passes
    its [params] object in the [data] position, so the builder folds it into
    the query string of the GET. *)
Definition get_page (node : string) (nodeId relationship relatedNode : option string)
    (page : Z) : M value :=
  do res <- _createAndTriggerRelationshipRequest "GET" node nodeId relationship
              relatedNode None (page_params page) VUndefined;
  parse None res.

(** [!!response.total && (params.page * params.limit) < parseInt(response.total, 10)] *)
Definition more_pages (page : Z) (total : value) : bool :=
  truthy total && lt_num (page * 500) (parseInt total).

(** The [.then] callback of [_getAllNodeItems], with the mutable [allItems]
    and [params.page] passed along.  [steps] bounds the further pages it may
    request; [Unfinished] is returned when they are used up. *)
Fixpoint thenFn (steps : nat) (node : string)
    (nodeId relationship relatedNode : option string)
    (page : Z) (allItems : list value) (response : value) : M (list value) :=
  do items <- of_settled (get_prop response "items");
  match items with
  | VArr items =>
      let allItems := allItems ++ items in
      do total <- of_settled (get_prop response "total");
      if more_pages page total then
        match steps with
        | O => never
        | S steps' =>
            do next <- get_page node nodeId relationship relatedNode (page + 1);
            thenFn steps' node nodeId relationship relatedNode (page + 1) allItems next
        end
      else ret allItems
  | _ => ret allItems
  end.

Definition _getAllNodeItems (steps : nat) (node : string)
    (nodeId relationship relatedNode : option string) : M (list value) :=
  do response <- get_page node nodeId relationship relatedNode 1;
  thenFn steps node nodeId relationship relatedNode 1 [] response.

Definition getConceptsFollowedByUser (steps : nat) (uuid : string) :=
  _getAllNodeItems steps myftConst.userNodeName (Some uuid)
    (Some myftConst.followedRelName) (Some myftConst.topicNodeName).

Definition getConceptsFollowedByGroup (steps : nat) (uuid : string) :=
  _getAllNodeItems steps myftConst.groupNodeName (Some uuid)
    (Some myftConst.followedRelName) (Some myftConst.topicNodeName).

Definition getGroupsForLicence (steps : nat) (uuid : string) :=
  _getAllNodeItems steps myftConst.licenceNodeName (Some uuid)
    (Some myftConst.memberRelName) (Some myftConst.groupNodeName).

Definition getUsersForLicence (steps : nat) (uuid : string) :=
  _getAllNodeItems steps myftConst.licenceNodeName (Some uuid)
    (Some myftConst.memberRelName) (Some myftConst.userNodeName).

Definition getUsersForGroup (steps : nat) (uuid : string) :=
  _getAllNodeItems steps myftConst.groupNodeName (Some uuid)
    (Some myftConst.memberRelName) (Some myftConst.userNodeName).

(** ** Single-request add/remove *)

(** What a public operation resolves with: the transport's response as it
    came, a parsed body, or the results array of a batch. *)
Inductive resolution :=
| Raw (res : Response)
| Parsed (v : value)
| Outcomes (results : list outcome).

(** [Object.assign({noEvent: ..., waitForPurge: ...}, options)] *)
Definition request_params (options : value) : value :=
  VObj (assign (<["noEvent" := MYFT_NO_EVENT config]>
                  (<["waitForPurge" := MYFT_WAIT_FOR_PURGE_ADD config]> ∅))
               (own_props options)).

(** [(relProp !== undefined ? {_rel: relProp} : {})] *)
Definition rel_tag (relProp : value) : gmap string value :=
  match relProp with
  | VUndefined => ∅
  | _ => {["_rel" := relProp]}
  end.

Definition _addRemoveRelationships (method node : string) (nodeId : option string)
    (rel relType : string) (relIds relProp options : value) : M Response :=
  let params := request_params options in
  let body :=
    match relIds with
    | VArr relIds =>
        VArr (map (fun uuid => VObj (assign {["uuid" := uuid]} (rel_tag relProp))) relIds)
    | _ => VObj (assign {["uuid" := relIds]} (rel_tag relProp))
    end in
  _createAndTriggerRelationshipRequest method node nodeId (Some rel) (Some relType)
    None body params.

Definition _addRemoveUsers (method node : string) (nodeId : option string)
    (userIds relProp options : value) (noResultParse : bool) : M resolution :=
  let operation := "myFTClient.addRemoveUsers - " +:+ method +:+ " " +:+ node in
  let thePromise :=
    _addRemoveRelationships method node nodeId myftConst.memberRelName
      myftConst.userNodeName userIds relProp options in
  if negb noResultParse then
    do res <- thePromise;
    do v <- parse (Some [Text (operation +:+ " - users: "); Json userIds]) res;
    ret (Parsed v)
  else
    do res <- thePromise; ret (Raw res).

Definition _addRemoveGroups (method : string) (licenseId : option string)
    (groupIds relProp options : value) (noResultParse : bool) : M resolution :=
  let operation := "myFTClient.addRemoveGroups - " +:+ method in
  let thePromise :=
    _addRemoveRelationships method myftConst.licenceNodeName licenseId
      myftConst.memberRelName myftConst.groupNodeName groupIds relProp options in
  if negb noResultParse then
    do res <- thePromise;
    do v <- parse (Some [Text (operation +:+ " - groups: "); Json groupIds]) res;
    ret (Parsed v)
  else
    do res <- thePromise; ret (Raw res).

Definition _removeConceptsFollowedByNode (node : string) (nodeUUID : option string)
    (conceptUUIDs : value) (noResultParse : bool) : M resolution :=
  let thePromise :=
    _addRemoveRelationships "DELETE" node nodeUUID myftConst.followedRelName
      myftConst.topicNodeName conceptUUIDs VUndefined VUndefined in
  if negb noResultParse then
    do res <- thePromise; do v <- parse None res; ret (Parsed v)
  else
    do res <- thePromise; ret (Raw res).

(** ** Batch engine *)

(** The [while (idsClone.length) idChunks.push(idsClone.splice(0, size))]
    loop; [splice(0, size)] removes [min(max(size, 0), length)] elements.
    [steps] bounds the iterations; [None] when they are used up. *)
Fixpoint chunk_loop (steps : nat) (size : Z) (idsClone : list value)
  : option (list (list value)) :=
  match idsClone with
  | [] => Some []
  | _ =>
      match steps with
      | O => None
      | S steps' =>
          cons (take (Z.to_nat size) idsClone)
            <$> chunk_loop steps' size (drop (Z.to_nat size) idsClone)
      end
  end.

Definition idChunks (steps : nat) (nodeId : value) : option (list value) :=
  match nodeId with
  | VArr ids => map VArr <$> chunk_loop steps (BATCH_USER_COUNT config) ids
  | _ => Some [nodeId]
  end.

(** [partial.subjects] *)
Definition subjects (relIds : list value) (relProp : value) : list value :=
  map (fun item => VObj (assign (own_props item) (rel_tag relProp))) relIds.

(** [Object.assign({}, partial, { ids: chunk })] *)
Definition chunkData (relIds : list value) (relProp chunk : value) : value :=
  VObj (<["ids" := chunk]> {["subjects" := VArr (subjects relIds relProp)]}).

(** The mapper handed to [Promise.map]: one request for the chunk, the parse
    step, and a [.catch] that turns any failure into a returned value. *)
Definition chunk_mapper (method node rel relType : string) (relIds : list value)
    (relProp params chunk : value) : M outcome :=
  catch
    (do res <- _createAndTriggerRelationshipRequest method node None (Some rel)
                 (Some relType) None (chunkData relIds relProp chunk) params;
     do v <- parse None res;
     ret (Success v))
    (fun err => ret (Failure err)).

(** [serve] calls the mapper on the elements in the order they are started.
    A call goes on the trace when it is made, and is taken together with
    the answer it will get: the remote decides on the answer from the calls
    made before. *)
Fixpoint serve {A B} (order : list nat) (mapper : A -> M B) (xs : list A)
  : M (list (nat * B)) :=
  match order with
  | [] => ret []
  | i :: order' =>
      match xs !! i with
      | Some x =>
          do b <- mapper x;
          do rest <- serve order' mapper xs;
          ret ((i, b) :: rest)
      | None => serve order' mapper xs
      end
  end.

(** Each settlement writes its slot of the result array. *)
Definition place {B} (n : nat) (completed : list (nat * B)) : list (option B) :=
  foldl (fun arr c => <[c.1 := Some c.2]> arr) (replicate n None) completed.

Fixpoint all_filled {B} (arr : list (option B)) : option (list B) :=
  match arr with
  | [] => Some []
  | Some b :: arr' => cons b <$> all_filled arr'
  | None :: _ => None
  end.

(** [Promise.map(xs, mapper, {concurrency})]: the mappers are called in the
    order of the timeline's starts, their values arrive in the order of its
    settlements, and the whole resolves with the array they fill.  (The
    mapper of the engine never rejects; a rejecting mapper would reject the
    whole.) *)
Definition Promise_map {A B} (concurrency : Z) (mapper : A -> M B) (xs : list A)
  : M (list B) :=
  let t := schedule concurrency (service_order world (length xs)) (length xs) in
  do answered <- serve (started t) mapper xs;
  let arrived :=
    omap (fun i => snd <$> list_find (fun c : nat * B => c.1 = i) answered)
      (completions t) in
  match all_filled (place (length xs) arrived) with
  | Some results => ret results
  | None => never
  end.

(** The [.then(results => ...)] step of the engine. A one-element array
    whose element is not an error never reaches the inner [match]. *)
Definition aggregate (results : list outcome) : M (list outcome) :=
  let notAllErrors := existsb (fun res => negb (instanceof_Error res)) results in
  if negb notAllErrors then
    match results with
    | [Failure err] => throw err
    | _ => throw (ClientError "An error has occurred while processing your request.")
    end
  else ret results.

Definition _multiAddRemoveRelationships (steps : nat) (method node : string)
    (nodeId : value) (rel relType : string) (relIds : list value)
    (relProp options : value) : M (list outcome) :=
  let params := request_params options in
  match idChunks steps nodeId with
  | None => never
  | Some idChunks =>
      do results <- Promise_map (BATCH_USER_CONCURRENCY config)
                      (chunk_mapper method node rel relType relIds relProp params)
                      idChunks;
      aggregate results
  end.

Definition _addRemoveConceptsFollowed (steps : nat) (method node : string)
    (nodeId : value) (newConceptsToFollow : list value) (followProps : value) :=
  _multiAddRemoveRelationships steps method node nodeId myftConst.followedRelName
    myftConst.topicNodeName newConceptsToFollow followProps VUndefined.

(** ** Public operations *)

Definition relationshipProperties : gmap string value :=
  <["byTool" := FT_TOOL_ID config]> (<["byUser" := FT_TOOL_ADMIN_ID config]> ∅).

Definition followedProperties : gmap string value :=
  assign ∅ relationshipProperties.

Definition digestProperties : gmap string value :=
  assign (<["type" := VStr "daily"]> (<["timezone" := VStr "Europe/London"]> ∅))
         relationshipProperties.

Definition getEmailDigestPreference (uuid : string) : M value :=
  let operation := "myFTClient.emailDigestPreferences" in
  do res <- _createAndTriggerRelationshipRequest "GET" myftConst.userNodeName
              (Some uuid) (Some myftConst.prefRelType) (Some myftConst.prefRelName)
              (Some myftConst.prefRelId) VUndefined VUndefined;
  parse (Some [Text (operation +:+ " for user " +:+ uuid)]) res.

Definition setEmailDigestPreference (steps : nat) (uuid preference options : value)
  : M resolution :=
  do results <- _multiAddRemoveRelationships steps "POST" myftConst.userNodeName uuid
                  myftConst.prefRelType myftConst.prefRelName
                  [VObj {["uuid" := VStr myftConst.prefRelId]}] preference options;
  ret (Outcomes results).

Definition addUsersToLicence (licenceUUID : string) (userUUIDs relationshipProperties
    options : value) : M resolution :=
  _addRemoveUsers "POST" myftConst.licenceNodeName (Some licenceUUID) userUUIDs
    relationshipProperties options false.

Definition removeUsersFromLicence (licenceUUID : string) (userUUIDs options : value)
  : M resolution :=
  _addRemoveUsers "DELETE" myftConst.licenceNodeName (Some licenceUUID) userUUIDs
    VUndefined options true.

Definition addUsersToGroup (groupUUID : string) (userUUIDs relationshipProperties
    options : value) : M resolution :=
  _addRemoveUsers "POST" myftConst.groupNodeName (Some groupUUID) userUUIDs
    relationshipProperties options false.

Definition removeUsersFromGroup (groupUUID : string) (userUUIDs options : value)
  : M resolution :=
  _addRemoveUsers "DELETE" myftConst.groupNodeName (Some groupUUID) userUUIDs
    VUndefined options true.

Definition addGroupsToLicence (licenceUUID : string) (groupUUIDs relationshipProperties
    options : value) : M resolution :=
  _addRemoveGroups "POST" (Some licenceUUID) groupUUIDs relationshipProperties
    options false.

Definition removeGroupsFromLicence (licenceUUID : string) (groupUUIDs options : value)
  : M resolution :=
  _addRemoveGroups "DELETE" (Some licenceUUID) groupUUIDs VUndefined options true.

Definition addConceptsFollowedByUser (steps : nat) (userUUID : value)
    (conceptUUIDs : list value) (relationshipProperties : value) : M resolution :=
  do results <- _addRemoveConceptsFollowed steps "POST" myftConst.userNodeName
                  userUUID conceptUUIDs relationshipProperties;
  ret (Outcomes results).

Definition addConceptsFollowedByGroup (steps : nat) (groupUUID : value)
    (conceptUUIDs : list value) (relationshipProperties : value) : M resolution :=
  do results <- _addRemoveConceptsFollowed steps "POST" myftConst.groupNodeName
                  groupUUID conceptUUIDs relationshipProperties;
  ret (Outcomes results).

Definition removeConceptsFollowedByGroup (groupUUID : string) (conceptUUIDs : value)
  : M resolution :=
  _removeConceptsFollowedByNode myftConst.groupNodeName (Some groupUUID)
    conceptUUIDs true.

Definition removeConceptsFollowedByUser (userUUID : string) (conceptUUIDs : value)
  : M resolution :=
  _removeConceptsFollowedByNode myftConst.userNodeName (Some userUUID)
    conceptUUIDs true.

(** ** Synchronisation workflow *)

Inductive SyncResult :=
| SynchronisationIgnored (uuid group reason : string)
| SynchronisationCompleted (uuid group : string) (newConceptsToFollow : list value).

Definition status (r : SyncResult) : string :=
  match r with
  | SynchronisationIgnored _ _ _ => "synchronisationIgnored"
  | SynchronisationCompleted _ _ _ => "synchronisationCompleted"
  end.

(** [conceptsResp.map(concept => concept.uuid)] *)
Fixpoint uuids_of (conceptsResp : list value) : settled (list value) :=
  match conceptsResp with
  | [] => Fulfilled []
  | concept :: rest =>
      match get_prop concept "uuid" with
      | Rejected e => Rejected e
      | Fulfilled uuid =>
          match uuids_of rest with
          | Rejected e => Rejected e
          | Fulfilled ids => Fulfilled (uuid :: ids)
          end
      end
  end.

(** [userConceptIds.indexOf(x) === -1] *)
Definition not_in_ids (userConceptIds : list value) (x : value) : bool :=
  negb (existsb (fun id => strict_eq id x) userConceptIds).

(** [groupConcepts.filter(item => userConceptIds.indexOf(item.uuid) === -1)] *)
Fixpoint filter_new (userConceptIds groupConcepts : list value) : settled (list value) :=
  match groupConcepts with
  | [] => Fulfilled []
  | item :: rest =>
      match get_prop item "uuid" with
      | Rejected e => Rejected e
      | Fulfilled uuid =>
          match filter_new userConceptIds rest with
          | Rejected e => Rejected e
          | Fulfilled kept =>
              Fulfilled (if not_in_ids userConceptIds uuid then item :: kept else kept)
          end
      end
  end.

(** [Object.assign({}, item)] followed by [delete newItem._rel]. *)
Definition clean_concept (item : value) : value :=
  VObj (delete "_rel" (assign ∅ (own_props item))).

(** [.catch(err => { if (err instanceof NotFoundError) return []; throw err; })] *)
Definition not_found_as_empty (m : M (list value)) : M (list value) :=
  catch m (fun err => if isNotFoundError err then ret [] else throw err).

(** The callbacks of the promise chain, innermost first. *)

(** After the user's preference was looked for: strip the relationship tag,
    write the event, build the result. *)
Definition emitSubscribe (groupId userId : string) (newConceptsToFollow : list value)
  : M SyncResult :=
  let cleanConcepts := map clean_concept newConceptsToFollow in
  do _ <- do_kinesis_write userId "subscribe" cleanConcepts;
  ret (SynchronisationCompleted userId groupId newConceptsToFollow).

(** [getEmailDigestPreference(userId).catch(...)] *)
Definition ensureDigestPreference (steps : nat) (userId : string) : M unit :=
  catch (do _ <- getEmailDigestPreference userId; ret tt)
    (fun err =>
       if isNotFoundError err
       then do _ <- setEmailDigestPreference steps (VStr userId)
                      (VObj digestProperties) VUndefined;
            ret tt
       else throw err).

(** [followProps]: a copy of [followedProperties] with [asMemberOf] set. *)
Definition followProps (groupId : string) : value :=
  VObj (<["asMemberOf" := VStr groupId]> (assign ∅ followedProperties)).

Definition followNewConcepts (steps : nat) (groupId userId : string)
    (newConceptsToFollow : list value) : M SyncResult :=
  do _ <- addConceptsFollowedByUser steps (VStr userId) newConceptsToFollow
            (followProps groupId);
  do _ <- ensureDigestPreference steps userId;
  emitSubscribe groupId userId newConceptsToFollow.

(** The callback that receives the user's concepts. *)
Definition onUserConcepts (steps : nat) (groupId userId : string)
    (groupConcepts conceptsResp : list value) : M SyncResult :=
  do userConceptIds <- of_settled (uuids_of conceptsResp);
  do newConceptsToFollow <- of_settled (filter_new userConceptIds groupConcepts);
  if (Z.of_nat (length newConceptsToFollow) =? 0)
  then ret (SynchronisationIgnored userId groupId "noNewConceptsToFollow")
  else followNewConcepts steps groupId userId newConceptsToFollow.

(** The callback that receives the group's concepts. *)
Definition onGroupConcepts (steps : nat) (groupId userId : string)
    (groupConcepts : list value) : M SyncResult :=
  let conceptCount := Z.of_nat (length groupConcepts) in
  if (conceptCount >? 0) then
    do conceptsResp <- not_found_as_empty (getConceptsFollowedByUser steps userId);
    onUserConcepts steps groupId userId groupConcepts conceptsResp
  else ret (SynchronisationIgnored userId groupId "noGroupConceptsToFollow").

(** [Array.isArray] holds of everything the two fetches resolve with (the
    accumulator of the aggregator, or the empty array of the recovery), so
    the branches that reject a non-array are never taken and are left out. *)
Definition syncUserFollowers (steps : nat) (groupId userId : string) : M SyncResult :=
  do groupConcepts <- not_found_as_empty (getConceptsFollowedByGroup steps groupId);
  onGroupConcepts steps groupId userId groupConcepts.

(** ** Single nodes and members *)

Definition _getNode (node uuid : string) : M value :=
  do res <- _createAndTriggerRelationshipRequest "GET" node (Some uuid) None None
              None VUndefined VUndefined;
  parse None res.

Definition _setNode (node uuid : string) : M value :=
  do res <- _createAndTriggerRelationshipRequest "POST" node None None None None
              (VObj {["uuid" := VStr uuid]}) VUndefined;
  parse None res.

Definition _updateNode (node uuid : string) (data : value) : M value :=
  do res <- _createAndTriggerRelationshipRequest "PUT" node (Some uuid) None None
              None data VUndefined;
  parse None res.

Definition _getMemberFromNode (node nodeId memberType memberId : string) : M value :=
  do res <- _createAndTriggerRelationshipRequest "GET" node (Some nodeId)
              (Some myftConst.memberRelName) (Some memberType) (Some memberId)
              VUndefined VUndefined;
  parse None res.

Definition _getNodesFollowingConcept (licenceId conceptId nodeType : string)
  : M value :=
  do res <- _createAndTriggerScopedRequest "GET" myftConst.licenceNodeName licenceId
              myftConst.topicNodeName conceptId myftConst.followedRelName nodeType
              VUndefined VUndefined;
  parse None res.

Definition addLicence (uuid : string) : M value :=
  _setNode myftConst.licenceNodeName uuid.

Definition updateLicence (uuid : string) (data : value) : M value :=
  _updateNode myftConst.licenceNodeName uuid data.

Definition getLicence (uuid : string) : M value :=
  _getNode myftConst.licenceNodeName uuid.

Definition getUsersFollowingConcept (licenceId conceptId : string) : M value :=
  _getNodesFollowingConcept licenceId conceptId myftConst.userNodeName.

Definition getGroupsFollowingConcept (licenceId conceptId : string) : M value :=
  _getNodesFollowingConcept licenceId conceptId myftConst.groupNodeName.

Definition getUsersWithEmailDigestPreference (uuid : string) : M value :=
  do res <- _createAndTriggerScopedRequest "GET" myftConst.licenceNodeName uuid
              myftConst.prefRelName myftConst.prefRelId myftConst.prefRelType
              myftConst.userNodeName VUndefined VUndefined;
  parse None res.

Definition getUserFromLicence (licenceId userId : string) : M value :=
  _getMemberFromNode myftConst.licenceNodeName licenceId myftConst.userNodeName
    userId.

Definition getUserFromGroup (groupId userId : string) : M value :=
  _getMemberFromNode myftConst.groupNodeName groupId myftConst.userNodeName userId.

Definition getGroupFromLicence (licenceId groupId : string) : M value :=
  _getMemberFromNode myftConst.licenceNodeName licenceId myftConst.groupNodeName
    groupId.

End Client.

(** ** The calls a run leaves in the trace *)

Section Requests.

Context {Response : Type}.
Context (config : Config) (helpers : @Helpers Response) (world : @World Response).

(** The URL and the options of the transport call
    [_createAndTriggerRelationshipRequest] makes. *)
Definition request_url (method node : string)
    (nodeId relationship relatedNode relatedNodeId : option string)
    (data params : value) : string :=
  relationship_url config node nodeId relationship relatedNode relatedNodeId
    +:+ request_query helpers method data params.

Definition request_options (method : string) (data : value) : FetchOptions :=
  {| fo_method := method;
     fo_content_length := request_content_length config method data;
     fo_body := request_body config method data |}.

Definition request_event (method node : string)
    (nodeId relationship relatedNode relatedNodeId : option string)
    (data params : value) : event :=
  EvFetch
    (request_url method node nodeId relationship relatedNode relatedNodeId data params)
    (request_options method data).

(** The request for page [page] of a node's related items. *)
Definition page_request (node : string) (nodeId relationship relatedNode : option string)
    (page : Z) : event :=
  request_event "GET" node nodeId relationship relatedNode None
    (page_params page) VUndefined.

(** The requests for the [count] pages [first], [first + 1], ... *)
Definition page_requests (node : string) (nodeId relationship relatedNode : option string)
    (first count : Z) : list event :=
  map (page_request node nodeId relationship relatedNode) (seqZ first count).

(** The request the batch engine makes for one chunk. *)
Definition chunk_request (method node rel relType : string) (relIds : list value)
    (relProp options chunk : value) : event :=
  request_event method node None (Some rel) (Some relType) None
    (chunkData relIds relProp chunk) (request_params config options).

(** What the request for one chunk, made after the calls [tr], leaves in
    the results array. *)
Definition chunk_outcome (method node rel relType : string) (relIds : list value)
    (relProp options : value) (tr : trace) (chunk : value) : outcome :=
  match fetch world tr
          (request_url method node None (Some rel) (Some relType) None
             (chunkData relIds relProp chunk) (request_params config options))
          (request_options method (chunkData relIds relProp chunk)) with
  | Fulfilled r =>
      match parseJsonRes helpers r None with
      | Fulfilled v => Success v
      | Rejected e => Failure e
      end
  | Rejected e => Failure e
  end.

(** The transport's answer to the request of [_addRemoveRelationships],
    made after the calls [tr]. *)
Definition relationships_data (relIds relProp : value) : value :=
  match relIds with
  | VArr relIds =>
      VArr (map (fun uuid => VObj (assign {["uuid" := uuid]} (rel_tag relProp))) relIds)
  | _ => VObj (assign {["uuid" := relIds]} (rel_tag relProp))
  end.

Definition relationships_request (method node : string) (nodeId : option string)
    (rel relType : string) (relIds relProp options : value) : event :=
  request_event method node nodeId (Some rel) (Some relType) None
    (relationships_data relIds relProp) (request_params config options).

Definition relationships_answer (method node : string) (nodeId : option string)
    (rel relType : string) (relIds relProp options : value) (tr : trace)
  : settled Response :=
  fetch world tr
    (request_url method node nodeId (Some rel) (Some relType) None
       (relationships_data relIds relProp) (request_params config options))
    (request_options method (relationships_data relIds relProp)).

(** The same remote side answering the chunk requests of a batch in
    another order. *)
Definition answering (order : nat -> list nat) : @World Response :=
  {| fetch := fetch world;
     kinesis_write := kinesis_write world;
     service_order := order |}.

(** Resolving with the transport's response as it came, and resolving with
    what the parse step makes of it. *)
Definition raw_answer (a : settled Response) : completion (@resolution Response) :=
  match a with
  | Fulfilled r => Resolved (Raw r)
  | Rejected e => Raised e
  end.

Definition parsed_answer (msg : option (list msg_part)) (a : settled Response)
  : completion (@resolution Response) :=
  match a with
  | Fulfilled r =>
      match parseJsonRes helpers r msg with
      | Fulfilled v => Resolved (Parsed v)
      | Rejected e => Raised e
      end
  | Rejected e => Raised e
  end.

(** The requests of the synchronisation workflow. *)
Definition add_follow_request (groupId userId : string) (newConcepts : list value)
  : event :=
  chunk_request "POST" myftConst.userNodeName myftConst.followedRelName
    myftConst.topicNodeName newConcepts (followProps config groupId) VUndefined
    (VStr userId).

Definition add_follow_outcome (groupId userId : string) (newConcepts : list value)
    (tr : trace) : outcome :=
  chunk_outcome "POST" myftConst.userNodeName myftConst.followedRelName
    myftConst.topicNodeName newConcepts (followProps config groupId) VUndefined
    tr (VStr userId).

Definition get_preference_request (userId : string) : event :=
  request_event "GET" myftConst.userNodeName (Some userId)
    (Some myftConst.prefRelType) (Some myftConst.prefRelName)
    (Some myftConst.prefRelId) VUndefined VUndefined.

Definition set_preference_request (userId : string) : event :=
  chunk_request "POST" myftConst.userNodeName myftConst.prefRelType
    myftConst.prefRelName [VObj {["uuid" := VStr myftConst.prefRelId]}]
    (VObj (digestProperties config)) VUndefined (VStr userId).

Definition set_preference_outcome (userId : string) (tr : trace) : outcome :=
  chunk_outcome "POST" myftConst.userNodeName myftConst.prefRelType
    myftConst.prefRelName [VObj {["uuid" := VStr myftConst.prefRelId]}]
    (VObj (digestProperties config)) VUndefined tr (VStr userId).

(** What a read resolves with: the parse step applied to the transport's
    answer. *)
Definition parsed_value (msg : option (list msg_part)) (a : settled Response)
  : completion value :=
  match a with
  | Fulfilled r =>
      match parseJsonRes helpers r msg with
      | Fulfilled v => Resolved v
      | Rejected e => Raised e
      end
  | Rejected e => Raised e
  end.

(** The query string of a call that passes neither data nor parameters. *)
Definition no_query (method : string) : string :=
  request_query helpers method VUndefined VUndefined.

End Requests.

(** A transport call that only reads. *)
Definition is_read (e : event) : bool :=
  match e with
  | EvFetch _ options => String.eqb (fo_method options) "GET"
  | EvKinesis _ _ _ => false
  end.

Definition event_body (e : event) : option Body :=
  match e with
  | EvFetch _ options => Some (fo_body options)
  | EvKinesis _ _ _ => None
  end.

(** Concepts as the service sends them: objects. [uuid_of o] is [o.uuid]. *)
Definition uuid_of (o : gmap string value) : value :=
  default VUndefined (o !! "uuid").

(** The uuid of [concept] is among the uuids of the concepts [followed]. *)
Definition follows (followed : list (gmap string value)) (concept : gmap string value)
  : bool :=
  existsb (fun u => strict_eq (uuid_of u) (uuid_of concept)) followed.

(** The elements of [group] whose uuid is absent from the uuids of [user],
    in the order of [group]. *)
Definition absent_from (user group : list (gmap string value))
  : list (gmap string value) :=
  List.filter (fun g => negb (follows user g)) group.

(** The items a response contributes to the aggregate: its [items] when
    that is an array, nothing otherwise. *)
Definition items_of (response : value) : list value :=
  match get_prop response "items" with
  | Fulfilled (VArr items) => items
  | _ => []
  end.

(** A page request that does not deliver a usable response: it rejects, or
    it resolves with [null] or [undefined], whose [items] cannot be read. *)
Definition page_fails (c : completion value) (e : error) : Prop :=
  c = Raised e \/ exists v, c = Resolved v /\ get_prop v "items" = Rejected e.

(** A value that [===] compares by content. *)
Definition primitive (v : value) : bool :=
  match v with
  | VArr _ | VObj _ => false
  | _ => true
  end.

(** [null] or [undefined]. *)
Definition nullish (v : value) : bool :=
  match v with
  | VUndefined | VNull => true
  | _ => false
  end.

(** The number of mapper promises pending at the end of a timeline. *)
Definition in_flight (t : list dispatch_event) : Z :=
  Z.of_nat (length (started t)) - Z.of_nat (length (completions t)).

(** The order in which [Promise.map] calls the mapper on [n] elements:
    with a limit of at least 1, the first [limit] elements in order and then
    the others last first; all in order without one. *)
Definition start_order (concurrency : Z) (n : nat) : list nat :=
  if 1 <=? concurrency
  then let k := Nat.min (Z.to_nat concurrency) n in seq 0 k ++ rev (seq k (n - k))
  else seq 0 n.


(** The number of elements the first pass starts. *)
Definition first_pass (limit : Z) (n : nat) : nat :=
  if 1 <=? limit then Nat.min (Z.to_nat limit) n else n.

(** While an element waits, the limit is reached. *)
Definition waiting_ok (limit : Z) (d : dispatch) : Prop :=
  queue d <> [] -> 1 <= limit /\ Z.of_nat (length (inFlight d)) = limit.

(** Every prefix of the timeline keeps the number in flight within the
    limit, and an element that had to wait starts right after a
    settlement. *)
Definition timeline_ok (limit : Z) (first : nat) (t : list dispatch_event) : Prop :=
  (1 <= limit -> forall p, in_flight (take p t) <= limit)
  /\ (forall p j, t !! p = Some (Started j) ->
        (j < first)%nat
        \/ exists c, (1 <= p)%nat /\ t !! (p - 1)%nat = Some (Completed c)).

(** [ceil(a / b)] for positive [b]. *)
Definition ceil_div (a b : Z) : Z := (a + b - 1) / b.

(** The components of a path that were supplied, in order. *)
Definition supplied (components : list (option string)) : list string :=
  omap id components.

(** [response.items] is an array and the continuation test of the
    aggregator passes: [total] is truthy and parses to an integer above
    [page * 500]. *)
Definition wants_next_page (page : Z) (response : value) : bool :=
  match get_prop response "items", get_prop response "total" with
  | Fulfilled (VArr _), Fulfilled total =>
      truthy total && lt_num (page * 500) (parseInt total)
  | _, _ => false
  end.

(** ** Example collaborators

    A transport whose responses are a status and a JSON body, a parse step
    that turns 404 into [NotFoundError] and any other non-2xx status into a
    [StatusError], a query-string encoder, and remote sides that answer from
    a script or from the number of calls made so far. *)

Module Examples.

Definition Response : Type := Z * value.

Definition example_parseJsonRes (res : Response) (msg : option (list msg_part))
  : settled value :=
  if res.1 =? 404 then Rejected (NotFoundError "Not Found")
  else if (200 <=? res.1) && (res.1 <? 300) then Fulfilled res.2
  else Rejected (StatusError "StatusError" (pretty res.1)).

Definition example_createParams (params : value) (prefix : string) : string :=
  match params with
  | VObj o =>
      match map_to_list o with
      | [] => ""
      | kvs => prefix +:+ String.concat "&"
                 (map (fun kv : string * value => kv.1 +:+ "=" +:+ toString kv.2) kvs)
      end
  | _ => ""
  end.

Definition example_helpers : @Helpers Response :=
  {| createParams := example_createParams; parseJsonRes := example_parseJsonRes |}.

Definition example_config : Config :=
  {| MYFT_API_URL := "https://myft.example/v3";
     NODE_ENV := "test";
     BATCH_USER_COUNT := 2;
     BATCH_USER_CONCURRENCY := 3;
     MYFT_NO_EVENT := VBool false;
     MYFT_WAIT_FOR_PURGE_ADD := VBool true;
     FT_TOOL_ID := VStr "KAT";
     FT_TOOL_ADMIN_ID := VStr "admin" |}.

(** The remote answers the [k]-th call of a run with the [k]-th entry of a
    script, serves batches in the given order and always accepts events. *)
Definition scripted (script : list (settled Response)) (order : nat -> list nat)
  : @World Response :=
  {| fetch := fun tr _ _ =>
       default (Rejected (StatusError "NoResponse" "")) (script !! length tr);
     kinesis_write := fun _ _ _ _ => Fulfilled tt;
     service_order := order |}.

Definition in_order (n : nat) : list nat := seq 0 n.
Definition last_first (n : nat) : list nat := rev (seq 0 n).

Definition page_body (items : list value) (total : value) : value :=
  VObj (<["items" := VArr items]> (<["total" := total]> ∅)).

(** A concept as the service lists it, with the relationship it is followed
    through under [_rel]. *)
Definition concept_fields (uuid : string) : gmap string value :=
  <["uuid" := VStr uuid]>
    (<["name" := VStr ("Topic " +:+ uuid)]>
       (<["_rel" := VObj {["byTool" := VStr "myft"]}]> ∅)).

Definition concept (uuid : string) : value := VObj (concept_fields uuid).

Definition ok (body : value) : settled Response := Fulfilled (200, body).

(** A collection of 1200 items in three pages. *)
Definition three_pages (page : Z) : list value :=
  if page =? 1 then [concept "a"]
  else if page =? 2 then [concept "b"]
  else if page =? 3 then [concept "c"]
  else [].

Definition world_three_pages : @World Response :=
  scripted [ok (page_body (three_pages 1) (VNum 1200));
            ok (page_body (three_pages 2) (VNum 1200));
            ok (page_body (three_pages 3) (VNum 1200))] in_order.

(** An empty collection: every response reports the total 0. *)
Definition world_empty : @World Response :=
  {| fetch := fun _ _ _ => ok (page_body [] (VNum 0));
     kinesis_write := fun _ _ _ _ => Fulfilled tt;
     service_order := in_order |}.

(** A collection whose every response reports the total 10^21. *)
Definition world_huge_total : @World Response :=
  {| fetch := fun _ _ _ => ok (page_body [concept "a"] (VNum (10 ^ 21)));
     kinesis_write := fun _ _ _ _ => Fulfilled tt;
     service_order := in_order |}.

(** A remote whose reported total stays ahead of the page just sent: the
    answer to a call made after [k] calls carries the total as text, a one
    followed by [k + 3] zeros.  (A total sent as a number cannot stay ahead for ever:
    from 10^21 on [parseInt] reads its leading digit only.) *)
Fixpoint zeros (k : nat) : string :=
  match k with
  | O => ""
  | S k' => String "0" (zeros k')
  end.

Definition growing_total (calls : nat) : value :=
  VStr (String "1" (zeros (calls + 3))).

Definition world_growing : @World Response :=
  {| fetch := fun tr _ _ => ok (page_body [] (growing_total (length tr)));
     kinesis_write := fun _ _ _ _ => Fulfilled tt;
     service_order := in_order |}.

(** The group follows A and B, the user follows A and has no digest
    preference yet; every request succeeds. *)
Definition world_sync : @World Response :=
  scripted [ok (page_body [concept "A"; concept "B"] (VNum 2));
            ok (page_body [concept "A"] (VNum 1));
            ok (VObj ∅);
            Fulfilled (404, VNull);
            ok (VObj ∅)] in_order.

(** The group follows nothing. *)
Definition world_group_empty : @World Response :=
  scripted [ok (page_body [] (VNum 0))] in_order.

(** The user already follows everything the group follows. *)
Definition world_all_followed : @World Response :=
  scripted [ok (page_body [concept "A"; concept "B"] (VNum 2));
            ok (page_body [concept "B"; concept "A"] (VNum 2))] in_order.

(** The service does not know the group. *)
Definition world_group_missing : @World Response :=
  scripted [Fulfilled (404, VNull)] in_order.

(** The service fails on the first request. *)
Definition world_down : @World Response :=
  scripted [Fulfilled (503, VStr "unavailable")] in_order.

(** The service knows the group but not the user. *)
Definition world_user_missing : @World Response :=
  scripted [ok (page_body [concept "A"; concept "B"] (VNum 2));
            Fulfilled (404, VNull);
            ok (VObj ∅);
            ok (VObj ∅)] in_order.

(** The service fails when asked for the user's concepts. *)
Definition world_user_down : @World Response :=
  scripted [ok (page_body [concept "A"; concept "B"] (VNum 2));
            Fulfilled (503, VNull)] in_order.

(** The service fails when asked for the digest preference. *)
Definition world_preference_down : @World Response :=
  scripted [ok (page_body [concept "A"; concept "B"] (VNum 2));
            ok (page_body [concept "A"] (VNum 1));
            ok (VObj ∅);
            Fulfilled (503, VNull)] in_order.

(** Three chunk requests, answered last chunk first; the second one
    fails. *)
Definition world_batch : @World Response :=
  scripted [ok (VStr "first"); Fulfilled (503, VNull); ok (VStr "third")]
    last_first.

Definition five_ids : list value :=
  [VStr "u1"; VStr "u2"; VStr "u3"; VStr "u4"; VStr "u5"].

(** One request, answered with a body. *)
Definition world_one_answer : @World Response :=
  scripted [ok (VObj {["ok" := VBool true]})] in_order.

(** A configuration whose chunk size is 0, and one for production. *)
Definition config_no_chunk_size : Config :=
  {| MYFT_API_URL := "https://myft.example/v3";
     NODE_ENV := "test";
     BATCH_USER_COUNT := 0;
     BATCH_USER_CONCURRENCY := 3;
     MYFT_NO_EVENT := VBool false;
     MYFT_WAIT_FOR_PURGE_ADD := VBool true;
     FT_TOOL_ID := VStr "KAT";
     FT_TOOL_ADMIN_ID := VStr "admin" |}.

(** Chunks of two identifiers, sent one request at a time, and sent without
    a limit. *)
Definition config_one_at_a_time : Config :=
  {| MYFT_API_URL := "https://myft.example/v3";
     NODE_ENV := "test";
     BATCH_USER_COUNT := 2;
     BATCH_USER_CONCURRENCY := 1;
     MYFT_NO_EVENT := VBool false;
     MYFT_WAIT_FOR_PURGE_ADD := VBool true;
     FT_TOOL_ID := VStr "KAT";
     FT_TOOL_ADMIN_ID := VStr "admin" |}.

Definition config_no_limit : Config :=
  {| MYFT_API_URL := "https://myft.example/v3";
     NODE_ENV := "test";
     BATCH_USER_COUNT := 2;
     BATCH_USER_CONCURRENCY := 0;
     MYFT_NO_EVENT := VBool false;
     MYFT_WAIT_FOR_PURGE_ADD := VBool true;
     FT_TOOL_ID := VStr "KAT";
     FT_TOOL_ADMIN_ID := VStr "admin" |}.

(** The chunks of [five_ids] in chunks of two. *)
Definition five_ids_chunks : list value :=
  [VArr [VStr "u1"; VStr "u2"]; VArr [VStr "u3"; VStr "u4"]; VArr [VStr "u5"]].

Definition config_production : Config :=
  {| MYFT_API_URL := "https://myft.example/v3";
     NODE_ENV := "production";
     BATCH_USER_COUNT := 2;
     BATCH_USER_CONCURRENCY := 3;
     MYFT_NO_EVENT := VBool false;
     MYFT_WAIT_FOR_PURGE_ADD := VBool true;
     FT_TOOL_ID := VStr "KAT";
     FT_TOOL_ADMIN_ID := VStr "admin" |}.

(** A scripted remote whose event stream rejects every write. *)
Definition scripted_stream_down (script : list (settled Response)) : @World Response :=
  {| fetch := fun tr _ _ =>
       default (Rejected (StatusError "NoResponse" "")) (script !! length tr);
     kinesis_write := fun _ _ _ _ => Rejected (StatusError "StreamError" "down");
     service_order := in_order |}.

(** The second page of a collection cannot be read. *)
Definition world_second_page_fails : @World Response :=
  scripted [ok (page_body [concept "a"] (VNum 1200)); Fulfilled (503, VNull)]
    in_order.

(** Two pages whose totals disagree: the first announces 600 items, the
    second 10. *)
Definition world_two_pages : @World Response :=
  scripted [ok (page_body [concept "a"] (VNum 600));
            ok (page_body [concept "b"] (VNum 10))] in_order.

(** The add-follow request of the workflow fails. *)
Definition world_add_fails : @World Response :=
  scripted [ok (page_body [concept "A"; concept "B"] (VNum 2));
            ok (page_body [concept "A"] (VNum 1));
            Fulfilled (503, VNull)] in_order.

(** The digest preference is not found and cannot be created. *)
Definition world_preference_not_created : @World Response :=
  scripted [ok (page_body [concept "A"; concept "B"] (VNum 2));
            ok (page_body [concept "A"] (VNum 1));
            ok (VObj ∅);
            Fulfilled (404, VNull);
            Fulfilled (503, VNull)] in_order.

(** Every request succeeds, the event stream does not. *)
Definition world_stream_down : @World Response :=
  scripted_stream_down
    [ok (page_body [concept "A"; concept "B"] (VNum 2));
     ok (page_body [concept "A"] (VNum 1));
     ok (VObj ∅);
     ok (VObj ∅)].

(** The user's list of concepts holds a [null]. *)
Definition world_null_concept : @World Response :=
  scripted [ok (page_body [concept "A"; concept "B"] (VNum 2));
            ok (page_body [concept "A"; VNull] (VNum 2))] in_order.

End Examples.

(** ** Facts *)

Lemma string_app_assoc (a b c : string) : (a +:+ b) +:+ c = a +:+ (b +:+ c).
Proof.
  induction a as [|x a IH]; [reflexivity|].
  change (String x ((a +:+ b) +:+ c) = String x (a +:+ (b +:+ c))).
  now rewrite IH.
Qed.

Lemma string_app_empty_r (a : string) : a +:+ "" = a.
Proof.
  induction a as [|x a IH]; [reflexivity|].
  change (String x (a +:+ "") = String x a).
  now rewrite IH.
Qed.

(** *** What [parseInt] makes of a number *)

Lemma parseInt_small (n : Z) : Z.abs n < 10 ^ 21 -> parseInt (VNum n) = Some n.
Proof.
  intros Hn. unfold parseInt. apply Z.ltb_lt in Hn. now rewrite Hn.
Qed.

(** The text of a decimal in exponent notation reads as its leading digit. *)
Lemma read_exponent_text (v : Z) :
  exists d, 0 <= d <= 9
    /\ parseInt_string (exponent_text v) = Some d
    /\ parseInt_string ("-" +:+ exponent_text v) = Some (- d).
Proof.
  unfold exponent_text.
  set (lead := (v / 10 ^ (digits10 v - 1)) mod 10).
  set (tail := _ +:+ "e+" +:+ _).
  assert (Htail : exists c rest, tail = String c rest /\ digit_of c = None).
  { subst tail. destruct (strip_zeros _) as [|c0 [|c1 rest]]; simpl;
      eexists _, _; (split; [reflexivity|]); reflexivity. }
  destruct Htail as (c & rest & -> & Hc).
  assert (Hlead : 0 <= lead < 10) by (apply Z.mod_pos_bound; lia).
  exists lead. split; [lia|].
  assert (Hcases : lead = 0 \/ lead = 1 \/ lead = 2 \/ lead = 3 \/ lead = 4
                   \/ lead = 5 \/ lead = 6 \/ lead = 7 \/ lead = 8 \/ lead = 9) by lia.
  clearbody lead.
  destruct Hcases as [->|[->|[->|[->|[->|[->|[->|[->|[->| ->]]]]]]]]];
    split; unfold parseInt_string; simpl; rewrite Hc; reflexivity.
Qed.

Lemma parseInt_large (n : Z) :
  10 ^ 21 <= Z.abs n -> exists d, parseInt (VNum n) = Some d /\ Z.abs d <= 9.
Proof.
  intros Hn. unfold parseInt, toString, number_text.
  replace (Z.abs n <? 10 ^ 21) with false by (symmetry; apply Z.ltb_ge; exact Hn).
  replace (Z.abs n <=? 2 ^ 53) with false by (symmetry; apply Z.leb_gt; lia).
  destruct (read_exponent_text (shortest (Z.abs n))) as (d & Hd & Hpos & Hneg).
  destruct (n <? 0).
  - exists (- d). split; [exact Hneg | lia].
  - exists d. split; [exact Hpos | lia].
Qed.

Section Facts.

Context {Response : Type}.
Context (config : Config) (helpers : @Helpers Response) (world : @World Response).

(** *** Request builder *)

Lemma add_segment_supplied (url : string) (c : option string) :
  add_segment url c
  = url +:+ String.concat "" (map (String.append "/") (supplied [c])).
Proof.
  destruct c as [c|]; simpl.
  - reflexivity.
  - now rewrite string_app_empty_r.
Qed.

(** Every run of the builder makes exactly one transport call, whatever the
    transport answers. *)
Lemma request_run method node nodeId relationship relatedNode relatedNodeId
    data params tr :
  _createAndTriggerRelationshipRequest config helpers world method node nodeId
    relationship relatedNode relatedNodeId data params tr
  = (match fetch world tr
             (request_url config helpers method node nodeId relationship
                relatedNode relatedNodeId data params)
             (request_options config method data) with
     | Fulfilled r => Resolved r
     | Rejected e => Raised e
     end,
     tr ++ [request_event config helpers method node nodeId relationship
              relatedNode relatedNodeId data params]).
Proof.
  unfold _createAndTriggerRelationshipRequest, _doRelationshipRequest, do_fetch,
    request_event, request_url, request_options.
  destruct (fetch world tr _ _); reflexivity.
Qed.

(** C9. The URL the builder requests is the base URL, then the node kind,
    then one segment for each of node id, relationship kind, related-node
    kind and related id that is not undefined, in that order.  Every
    segment is a slash followed by a supplied component: an undefined
    component adds nothing to the path, no empty segment stands in for it.
    The query string follows the path. *)
Theorem request_path_order method node nodeId relationship relatedNode
    relatedNodeId data params tr :
  relationship_url config node nodeId relationship relatedNode relatedNodeId
  = MYFT_API_URL config +:+ "/" +:+ node
    +:+ String.concat ""
          (map (String.append "/")
               (supplied [nodeId; relationship; relatedNode; relatedNodeId]))
  /\ (forall segment,
        segment ∈ map (String.append "/")
                    (supplied [nodeId; relationship; relatedNode; relatedNodeId])
        <-> exists component,
              Some component ∈ [nodeId; relationship; relatedNode; relatedNodeId]
              /\ segment = "/" +:+ component)
  /\ (_createAndTriggerRelationshipRequest config helpers world method node nodeId
        relationship relatedNode relatedNodeId data params tr).2
     = tr ++ [EvFetch
                (relationship_url config node nodeId relationship relatedNode
                   relatedNodeId +:+ request_query helpers method data params)
                {| fo_method := method;
                   fo_content_length := request_content_length config method data;
                   fo_body := request_body config method data |}].
Proof.
  split; [|split].
  - unfold relationship_url.
    destruct nodeId, relationship, relatedNode, relatedNodeId; simpl;
      rewrite ?string_app_assoc; simpl; rewrite ?string_app_assoc; simpl;
      rewrite ?string_app_empty_r; reflexivity.
  - intros segment. unfold supplied. rewrite list_elem_of_fmap. split.
    + intros (component & -> & Hin). exists component. split; [|reflexivity].
      apply list_elem_of_omap in Hin as (c & Hin & Hc). simpl in Hc. now subst c.
    + intros (component & Hin & ->). exists component. split; [reflexivity|].
      apply list_elem_of_omap. now exists (Some component).
  - rewrite request_run. reflexivity.
Qed.

(** *** Pagination aggregator *)

Section Pagination.

Context (node : string) (nodeId relationship relatedNode : option string).

Local Abbreviation get_page' := (get_page config helpers world node nodeId relationship relatedNode).
Local Abbreviation thenFn' steps := (thenFn config helpers world steps node nodeId relationship relatedNode).
Local Abbreviation page_request' := (page_request config helpers node nodeId relationship relatedNode).
Local Abbreviation page_requests' := (page_requests config helpers node nodeId relationship relatedNode).

(** A page request adds its one call to the trace and always settles; what
    it resolves with went through the parse step. *)
Lemma get_page_run page tr :
  (get_page' page tr).2 = tr ++ [page_request' page]
  /\ (get_page' page tr).1 <> Unfinished
  /\ (forall v, (get_page' page tr).1 = Resolved v ->
        exists r url options,
          fetch world tr url options = Fulfilled r
          /\ parseJsonRes helpers r None = Fulfilled v).
Proof.
  unfold get_page, bind. rewrite request_run.
  destruct (fetch world tr _ _) as [r|e] eqn:Hf; simpl.
  - unfold parse, of_settled. destruct (parseJsonRes helpers r None) as [v|e] eqn:Hp;
      simpl; repeat split; try discriminate.
    intros v' [= <-]. eauto.
  - repeat split; discriminate.
Qed.

Lemma thenFn_unfold steps page allItems response tr :
  thenFn' steps page allItems response tr
  = match get_prop response "items" with
    | Rejected e => (Raised e, tr)
    | Fulfilled (VArr items) =>
        match get_prop response "total" with
        | Rejected e => (Raised e, tr)
        | Fulfilled total =>
            if more_pages page total then
              match steps with
              | O => (Unfinished, tr)
              | S steps' =>
                  match get_page' (page + 1) tr with
                  | (Resolved next, tr') =>
                      thenFn' steps' (page + 1) (allItems ++ items) next tr'
                  | (Raised e, tr') => (Raised e, tr')
                  | (Unfinished, tr') => (Unfinished, tr')
                  end
              end
            else (Resolved (allItems ++ items), tr)
        end
    | Fulfilled _ => (Resolved allItems, tr)
    end.
Proof.
  destruct steps; simpl; unfold bind, of_settled, ret, throw, never;
    destruct (get_prop response "items") as [[]|]; try reflexivity;
    destruct (get_prop response "total") as [total|]; try reflexivity;
    destruct (more_pages page total); reflexivity.
Qed.

(** Whatever the responses, the calls of the aggregator are page requests
    for consecutive pages. *)
Lemma thenFn_trace steps : forall page allItems response tr,
  exists count, 0 <= count <= Z.of_nat steps /\
    (thenFn' steps page allItems response tr).2
    = tr ++ page_requests' (page + 1) count.
Proof.
  induction steps as [|steps IH]; intros page allItems response tr;
    rewrite thenFn_unfold.
  - exists 0. split; [lia|]. unfold page_requests. rewrite seqZ_nil by lia. simpl.
    rewrite app_nil_r.
    destruct (get_prop response "items") as [[]|]; try reflexivity.
    destruct (get_prop response "total"); try reflexivity.
    destruct (more_pages page a); reflexivity.
  - assert (Hstop : forall r : completion (list value),
              exists count, 0 <= count <= Z.of_nat (S steps) /\
                (r, tr).2 = tr ++ page_requests' (page + 1) count).
    { intros r. exists 0. split; [lia|]. unfold page_requests.
      rewrite seqZ_nil by lia. simpl. now rewrite app_nil_r. }
    destruct (get_prop response "items") as [[]|]; try apply Hstop.
    destruct (get_prop response "total"); try apply Hstop.
    destruct (more_pages page a); try apply Hstop.
    destruct (get_page_run (page + 1) tr) as (Htr & _ & _).
    destruct (get_page' (page + 1) tr) as [[next|e|] tr'] eqn:Hpage;
      simpl in Htr; subst tr'.
    + destruct (IH (page + 1) (allItems ++ l) next (tr ++ [page_request' (page + 1)]))
        as (count & Hc & ->).
      exists (count + 1). split; [lia|].
      unfold page_requests. rewrite (seqZ_cons (page + 1) (count + 1)) by lia.
      replace (Z.pred (count + 1)) with count by lia.
      replace (Z.succ (page + 1)) with (page + 1 + 1) by lia.
      simpl. now rewrite <- app_assoc.
    + exists 1. split; [lia|]. reflexivity.
    + exists 1. split; [lia|]. reflexivity.
Qed.

Lemma page_requests_snoc first count :
  0 <= count ->
  page_requests' first (count + 1)
  = page_requests' first count ++ [page_request' (first + count)].
Proof.
  intros Hc. unfold page_requests.
  rewrite seqZ_app by lia. rewrite map_app.
  rewrite (seqZ_cons (first + count) 1) by lia.
  rewrite (seqZ_nil _ (Z.pred 1)) by lia. reflexivity.
Qed.

Lemma more_pages_same_total T n page :
  n = (if Z.abs T <? 10 ^ 21 then Z.max 1 (ceil_div T 500) else 1) ->
  1 <= page <= n ->
  more_pages page (VNum T) = bool_decide (page < n).
Proof.
  intros Hn Hp. unfold more_pages.
  destruct (Z.abs T <? 10 ^ 21) eqn:HT.
  2:{ apply Z.ltb_ge in HT. destruct (parseInt_large T HT) as (d & -> & Hd).
      rewrite bool_decide_eq_false_2 by lia.
      apply andb_false_iff. right. apply Z.ltb_ge. lia. }
  apply Z.ltb_lt in HT. rewrite (parseInt_small T HT).
  unfold ceil_div in *. simpl.
  case_bool_decide as Hlt.
  - apply andb_true_iff. split.
    + apply negb_true_iff, Z.eqb_neq. Z.div_mod_to_equations. lia.
    + apply Z.ltb_lt. Z.div_mod_to_equations. lia.
  - apply andb_false_iff. right. apply Z.ltb_ge. Z.div_mod_to_equations. lia.
Qed.

(** The aggregator from page [page] on, when the remote reports the same
    total on every page. *)
Lemma thenFn_same_total T (items : Z -> list value) tr0 n :
  n = (if Z.abs T <? 10 ^ 21 then Z.max 1 (ceil_div T 500) else 1) ->
  (forall q, 1 < q <= n ->
     exists response,
       (get_page' q (tr0 ++ page_requests' 1 (q - 1))).1 = Resolved response
       /\ get_prop response "items" = Fulfilled (VArr (items q))
       /\ get_prop response "total" = Fulfilled (VNum T)) ->
  forall (k : nat) steps page allItems response,
    1 <= page <= n -> Z.of_nat k = n - page -> (k <= steps)%nat ->
    get_prop response "items" = Fulfilled (VArr (items page)) ->
    get_prop response "total" = Fulfilled (VNum T) ->
    thenFn' steps page allItems response (tr0 ++ page_requests' 1 page)
    = (Resolved (allItems ++ concat (map items (seqZ page (n - page + 1)))),
       tr0 ++ page_requests' 1 n).
Proof.
  intros Hn Hpages k.
  induction k as [|k IH]; intros steps page allItems response Hp Hk Hsteps Hi Ht;
    rewrite thenFn_unfold, Hi, Ht, (more_pages_same_total T n) by assumption.
  - assert (page = n) as -> by lia.
    rewrite bool_decide_eq_false_2 by lia.
    replace (n - n + 1) with 1 by lia.
    rewrite (seqZ_cons n 1), seqZ_nil by lia. simpl. now rewrite app_nil_r.
  - rewrite bool_decide_eq_true_2 by lia.
    destruct steps as [|steps]; [lia|].
    destruct (Hpages (page + 1)) as (next & Hnext & Hni & Hnt); [lia|].
    replace (page + 1 - 1) with page in Hnext by lia.
    destruct (get_page_run (page + 1) (tr0 ++ page_requests' 1 page)) as (Htr & _ & _).
    destruct (get_page' (page + 1) (tr0 ++ page_requests' 1 page)) as [c tr'].
    simpl in Hnext, Htr. subst c tr'.
    pose proof (page_requests_snoc 1 page ltac:(lia)) as Hsnoc.
    replace (1 + page) with (page + 1) in Hsnoc by lia.
    rewrite <- app_assoc, <- Hsnoc.
    rewrite (IH steps (page + 1)); try assumption; try lia.
    f_equal. rewrite <- app_assoc. f_equal.
    rewrite (seqZ_cons page (n - page + 1)) by lia. simpl.
    replace (Z.succ page) with (page + 1) by lia.
    replace (Z.pred (n - page + 1)) with (n - (page + 1) + 1) by lia.
    reflexivity.
Qed.

(** C3 (as amended). When every page response carries an items array and
    the same integer total [T], the aggregator resolves with the
    concatenation of the pages' items in page order, and its calls are
    exactly the requests for pages 1, 2, ..., [n], each with limit 500.
    Below 10^21 the number [n] of requests is [max 1 (ceil (T / 500))]:
    [ceil (T / 500)] when [T] is at least 1, and the single first request
    when [T] is 0 or less.  From 10^21 on, [parseInt] reads the leading
    digit of the exponent notation only, and the single first request is
    made. *)
Theorem pages_concatenated_same_total (T : Z) (items : Z -> list value)
    (steps : nat) (tr : trace) :
  let n := if Z.abs T <? 10 ^ 21 then Z.max 1 (ceil_div T 500) else 1 in
  (Z.to_nat (n - 1) <= steps)%nat ->
  (forall q, 1 <= q <= n ->
     exists response,
       (get_page' q (tr ++ page_requests' 1 (q - 1))).1 = Resolved response
       /\ get_prop response "items" = Fulfilled (VArr (items q))
       /\ get_prop response "total" = Fulfilled (VNum T)) ->
  _getAllNodeItems config helpers world steps node nodeId relationship relatedNode tr
  = (Resolved (concat (map items (seqZ 1 n))), tr ++ page_requests' 1 n)
  /\ length (page_requests' 1 n) = Z.to_nat n
  /\ (forall q,
        page_request' q
        = request_event config helpers "GET" node nodeId relationship relatedNode
            None (page_params q) VUndefined
        /\ get_prop (page_params q) "page" = Fulfilled (VNum q)
        /\ get_prop (page_params q) "limit" = Fulfilled (VNum 500))
  /\ (1 <= T < 10 ^ 21 -> n = ceil_div T 500)
  /\ (T <= 0 \/ 10 ^ 21 <= T -> n = 1).
Proof.
  intros n Hsteps Hpages.
  assert (Hn1 : 1 <= n) by (subst n; destruct (Z.abs T <? 10 ^ 21); lia).
  split; [|split; [|split; [|split]]].
  - unfold _getAllNodeItems, bind.
    destruct (Hpages 1) as (first & Hfirst & Hi & Ht); [lia|].
    replace (1 - 1) with 0 in Hfirst by lia.
    unfold page_requests in Hfirst at 1. rewrite seqZ_nil in Hfirst by lia.
    simpl in Hfirst. rewrite app_nil_r in Hfirst.
    destruct (get_page_run 1 tr) as (Htr & _ & _).
    destruct (get_page' 1 tr) as [c tr']. simpl in Hfirst, Htr. subst c tr'.
    assert (Hone : page_requests' 1 1 = [page_request' 1]) by reflexivity.
    rewrite <- Hone.
    rewrite (thenFn_same_total T items tr n eq_refl) with (k := Z.to_nat (n - 1));
      try assumption; try lia.
    + replace (n - 1 + 1) with n by lia. reflexivity.
    + intros q Hq. apply Hpages. lia.
  - unfold page_requests. rewrite length_map, length_seqZ. reflexivity.
  - intros q. split; [reflexivity|]. unfold page_params, get_prop. split.
    + now rewrite lookup_insert_eq.
    + rewrite lookup_insert_ne by discriminate. now rewrite lookup_insert_eq.
  - intros HT. subst n.
    replace (Z.abs T <? 10 ^ 21) with true by (symmetry; apply Z.ltb_lt; lia).
    unfold ceil_div. apply Z.max_r. Z.div_mod_to_equations. lia.
  - intros HT. subst n. destruct (Z.abs T <? 10 ^ 21) eqn:Hsmall; [|reflexivity].
    apply Z.ltb_lt in Hsmall. unfold ceil_div. apply Z.max_l.
    Z.div_mod_to_equations. lia.
Qed.

(** Against a remote whose every response passes the continuation test,
    the callback is still going after any number of steps. *)
Lemma thenFn_never_ends tr0 :
  (forall page, 1 <= page ->
     exists response,
       (get_page' page (tr0 ++ page_requests' 1 (page - 1))).1 = Resolved response
       /\ wants_next_page page response = true) ->
  forall steps page allItems response,
    1 <= page -> wants_next_page page response = true ->
    (thenFn' steps page allItems response (tr0 ++ page_requests' 1 page)).1
    = Unfinished.
Proof.
  intros Hpass.
  induction steps as [|steps IH]; intros page allItems response Hpage Hgo;
    rewrite thenFn_unfold; unfold wants_next_page in Hgo;
    destruct (get_prop response "items") as [[]|]; try discriminate;
    destruct (get_prop response "total") as [total|]; try discriminate;
    unfold more_pages; rewrite Hgo; [reflexivity|].
  destruct (Hpass (page + 1)) as (next & Hnext & Hnext_go); [lia|].
  replace (page + 1 - 1) with page in Hnext by lia.
  destruct (get_page_run (page + 1) (tr0 ++ page_requests' 1 page)) as (Htr & _ & _).
  destruct (get_page' (page + 1) (tr0 ++ page_requests' 1 page)) as [c tr'].
  simpl in Hnext, Htr. subst c tr'.
  pose proof (page_requests_snoc 1 page ltac:(lia)) as Hsnoc.
  replace (1 + page) with (page + 1) in Hsnoc by lia.
  rewrite <- app_assoc, <- Hsnoc.
  apply IH; [lia | exact Hnext_go].
Qed.

(** C7 (as amended), the local rule and what it gives for termination.
    From any response, with any items accumulated before, the callback
    requests the next page exactly when [wants_next_page] holds of the
    current page number and the current response; otherwise it makes no
    call and returns.  So a run ends at the first response that fails the
    test; if the remote never reports a total above [B], the run ends within
    [B / 500] further pages; and against a remote whose every response
    passes the test the run does not end: it has not finished after any
    number of steps. *)
Theorem next_page_rule_is_local :
  (forall steps page allItems response tr,
     (wants_next_page page response = false ->
        (thenFn' steps page allItems response tr).2 = tr
        /\ (thenFn' steps page allItems response tr).1 <> Unfinished)
     /\ (wants_next_page page response = true ->
          exists count, 0 <= count /\
            (thenFn' (S steps) page allItems response tr).2
            = tr ++ page_request' (page + 1) :: page_requests' (page + 2) count))
  /\ (forall B steps tr,
        (forall h url options r v total,
            fetch world h url options = Fulfilled r ->
            parseJsonRes helpers r None = Fulfilled v ->
            get_prop v "total" = Fulfilled total ->
            lt_num B (parseInt total) = false) ->
        (Z.to_nat (B / 500) <= steps)%nat ->
        (_getAllNodeItems config helpers world steps node nodeId relationship
           relatedNode tr).1 <> Unfinished)
  /\ (forall tr,
        (forall page, 1 <= page ->
           exists response,
             (get_page' page (tr ++ page_requests' 1 (page - 1))).1
             = Resolved response
             /\ wants_next_page page response = true) ->
        forall steps,
          (_getAllNodeItems config helpers world steps node nodeId relationship
             relatedNode tr).1 = Unfinished).
Proof.
  split; [|split].
  3:{ intros tr Hpass steps. unfold _getAllNodeItems, bind.
      destruct (Hpass 1) as (first & Hfirst & Hgo); [lia|].
      replace (1 - 1) with 0 in Hfirst by lia.
      unfold page_requests in Hfirst at 1. rewrite seqZ_nil in Hfirst by lia.
      simpl in Hfirst. rewrite app_nil_r in Hfirst.
      destruct (get_page_run 1 tr) as (Htr & _ & _).
      destruct (get_page' 1 tr) as [c tr']. simpl in Hfirst, Htr. subst c tr'.
      assert (Hone : page_requests' 1 1 = [page_request' 1]) by reflexivity.
      rewrite <- Hone.
      apply (thenFn_never_ends tr Hpass); [lia | exact Hgo]. }
  - intros steps page allItems response tr. unfold wants_next_page. split.
    + intros Hstop. rewrite thenFn_unfold.
      destruct (get_prop response "items") as [[]|];
        try (split; [reflexivity | discriminate]).
      destruct (get_prop response "total") as [total|];
        try (split; [reflexivity | discriminate]).
      unfold more_pages. rewrite Hstop. split; [reflexivity | discriminate].
    + intros Hgo. rewrite thenFn_unfold.
      destruct (get_prop response "items") as [[]|]; try discriminate.
      destruct (get_prop response "total") as [total|]; try discriminate.
      unfold more_pages. rewrite Hgo.
      destruct (get_page_run (page + 1) tr) as (Htr & Hfin & _).
      destruct (get_page' (page + 1) tr) as [[next|e|] tr'] eqn:Hpage;
        simpl in Htr, Hfin; subst tr'.
      * destruct (thenFn_trace steps (page + 1) (allItems ++ l) next
                    (tr ++ [page_request' (page + 1)])) as (count & Hc & ->).
        exists count. split; [lia|].
        replace (page + 1 + 1) with (page + 2) by lia.
        now rewrite <- app_assoc.
      * exists 0. split; [lia|]. reflexivity.
      * congruence.
  - intros B steps tr Hbound Hsteps.
    assert (Hloop : forall steps page allItems response tr,
              (forall total, get_prop response "total" = Fulfilled total ->
                             lt_num B (parseInt total) = false) ->
              B <= (page + Z.of_nat steps) * 500 ->
              (thenFn' steps page allItems response tr).1 <> Unfinished).
    { clear steps tr Hsteps.
      induction steps as [|steps IH]; intros page allItems response tr Hresp Hle;
        rewrite thenFn_unfold;
        destruct (get_prop response "items") as [[]|]; try discriminate;
        destruct (get_prop response "total") as [total|]; try discriminate;
        destruct (more_pages page total) eqn:Hmore; try discriminate;
        unfold more_pages in Hmore; apply andb_true_iff in Hmore as [_ Hlt];
        specialize (Hresp total eq_refl);
        destruct (parseInt total) as [m|]; try discriminate;
        simpl in Hresp, Hlt; apply Z.ltb_lt in Hlt; apply Z.ltb_ge in Hresp.
      - lia.
      - destruct (get_page_run (page + 1) tr) as (_ & Hfin & Hparsed).
        destruct (get_page' (page + 1) tr) as [[next|e|] tr'] eqn:Hpage;
          simpl in Hfin; try discriminate; try congruence.
        apply IH; [|lia].
        destruct (Hparsed next eq_refl) as (r & url & options & Hf & Hp).
        intros total' Htotal'. exact (Hbound _ _ _ _ _ _ Hf Hp Htotal'). }
    unfold _getAllNodeItems, bind.
    destruct (get_page_run 1 tr) as (_ & Hfin & Hparsed).
    destruct (get_page' 1 tr) as [[first|e|] tr'] eqn:Hpage;
      simpl in Hfin; try discriminate; try congruence.
    apply Hloop.
    + destruct (Hparsed first eq_refl) as (r & url & options & Hf & Hp).
      intros total Htotal. exact (Hbound _ _ _ _ _ _ Hf Hp Htotal).
    + assert (B / 500 <= Z.of_nat steps) by lia.
      Z.div_mod_to_equations. lia.
Qed.

End Pagination.

(** *** The scheduler of [Promise.map] *)

Lemma started_app t1 t2 : started (t1 ++ t2) = started t1 ++ started t2.
Proof. apply omap_app. Qed.

Lemma completions_app t1 t2 : completions (t1 ++ t2) = completions t1 ++ completions t2.
Proof. apply omap_app. Qed.

Lemma in_flight_app t1 t2 : in_flight (t1 ++ t2) = in_flight t1 + in_flight t2.
Proof.
  unfold in_flight. rewrite started_app, completions_app, !length_app. lia.
Qed.

Lemma started_starts (l : list nat) : started (Started <$> l) = l.
Proof. induction l as [|i l IH]; [reflexivity|]. simpl. f_equal. exact IH. Qed.

Lemma completions_starts (l : list nat) : completions (Started <$> l) = [].
Proof. induction l as [|i l IH]; [reflexivity|]. exact IH. Qed.

Section Dispatch.

Context (limit : Z) (order : list nat).


(** The first pass over the input: the first elements are started in
    order until the limit is reached, the others wait. *)
Lemma first_pass_state (n : nat) :
  foldl (offer limit) {| queue := []; inFlight := []; timeline := [] |} (seq 0 n)
  = {| queue := rev (seq (first_pass limit n) (n - first_pass limit n));
       inFlight := seq 0 (first_pass limit n);
       timeline := Started <$> seq 0 (first_pass limit n) |}.
Proof.
  induction n as [|n IH].
  { unfold first_pass. destruct (1 <=? limit); [|reflexivity].
    now replace (Z.to_nat limit `min` 0)%nat with 0%nat by lia. }
  rewrite seq_S, foldl_snoc, IH. unfold offer, first_pass.
  cbn [queue inFlight timeline]. rewrite length_seq.
  destruct (1 <=? limit) eqn:Hlimit; cbn [andb].
  - apply Z.leb_le in Hlimit.
    destruct (limit <=? Z.of_nat (Z.to_nat limit `min` n)) eqn:Hfull.
    + apply Z.leb_le in Hfull.
      replace (Z.to_nat limit `min` S n)%nat with (Z.to_nat limit `min` n)%nat by lia.
      f_equal.
      replace (S n - Z.to_nat limit `min` n)%nat
        with (S (n - Z.to_nat limit `min` n))%nat by lia.
      rewrite seq_S, rev_unit. f_equal. lia.
    + apply Z.leb_gt in Hfull.
      replace (Z.to_nat limit `min` n)%nat with n by lia.
      replace (Z.to_nat limit `min` S n)%nat with (S n) by lia.
      replace (n - n)%nat with 0%nat by lia.
      replace (S n - S n)%nat with 0%nat by lia.
      rewrite seq_S, fmap_app. reflexivity.
  - replace (n - n)%nat with 0%nat by lia.
    replace (S n - S n)%nat with 0%nat by lia.
    rewrite seq_S, fmap_app. reflexivity.
Qed.


Lemma first_pass_waiting_ok (n : nat) :
  waiting_ok limit {| queue := rev (seq (first_pass limit n) (n - first_pass limit n));
                inFlight := seq 0 (first_pass limit n);
                timeline := Started <$> seq 0 (first_pass limit n) |}.
Proof.
  unfold waiting_ok, first_pass. simpl. rewrite length_seq. intros Hq.
  destruct (1 <=? limit) eqn:Hlimit.
  - apply Z.leb_le in Hlimit. split; [exact Hlimit|].
    destruct (decide (Z.to_nat limit <= n)%nat); [lia|].
    replace (Z.to_nat limit `min` n)%nat with n in Hq by lia.
    replace (n - n)%nat with 0%nat in Hq by lia. now destruct Hq.
  - replace (n - n)%nat with 0%nat in Hq by lia. now destruct Hq.
Qed.

(** One settlement: the settled element leaves, and the element pushed
    last, if any waits, takes the free slot. *)
Lemma settle_step (d : dispatch) (p i : nat) :
  waiting_ok limit d ->
  inFlight d !! p = Some i ->
  settle limit p d
  = match queue d with
    | j :: rest =>
        {| queue := rest; inFlight := delete p (inFlight d) ++ [j];
           timeline := timeline d ++ [Completed i; Started j] |}
    | [] =>
        {| queue := []; inFlight := delete p (inFlight d);
           timeline := timeline d ++ [Completed i] |}
    end.
Proof.
  intros Hok Hp. unfold settle. rewrite Hp.
  assert (Hlen : length (delete p (inFlight d)) = pred (length (inFlight d))).
  { rewrite length_delete by eauto. lia. }
  pose proof (lookup_lt_Some _ _ _ Hp) as Hlt.
  destruct (queue d) as [|j rest] eqn:Hq.
  - destruct (1 <=? limit); reflexivity.
  - destruct Hok as [Hlimit Hfull]; [now rewrite Hq|].
    replace (1 <=? limit) with true by (symmetry; now apply Z.leb_le).
    simpl. rewrite Hlen.
    replace (Z.of_nat (pred (length (inFlight d))) <? limit) with true
      by (symmetry; apply Z.ltb_lt; lia).
    unfold offer. simpl. rewrite Hlen.
    replace (limit <=? Z.of_nat (pred (length (inFlight d)))) with false
      by (symmetry; apply Z.leb_gt; lia).
    rewrite andb_false_r.
    destruct (length rest) as [|fuel]; simpl.
    + now rewrite <- app_assoc.
    + destruct rest as [|j' rest']; [now rewrite <- app_assoc|].
      rewrite length_app, Hlen. simpl.
      replace (Z.of_nat (pred (length (inFlight d)) + 1) <? limit) with false
        by (symmetry; apply Z.ltb_ge; lia).
      now rewrite <- app_assoc.
Qed.

Lemma next_answered_lt (pending : list nat) :
  pending <> [] -> (next_answered order pending < length pending)%nat.
Proof.
  intros Hne. unfold next_answered.
  destruct (omap _ order) as [|p rest] eqn:Hfound.
  - destruct pending; [congruence | simpl; lia].
  - assert (Hin : p ∈ omap (fun i => fst <$> list_find (fun j => j = i) pending) order)
      by (rewrite Hfound; constructor).
    apply list_elem_of_omap in Hin as (i & _ & Hfind).
    destruct (list_find (fun j => j = i) pending) as [[p' j]|] eqn:Hf; [|discriminate].
    injection Hfind as <-. apply list_find_Some in Hf as (Hl & _).
    now apply lookup_lt_Some in Hl.
Qed.


Lemma timeline_ok_settled first t i :
  timeline_ok limit first t -> 1 <= in_flight t ->
  timeline_ok limit first (t ++ [Completed i]).
Proof.
  intros [Hbound Hwait] Hpos. split.
  - intros Hlimit p. destruct (decide (p <= length t)%nat).
    + rewrite take_app_le by lia. now apply Hbound.
    + rewrite take_ge by (rewrite length_app; simpl; lia).
      rewrite in_flight_app. specialize (Hbound Hlimit (length t)).
      rewrite take_ge in Hbound by lia. unfold in_flight at 2. simpl. lia.
  - intros p j Hp. destruct (decide (p < length t)%nat).
    + rewrite lookup_app_l in Hp by lia.
      destruct (Hwait p j Hp) as [?|(c & ? & Hc)]; [now left|].
      right. exists c. split; [lia|]. rewrite lookup_app_l by lia. exact Hc.
    + rewrite lookup_app_r in Hp by lia.
      destruct (p - length t)%nat as [|[|?]]; discriminate.
Qed.

Lemma timeline_ok_replaced first t i j :
  timeline_ok limit first t -> 1 <= in_flight t -> in_flight t <= limit ->
  timeline_ok limit first (t ++ [Completed i; Started j]).
Proof.
  intros Hok Hpos Hfull.
  destruct (timeline_ok_settled first t i Hok Hpos) as [Hbound Hwait].
  change (t ++ [Completed i; Started j]) with (t ++ [Completed i] ++ [Started j]).
  rewrite app_assoc. split.
  - intros Hlimit p. destruct (decide (p <= length (t ++ [Completed i]))%nat).
    + rewrite take_app_le by lia. now apply Hbound.
    + rewrite take_ge by (rewrite !length_app in *; simpl in *; lia).
      rewrite !in_flight_app. unfold in_flight at 2 3. simpl. lia.
  - intros p j' Hp. destruct (decide (p < length (t ++ [Completed i]))%nat).
    + rewrite lookup_app_l in Hp by lia.
      destruct (Hwait p j' Hp) as [?|(c & ? & Hc)]; [now left|].
      right. exists c. split; [lia|]. rewrite lookup_app_l by lia. exact Hc.
    + right. exists i.
      rewrite length_app in *. simpl in *.
      assert (p = (length t + 1)%nat) as ->.
      { apply lookup_lt_Some in Hp. rewrite !length_app in Hp. simpl in Hp. lia. }
      split; [lia|].
      replace (length t + 1 - 1)%nat with (length t) by lia.
      rewrite lookup_app_l by (rewrite length_app; simpl; lia).
      now rewrite list_lookup_middle.
Qed.

(** The run: every element in flight settles, every waiting element is
    started, newest first. *)
Lemma run_dispatch_spec (first : nat) (fuel : nat) : forall d,
  waiting_ok limit d ->
  (length (inFlight d) + length (queue d) <= fuel)%nat ->
  in_flight (timeline d) = Z.of_nat (length (inFlight d)) ->
  timeline_ok limit first (timeline d) ->
  let d' := run_dispatch fuel limit order d in
  started (timeline d') = started (timeline d) ++ queue d
  /\ completions (timeline d') ≡ₚ completions (timeline d) ++ inFlight d ++ queue d
  /\ timeline_ok limit first (timeline d')
  /\ timeline d `prefix_of` timeline d'.
Proof.
  induction fuel as [|fuel IH]; intros d Hok Hfuel Hcount Htl.
  - destruct d as [q f t]. simpl in *.
    destruct f; [|simpl in Hfuel; lia]. destruct q; [|simpl in Hfuel; lia].
    simpl. rewrite !app_nil_r. repeat split; try reflexivity; apply Htl.
  - destruct d as [q f t]. simpl in Hfuel, Hcount, Htl.
    destruct f as [|i0 f0] eqn:Hf.
    { assert (q = []) as ->.
      { destruct q; [reflexivity|]. destruct Hok as [? Hfull]; [discriminate|].
        simpl in Hfull. lia. }
      simpl. rewrite !app_nil_r. repeat split; try reflexivity; apply Htl. }
    rewrite <- Hf in *.
    assert (Hne : f <> []) by (rewrite Hf; discriminate).
    pose proof (next_answered_lt f Hne) as Hlt.
    destruct (lookup_lt_is_Some_2 f _ Hlt) as [i Hi].
    change (run_dispatch (S fuel) limit order {| queue := q; inFlight := f; timeline := t |})
      with (match f with
            | [] => {| queue := q; inFlight := f; timeline := t |}
            | _ :: _ => run_dispatch fuel limit order
                          (settle limit (next_answered order f)
                             {| queue := q; inFlight := f; timeline := t |})
            end).
    destruct f as [|x f'] eqn:Hf'; [congruence|]. rewrite <- Hf' in *.
    rewrite (settle_step _ _ i Hok Hi). simpl queue. simpl inFlight. simpl timeline.
    assert (Hdel : length (delete (next_answered order f) f) = pred (length f)).
    { rewrite length_delete by eauto. lia. }
    assert (Hperm : f ≡ₚ i :: delete (next_answered order f) f)
      by now apply delete_Permutation.
    assert (Hpos : 1 <= in_flight t).
    { rewrite Hcount. destruct f; [congruence | simpl; lia]. }
    destruct q as [|j rest].
    + destruct (IH {| queue := []; inFlight := delete (next_answered order f) f;
                      timeline := t ++ [Completed i] |}) as (Hs & Hc & Hb & Hpre).
      * intros Hq. now destruct Hq.
      * simpl. lia.
      * simpl. rewrite in_flight_app. unfold in_flight at 2. simpl. lia.
      * now apply timeline_ok_settled.
      * simpl in Hs, Hc, Hpre. split; [|split; [|split; [exact Hb|]]].
        3:{ now apply prefix_app_l in Hpre. }
        -- rewrite Hs, started_app. simpl. now rewrite !app_nil_r.
        -- rewrite Hc, completions_app. simpl. rewrite !app_nil_r, <- app_assoc.
           apply Permutation_app_head. simpl. symmetry. exact Hperm.
    + destruct Hok as [Hlimit Hfull]; [discriminate|]. simpl in Hfull.
      destruct (IH {| queue := rest;
                      inFlight := delete (next_answered order f) f ++ [j];
                      timeline := t ++ [Completed i; Started j] |})
        as (Hs & Hc & Hb & Hpre).
      * intros _. split; [exact Hlimit|]. simpl. rewrite length_app, Hdel. simpl. lia.
      * simpl. rewrite length_app, Hdel. simpl in *. lia.
      * simpl. rewrite in_flight_app, length_app, Hdel.
        unfold in_flight at 2. simpl. lia.
      * apply timeline_ok_replaced; [exact Htl | exact Hpos | lia].
      * simpl in Hs, Hc, Hpre. split; [|split; [|split; [exact Hb|]]].
        3:{ now apply prefix_app_l in Hpre. }
        -- rewrite Hs, started_app. simpl. now rewrite <- app_assoc.
        -- rewrite Hc, completions_app. simpl. rewrite <- !app_assoc.
           apply Permutation_app_head. simpl.
           change ((i :: delete (next_answered order f) f) ++ j :: rest
                   ≡ₚ f ++ j :: rest).
           apply Permutation_app_tail. symmetry. exact Hperm.
Qed.

End Dispatch.

(** The elements are started in this order whatever the order in which
    they settle, none twice and none left out; all settle; the number in
    flight stays within the limit. *)
Lemma first_pass_start_order (concurrency : Z) (n : nat) :
  seq 0 (first_pass (concurrency_limit concurrency) n)
    ++ rev (seq (first_pass (concurrency_limit concurrency) n)
              (n - first_pass (concurrency_limit concurrency) n))
  = start_order concurrency n.
Proof.
  unfold first_pass, concurrency_limit, start_order.
  destruct (1 <=? concurrency) eqn:Hc.
  - now rewrite Hc.
  - simpl. replace (n - n)%nat with 0%nat by lia. apply app_nil_r.
Qed.

Lemma seq_split (k n : nat) : (k <= n)%nat -> seq 0 k ++ seq k (n - k) = seq 0 n.
Proof.
  intros Hk. change (seq k (n - k)) with (seq (0 + k) (n - k)).
  rewrite <- (seq_app k (n - k) 0). f_equal. lia.
Qed.

Lemma start_order_permutation (concurrency : Z) (n : nat) :
  start_order concurrency n ≡ₚ seq 0 n.
Proof.
  unfold start_order. destruct (1 <=? concurrency); [|reflexivity].
  rewrite <- Permutation_rev. rewrite seq_split by lia. reflexivity.
Qed.

Lemma schedule_spec (concurrency : Z) (order : list nat) (n : nat) :
  let t := schedule concurrency order n in
  started t = start_order concurrency n
  /\ completions t ≡ₚ seq 0 n
  /\ timeline_ok (concurrency_limit concurrency)
       (first_pass (concurrency_limit concurrency) n) t
  /\ take (first_pass (concurrency_limit concurrency) n) t
     = Started <$> seq 0 (first_pass (concurrency_limit concurrency) n).
Proof.
  unfold schedule. set (limit := concurrency_limit concurrency).
  rewrite first_pass_state.
  set (k := first_pass limit n).
  destruct (run_dispatch_spec limit order k n
              {| queue := rev (seq k (n - k)); inFlight := seq 0 k;
                 timeline := Started <$> seq 0 k |}) as (Hs & Hc & Hb & Hpre).
  - apply first_pass_waiting_ok.
  - simpl. rewrite length_rev, !length_seq.
    assert (k <= n)%nat by (subst k; unfold first_pass; destruct (1 <=? limit); lia).
    lia.
  - simpl. unfold in_flight. rewrite started_starts, completions_starts, length_seq.
    simpl. lia.
  - split.
    + intros Hlimit p. simpl. unfold in_flight.
      rewrite <- fmap_take, started_starts, completions_starts. simpl.
      rewrite length_take, length_seq.
      subst k. unfold first_pass.
      replace (1 <=? limit) with true by (symmetry; now apply Z.leb_le). lia.
    + intros p j Hp. simpl in Hp. left.
      rewrite list_lookup_fmap in Hp.
      destruct (seq 0 k !! p) as [j'|] eqn:Hj; [|discriminate].
      injection Hp as ->. apply lookup_seq in Hj. lia.
  - simpl in Hs, Hc, Hpre. split; [|split; [|split; [exact Hb|]]].
    3:{ destruct Hpre as [rest ->].
        rewrite take_app_length' by now rewrite length_fmap, length_seq.
        reflexivity. }
    + rewrite Hs, started_starts. apply first_pass_start_order.
    + rewrite Hc, completions_starts. simpl.
      rewrite <- Permutation_rev.
      assert (k <= n)%nat by (subst k; unfold first_pass; destruct (1 <=? limit); lia).
      now rewrite seq_split.
Qed.

(** *** Batch engine: the results array *)

Lemma length_place {B} (n : nat) (completed : list (nat * B)) :
  length (place n completed) = n.
Proof.
  unfold place. induction completed as [|c completed IH] using rev_ind; simpl.
  - apply length_replicate.
  - now rewrite foldl_snoc, length_insert.
Qed.

(** A completion lands in the slot of its chunk, whenever it arrives. *)
Lemma place_lookup {B} (n : nat) (completed : list (nat * B)) (i : nat) (b : B) :
  NoDup completed.*1 -> (i, b) ∈ completed -> (i < n)%nat ->
  place n completed !! i = Some (Some b).
Proof.
  induction completed as [|c completed IH] using rev_ind; intros Hnd Hin Hi.
  - inversion Hin.
  - rewrite fmap_app in Hnd. apply NoDup_app in Hnd as (Hnd & Hfresh & _).
    unfold place. rewrite foldl_snoc. fold (place n completed).
    apply elem_of_app in Hin as [Hin|Hin].
    + rewrite list_lookup_insert_ne; [now apply IH|].
      intros Heq. apply (Hfresh i).
      * apply list_elem_of_fmap. now exists (i, b).
      * rewrite <- Heq. simpl. constructor.
    + apply list_elem_of_singleton in Hin. subst c. simpl.
      apply list_lookup_insert_eq. now rewrite length_place.
Qed.

Lemma all_filled_Some {B} (results : list B) :
  all_filled (Some <$> results) = Some results.
Proof.
  induction results as [|b results IH]; [reflexivity|].
  change (cons b <$> all_filled (Some <$> results) = Some (b :: results)).
  now rewrite IH.
Qed.

Lemma filled_slots {B} (arr : list (option B)) :
  (forall i, (i < length arr)%nat -> exists b, arr !! i = Some (Some b)) ->
  exists results, arr = Some <$> results.
Proof.
  induction arr as [|slot arr IH]; intros Hall.
  - now exists [].
  - destruct (Hall 0%nat) as [b Hb]; [simpl; lia|]. simpl in Hb.
    injection Hb as ->.
    destruct IH as [results ->].
    { intros i Hi. apply (Hall (S i)). simpl. lia. }
    now exists (b :: results).
Qed.

(** Completions that arrive in any order fill the array in chunk order. *)
Lemma place_permutation {B} (results : list B) (completed : list (nat * B)) :
  completed ≡ₚ zip (seq 0 (length results)) results ->
  place (length results) completed = Some <$> results.
Proof.
  intros Hperm. apply list_eq. intros i.
  rewrite list_lookup_fmap.
  destruct (results !! i) as [b|] eqn:Hb; simpl.
  - apply place_lookup.
    + rewrite Hperm, fst_zip by (rewrite length_seq; lia). apply NoDup_seq.
    + rewrite Hperm. apply list_elem_of_lookup. exists i.
      rewrite lookup_zip_with, Hb.
      apply lookup_lt_Some in Hb.
      now rewrite lookup_seq_lt.
    + now apply lookup_lt_Some in Hb.
  - apply lookup_ge_None. rewrite length_place. now apply lookup_ge_None.
Qed.

Lemma aggregate_some_success (results : list outcome) (tr : trace) :
  (exists res, Success res ∈ results) ->
  aggregate results tr = (Resolved results, tr).
Proof.
  intros [res Hin]. unfold aggregate.
  replace (existsb _ results) with true; [reflexivity|].
  symmetry. apply existsb_exists. exists (Success res).
  split; [now apply list_elem_of_In | reflexivity].
Qed.

Lemma aggregate_all_failed (results : list outcome) :
  Forall (fun res => instanceof_Error res = true) results ->
  existsb (fun res => negb (instanceof_Error res)) results = false.
Proof.
  induction 1 as [|res results Hres _ IH]; simpl; [reflexivity|].
  now rewrite Hres, IH.
Qed.

(** *** Batch engine: chunks and requests *)

Section Batch.

Context (method node rel relType : string) (relIds : list value)
        (relProp options : value).

Local Abbreviation mapper' :=
  (chunk_mapper config helpers world method node rel relType relIds relProp
     (request_params config options)).
Local Abbreviation chunk_request' :=
  (chunk_request config helpers method node rel relType relIds relProp options).
Local Abbreviation chunk_outcome' :=
  (chunk_outcome config helpers world method node rel relType relIds relProp options).
Local Abbreviation engine' steps nodeId :=
  (_multiAddRemoveRelationships config helpers world steps method node nodeId rel
     relType relIds relProp options).

(** The mapper makes one request and never rejects. *)
Lemma chunk_mapper_run chunk tr :
  mapper' chunk tr = (Resolved (chunk_outcome' tr chunk), tr ++ [chunk_request' chunk]).
Proof.
  unfold chunk_mapper, catch, bind, chunk_outcome, chunk_request.
  rewrite request_run.
  destruct (fetch world tr _ _) as [r|e]; simpl; [|reflexivity].
  unfold parse, of_settled. destruct (parseJsonRes helpers r None); reflexivity.
Qed.

Lemma serve_run (chunks : list value) (order : list nat) : forall tr,
  exists completed,
    serve order mapper' chunks tr
    = (Resolved completed,
       tr ++ map chunk_request' (omap (fun i => chunks !! i) order))
    /\ (Forall (fun i => (i < length chunks)%nat) order -> completed.*1 = order).
Proof.
  induction order as [|i order IH]; intros tr; simpl.
  - exists []. rewrite app_nil_r. split; reflexivity.
  - destruct (chunks !! i) as [chunk|] eqn:Hi.
    + unfold bind. rewrite chunk_mapper_run.
      destruct (IH (tr ++ [chunk_request' chunk])) as (rest & -> & Hrest).
      eexists. split.
      * simpl. unfold ret. now rewrite <- app_assoc.
      * intros Hall. inversion Hall; subst. simpl. f_equal. now apply Hrest.
    + destruct (IH tr) as (rest & -> & Hrest).
      exists rest. split; [reflexivity|].
      intros Hall. inversion Hall as [|? ? Hlt]; subst.
      apply lookup_ge_None in Hi. lia.
Qed.

Lemma omap_lookup_seq {A} (k l : list A) :
  omap (fun i => (k ++ l) !! i) (seq (length k) (length l)) = l.
Proof.
  revert k. induction l as [|x l IH]; intros k; simpl; [reflexivity|].
  rewrite list_lookup_middle by reflexivity. f_equal.
  specialize (IH (k ++ [x])). rewrite <- app_assoc, length_app in IH. simpl in IH.
  now replace (length k + 1)%nat with (S (length k)) in IH by lia.
Qed.

(** What [serve] collects for the element started [p]-th: the outcome of its
    request, made after the requests of the elements started before it. *)
Lemma serve_answers (chunks : list value) (order : list nat) :
  forall tr completed tr',
    serve order mapper' chunks tr = (Resolved completed, tr') ->
    forall p i chunk,
      order !! p = Some i -> chunks !! i = Some chunk ->
      (i, chunk_outcome'
            (tr ++ map chunk_request' (omap (fun i => chunks !! i) (take p order)))
            chunk) ∈ completed.
Proof.
  induction order as [|i0 order IH]; intros tr completed tr' Hrun p i chunk Hp Hi;
    [inversion Hp|].
  simpl in Hrun. destruct (chunks !! i0) as [chunk0|] eqn:Hi0.
  - unfold bind in Hrun. rewrite chunk_mapper_run in Hrun.
    destruct (serve order mapper' chunks (tr ++ [chunk_request' chunk0]))
      as [[rest|e|] tr''] eqn:Hrest; try discriminate.
    injection Hrun as <- <-.
    destruct p as [|p].
    + injection Hp as <-. rewrite Hi0 in Hi. injection Hi as <-.
      simpl. rewrite app_nil_r. constructor.
    + apply elem_of_cons. right.
      pose proof (IH _ _ _ Hrest p i chunk Hp Hi) as Hin.
      simpl. rewrite Hi0. simpl.
      now rewrite <- app_assoc in Hin.
  - destruct p as [|p].
    + injection Hp as <-. congruence.
    + pose proof (IH _ _ _ Hrun p i chunk Hp Hi) as Hin.
      simpl. now rewrite Hi0.
Qed.

Lemma fst_agree {B} (l : list (nat * B)) (i : nat) (b b' : B) :
  NoDup l.*1 -> (i, b) ∈ l -> (i, b') ∈ l -> b = b'.
Proof.
  induction l as [|[j c] l IH]; intros Hnd Hb Hb'; [inversion Hb|].
  simpl in Hnd. apply NoDup_cons in Hnd as [Hfresh Hnd].
  apply elem_of_cons in Hb as [Hb|Hb]; apply elem_of_cons in Hb' as [Hb'|Hb'].
  - congruence.
  - injection Hb as -> ->. destruct Hfresh.
    apply list_elem_of_fmap. now exists (j, b').
  - injection Hb' as -> ->. destruct Hfresh.
    apply list_elem_of_fmap. now exists (j, b).
  - now apply IH.
Qed.

(** The values arrive in the order of the settlements: each element's
    value once, whatever that order. *)
Lemma arrivals {B} (answered : list (nat * B)) (done : list nat) :
  NoDup answered.*1 -> NoDup done ->
  let arrived :=
    omap (fun i => snd <$> list_find (fun c : nat * B => c.1 = i) answered) done in
  NoDup arrived.*1
  /\ forall i b, i ∈ done -> (i, b) ∈ answered -> (i, b) ∈ arrived.
Proof.
  intros Hnd Hdone arrived. split.
  - subst arrived. induction Hdone as [|i done Hfresh Hdone IH]; [constructor|].
    simpl. destruct (list_find _ answered) as [[p c]|] eqn:Hfind; [|exact IH].
    simpl. apply NoDup_cons. split; [|exact IH].
    apply list_find_Some in Hfind as (_ & Hc & _).
    intros Hin. apply Hfresh.
    apply list_elem_of_fmap in Hin as ([j c'] & Hj & Hin).
    apply list_elem_of_omap in Hin as (i' & Hi' & Hfind').
    destruct (list_find _ answered) as [[p' c'']|] eqn:Hfind''; [|discriminate].
    apply list_find_Some in Hfind'' as (_ & Hc'' & _).
    injection Hfind' as ->. simpl in *. congruence.
  - intros i b Hi Hin. apply list_elem_of_omap. exists i. split; [exact Hi|].
    destruct (list_find (fun c : nat * B => c.1 = i) answered) as [[p c]|] eqn:Hfind.
    + apply list_find_Some in Hfind as (Hp & Hc & _).
      destruct c as [j c]. simpl in Hc. subst j. simpl. f_equal. f_equal.
      apply (fst_agree answered i); [exact Hnd | | exact Hin].
      apply list_elem_of_lookup. now exists p.
    + apply list_find_None in Hfind.
      apply (proj1 (Forall_forall _ _) Hfind) in Hin. now destruct Hin.
Qed.

(** [Promise.map] over the chunks: one request per chunk, in the order the
    chunks are started, and a results array whose entry for a chunk is the
    outcome of that chunk's request, in whatever order the requests are
    answered. *)
Lemma Promise_map_spec (concurrency : Z) (chunks : list value) (tr : trace) :
  exists results,
    length results = length chunks
    /\ Promise_map world concurrency mapper' chunks tr
       = (Resolved results,
          tr ++ map chunk_request'
                  (omap (fun i => chunks !! i)
                     (start_order concurrency (length chunks))))
    /\ forall p i chunk,
         start_order concurrency (length chunks) !! p = Some i ->
         chunks !! i = Some chunk ->
         results !! i
         = Some (chunk_outcome'
                   (tr ++ map chunk_request'
                            (omap (fun i => chunks !! i)
                               (take p (start_order concurrency (length chunks)))))
                   chunk).
Proof.
  unfold Promise_map.
  destruct (schedule_spec concurrency (service_order world (length chunks))
              (length chunks)) as (Hstart & Hdone & _).
  cbv zeta. rewrite Hstart.
  set (order := start_order concurrency (length chunks)).
  set (done := completions _) in *.
  pose proof (start_order_permutation concurrency (length chunks)) as Hperm.
  fold order in Hperm.
  unfold bind.
  destruct (serve_run chunks order tr) as (answered & Hserve & Hfst).
  rewrite Hserve.
  assert (Hall : Forall (fun i => (i < length chunks)%nat) order).
  { rewrite Hperm. apply Forall_seq. intros. lia. }
  specialize (Hfst Hall).
  assert (Hnd : NoDup answered.*1) by (rewrite Hfst, Hperm; apply NoDup_seq).
  assert (Hnd_done : NoDup done) by (rewrite Hdone; apply NoDup_seq).
  destruct (arrivals answered done Hnd Hnd_done) as (Hnd_arr & Harr).
  set (arrived := omap _ done) in *.
  assert (Hslot : forall i b, (i, b) ∈ answered ->
                    place (length chunks) arrived !! i = Some (Some b)).
  { intros i b Hin.
    assert (Hi : (i < length chunks)%nat).
    { assert (Hi : i ∈ answered.*1) by (apply list_elem_of_fmap; now exists (i, b)).
      rewrite Hfst, Hperm in Hi. apply elem_of_seq in Hi. lia. }
    apply place_lookup; [exact Hnd_arr | | exact Hi].
    apply Harr; [|exact Hin]. rewrite Hdone. apply elem_of_seq. lia. }
  destruct (filled_slots (place (length chunks) arrived)) as [results Hres].
  { rewrite length_place. intros i Hi.
    assert (Hin : i ∈ answered.*1)
      by (rewrite Hfst, Hperm; apply elem_of_seq; lia).
    apply list_elem_of_fmap in Hin as [[j b] [-> Hin]].
    exists b. now apply Hslot. }
  rewrite Hres, all_filled_Some.
  exists results. split; [|split; [reflexivity|]].
  - apply (f_equal length) in Hres. rewrite length_place, length_fmap in Hres.
    now symmetry.
  - intros p i chunk Hp Hi.
    pose proof (serve_answers chunks order _ _ _ Hserve p i chunk Hp Hi) as Hin.
    apply Hslot in Hin. rewrite Hres, list_lookup_fmap in Hin.
    destruct (results !! i); simpl in Hin; congruence.
Qed.

Lemma omap_lookup_permutation {A} (l : list A) (order : list nat) :
  order ≡ₚ seq 0 (length l) -> omap (fun i => l !! i) order ≡ₚ l.
Proof.
  intros ->. pose proof (omap_lookup_seq [] l) as Hseq.
  simpl in Hseq. now rewrite Hseq.
Qed.

(** [Promise.map]: one request per chunk; the results array has one entry
    per chunk. *)
Lemma Promise_map_run (chunks : list value) (tr : trace) :
  service_order world (length chunks) ≡ₚ seq 0 (length chunks) ->
  exists results served,
    served ≡ₚ chunks /\ length results = length chunks
    /\ Promise_map world (BATCH_USER_CONCURRENCY config) mapper' chunks tr
       = (Resolved results, tr ++ map chunk_request' served).
Proof.
  intros _.
  destruct (Promise_map_spec (BATCH_USER_CONCURRENCY config) chunks tr)
    as (results & Hlen & Hrun & _).
  exists results,
    (omap (fun i => chunks !! i)
       (start_order (BATCH_USER_CONCURRENCY config) (length chunks))).
  split; [|split; [exact Hlen | exact Hrun]].
  apply omap_lookup_permutation, start_order_permutation.
Qed.

Lemma aggregate_trace (results : list outcome) (tr : trace) :
  (aggregate results tr).2 = tr.
Proof.
  unfold aggregate. destruct (negb _); [|reflexivity].
  destruct results as [|[] [|]]; reflexivity.
Qed.

(** The [while] loop ends when the chunk size is at least 1, and cuts the
    identifiers into consecutive chunks. *)
Lemma chunk_loop_spec (size : Z) :
  1 <= size ->
  forall steps ids, (length ids <= steps)%nat ->
  exists chunks,
    chunk_loop steps size ids = Some chunks
    /\ concat chunks = ids
    /\ Forall (fun c => (1 <= length c)%nat /\ Z.of_nat (length c) <= size) chunks
    /\ Z.of_nat (length chunks) = ceil_div (Z.of_nat (length ids)) size.
Proof.
  intros Hsize. induction steps as [|steps IH]; intros ids Hsteps.
  - destruct ids; [|simpl in Hsteps; lia].
    exists []. repeat split; try constructor.
    unfold ceil_div. simpl. rewrite Z.div_small; lia.
  - destruct ids as [|x ids].
    + exists []. repeat split; try constructor.
      unfold ceil_div. simpl. rewrite Z.div_small; lia.
    + assert (Hloop1 : forall rest,
                chunk_loop steps size (drop (Z.to_nat size) (x :: ids)) = Some rest ->
                chunk_loop (S steps) size (x :: ids)
                = Some (take (Z.to_nat size) (x :: ids) :: rest)).
      { intros rest Hrest. simpl. simpl in Hrest. now rewrite Hrest. }
      remember (x :: ids) as l eqn:El.
      assert (Hl : (1 <= length l)%nat) by (subst l; simpl; lia).
      clear El x ids.
      destruct (IH (drop (Z.to_nat size) l)) as (chunks & Hloop & Hcat & Hall & Hlen).
      { rewrite length_drop. lia. }
      exists (take (Z.to_nat size) l :: chunks).
      split; [|split; [|split]].
      * now apply Hloop1.
      * simpl. rewrite Hcat. apply take_drop.
      * constructor; [|exact Hall]. rewrite length_take. lia.
      * simpl length at 1. rewrite Nat2Z.inj_succ, Hlen, length_drop.
        unfold ceil_div.
        destruct (decide (length l <= Z.to_nat size)%nat) as [Hle|Hgt].
        -- replace (length l - Z.to_nat size)%nat with 0%nat by lia. simpl.
           rewrite (Z.div_small (0 + size - 1)) by lia.
           apply Z.div_unique with (r := Z.of_nat (length l) - 1); lia.
        -- rewrite Nat2Z.inj_sub, Z2Nat.id by lia.
           replace (Z.of_nat (length l) + size - 1)
             with (Z.of_nat (length l) - size + size - 1 + 1 * size) by lia.
           rewrite Z.div_add by lia. lia.
Qed.

(** With a chunk size of 0 or less [splice] removes nothing and the loop
    never ends. *)
Lemma chunk_loop_stuck (size : Z) (steps : nat) (ids : list value) :
  size <= 0 -> ids <> [] -> chunk_loop steps size ids = None.
Proof.
  intros Hsize Hne. induction steps as [|steps IH].
  - destruct ids; [congruence | reflexivity].
  - destruct ids as [|x ids]; [congruence|].
    simpl. replace (Z.to_nat size) with 0%nat by lia. simpl.
    simpl in IH. now rewrite IH.
Qed.

Lemma idChunks_single (steps : nat) (nodeId : value) :
  (forall l, nodeId <> VArr l) -> idChunks config steps nodeId = Some [nodeId].
Proof. intros Hna. destruct nodeId; try reflexivity. now destruct (Hna l). Qed.

Lemma engine_trace (steps : nat) (nodeId : value) (chunks : list value) (tr : trace) :
  idChunks config steps nodeId = Some chunks ->
  service_order world (length chunks) ≡ₚ seq 0 (length chunks) ->
  exists served,
    served ≡ₚ chunks
    /\ (engine' steps nodeId tr).2 = tr ++ map chunk_request' served.
Proof.
  intros Hchunks Hperm. unfold _multiAddRemoveRelationships. rewrite Hchunks.
  destruct (Promise_map_run chunks tr Hperm) as (results & served & Hserved & _ & Hrun).
  exists served. split; [exact Hserved|].
  unfold bind. rewrite Hrun. apply aggregate_trace.
Qed.

(** The engine is [Promise.map] over the chunks followed by the aggregation
    of its results array, which has one entry per chunk. *)
Lemma engine_run (steps : nat) (nodeId : value) (chunks : list value) (tr : trace) :
  idChunks config steps nodeId = Some chunks ->
  service_order world (length chunks) ≡ₚ seq 0 (length chunks) ->
  exists results served,
    served ≡ₚ chunks /\ length results = length chunks
    /\ engine' steps nodeId tr
       = aggregate results (tr ++ map chunk_request' served).
Proof.
  intros Hchunks Hperm. unfold _multiAddRemoveRelationships. rewrite Hchunks.
  destruct (Promise_map_run chunks tr Hperm)
    as (results & served & Hserved & Hlen & Hrun).
  exists results, served. split; [exact Hserved|]. split; [exact Hlen|].
  unfold bind. now rewrite Hrun.
Qed.

(** A single identifier: one chunk, one request, and the engine resolves
    with the one parsed response or raises the one captured error. *)
Lemma single_chunk_run (steps : nat) (nodeId : value) (tr : trace) :
  (forall l, nodeId <> VArr l) ->
  service_order world 1 ≡ₚ seq 0 1 ->
  engine' steps nodeId tr
  = (match chunk_outcome' tr nodeId with
     | Success v => Resolved [Success v]
     | Failure e => Raised e
     end,
     tr ++ [chunk_request' nodeId]).
Proof.
  intros Hna _. unfold _multiAddRemoveRelationships.
  rewrite (idChunks_single steps nodeId Hna).
  destruct (Promise_map_spec (BATCH_USER_CONCURRENCY config) [nodeId] tr)
    as (results & Hlen & Hrun & Hout).
  assert (Horder : start_order (BATCH_USER_CONCURRENCY config) 1 = [0%nat])
    by apply Permutation_singleton_r, start_order_permutation.
  simpl length in *. rewrite Horder in *.
  specialize (Hout 0%nat 0%nat nodeId eq_refl eq_refl).
  simpl in Hout. rewrite app_nil_r in Hout.
  destruct results as [|result [|? ?]]; try discriminate.
  injection Hout as ->.
  unfold bind. rewrite Hrun. simpl.
  destruct (chunk_outcome' tr nodeId); reflexivity.
Qed.

(** The engine: the results array of [Promise.map], then its aggregation. *)
Lemma engine_spec (steps : nat) (nodeId : value) (chunks : list value) (tr : trace) :
  idChunks config steps nodeId = Some chunks ->
  let order := start_order (BATCH_USER_CONCURRENCY config) (length chunks) in
  exists results,
    length results = length chunks
    /\ (forall p i chunk,
          order !! p = Some i -> chunks !! i = Some chunk ->
          results !! i
          = Some (chunk_outcome'
                    (tr ++ map chunk_request'
                             (omap (fun i => chunks !! i) (take p order)))
                    chunk))
    /\ engine' steps nodeId tr
       = aggregate results
           (tr ++ map chunk_request' (omap (fun i => chunks !! i) order)).
Proof.
  intros Hchunks order. unfold _multiAddRemoveRelationships. rewrite Hchunks.
  destruct (Promise_map_spec (BATCH_USER_CONCURRENCY config) chunks tr)
    as (results & Hlen & Hrun & Hout).
  exists results. split; [exact Hlen|]. split; [exact Hout|].
  unfold bind. now rewrite Hrun.
Qed.

Lemma subjects_merged :
  subjects relIds relProp
  = map (fun item =>
           VObj (match relProp with
                 | VUndefined => own_props item
                 | _ => <["_rel" := relProp]> (own_props item)
                 end)) relIds.
Proof.
  unfold subjects, assign, rel_tag. apply map_ext. intros item. f_equal.
  destruct relProp; try (now rewrite insert_union_singleton_l).
  apply (left_id_L ∅ (∪)).
Qed.

Lemma chunk_body (chunk : value) :
  method <> "GET" ->
  request_body config method (chunkData relIds relProp chunk)
  = BodyJSON (chunkData relIds relProp chunk).
Proof.
  intros Hm. unfold request_body.
  apply String.eqb_neq in Hm. rewrite Hm. simpl.
  destruct (production config); reflexivity.
Qed.

(** C4. With a chunk size of at least 1, a list of [N] identifiers is cut
    into [ceil (N / size)] consecutive chunks of at most [size] identifiers
    whose concatenation is the list; the engine makes exactly one request
    per chunk (in the order the chunks are started), and the body of the
    request for a chunk is [{subjects, ids: chunk}], the subjects being the
    payloads each merged with [{_rel: relProp}] when [relProp] is given.  An
    identifier that is not an array is one chunk and gets one request. *)
Theorem batch_chunking (ids : list value) (steps : nat) (tr : trace) :
  1 <= BATCH_USER_COUNT config ->
  (length ids <= steps)%nat ->
  method <> "GET" ->
  (forall n, service_order world n ≡ₚ seq 0 n) ->
  (exists chunks : list (list value),
     idChunks config steps (VArr ids) = Some (map VArr chunks)
     /\ concat chunks = ids
     /\ Forall (fun c => Z.of_nat (length c) <= BATCH_USER_COUNT config) chunks
     /\ Z.of_nat (length chunks)
        = ceil_div (Z.of_nat (length ids)) (BATCH_USER_COUNT config)
     /\ exists served,
          served ≡ₚ map VArr chunks
          /\ Z.of_nat (length served)
             = ceil_div (Z.of_nat (length ids)) (BATCH_USER_COUNT config)
          /\ (engine' steps (VArr ids) tr).2 = tr ++ map chunk_request' served)
  /\ (forall nodeId, (forall l, nodeId <> VArr l) ->
        idChunks config steps nodeId = Some [nodeId]
        /\ (engine' steps nodeId tr).2 = tr ++ [chunk_request' nodeId])
  /\ (forall chunk,
        chunk_request' chunk
        = EvFetch
            (request_url config helpers method node None (Some rel) (Some relType)
               None (chunkData relIds relProp chunk) (request_params config options))
            {| fo_method := method;
               fo_content_length :=
                 request_content_length config method
                   (chunkData relIds relProp chunk);
               fo_body :=
                 BodyJSON
                   (VObj (<["ids" := chunk]>
                            {["subjects" :=
                                VArr (map (fun item =>
                                        VObj (match relProp with
                                              | VUndefined => own_props item
                                              | _ => <["_rel" := relProp]>
                                                       (own_props item)
                                              end)) relIds)]})) |}).
Proof.
  intros Hsize Hsteps Hmethod Hserve. split; [|split].
  - destruct (chunk_loop_spec (BATCH_USER_COUNT config) Hsize steps ids Hsteps)
      as (chunks & Hloop & Hcat & Hall & Hlen).
    exists chunks.
    assert (Hchunks : idChunks config steps (VArr ids) = Some (map VArr chunks)).
    { unfold idChunks. now rewrite Hloop. }
    repeat split; try assumption.
    + eapply Forall_impl; [exact Hall|]. intros c [_ Hc]. exact Hc.
    + destruct (engine_trace steps (VArr ids) (map VArr chunks) tr Hchunks
                  (Hserve _)) as (served & Hserved & Htrace).
      exists served. split; [exact Hserved|]. split; [|exact Htrace].
      now rewrite (Permutation_length Hserved), length_map.
  - intros nodeId Hna. split; [now apply idChunks_single|].
    rewrite single_chunk_run; [reflexivity | exact Hna | apply Hserve].
  - intros chunk. unfold chunk_request, request_event, request_options.
    rewrite chunk_body by exact Hmethod.
    unfold chunkData at 3. now rewrite subjects_merged.
Qed.

End Batch.

(** *** Add and remove operations *)

Lemma addRemoveRelationships_run method node nodeId rel relType relIds relProp
    options tr :
  _addRemoveRelationships config helpers world method node nodeId rel relType
    relIds relProp options tr
  = (match relationships_answer config helpers world method node nodeId rel
             relType relIds relProp options tr with
     | Fulfilled r => Resolved r
     | Rejected e => Raised e
     end,
     tr ++ [relationships_request config helpers method node nodeId rel relType
              relIds relProp options]).
Proof.
  unfold _addRemoveRelationships. rewrite request_run.
  unfold relationships_answer, relationships_request, relationships_data.
  destruct relIds; reflexivity.
Qed.

Lemma addRemoveUsers_run method node nodeId userIds relProp options noResultParse tr :
  (_addRemoveUsers config helpers world method node nodeId userIds relProp options
     noResultParse tr).1
  = let answer :=
      relationships_answer config helpers world method node nodeId
        myftConst.memberRelName myftConst.userNodeName userIds relProp options tr in
    if noResultParse then raw_answer answer
    else parsed_answer helpers
           (Some [Text (("myFTClient.addRemoveUsers - " +:+ method +:+ " " +:+ node)
                        +:+ " - users: "); Json userIds]) answer.
Proof.
  unfold _addRemoveUsers.
  destruct noResultParse; simpl; unfold bind;
    rewrite addRemoveRelationships_run;
    destruct (relationships_answer _ _ _ _ _ _ _ _ _ _ _ _) as [r|e]; simpl;
    try reflexivity.
  unfold parse, of_settled, bind, ret. destruct (parseJsonRes helpers r _); reflexivity.
Qed.

Lemma addRemoveGroups_run method licenseId groupIds relProp options noResultParse tr :
  (_addRemoveGroups config helpers world method licenseId groupIds relProp options
     noResultParse tr).1
  = let answer :=
      relationships_answer config helpers world method myftConst.licenceNodeName
        licenseId myftConst.memberRelName myftConst.groupNodeName groupIds relProp
        options tr in
    if noResultParse then raw_answer answer
    else parsed_answer helpers
           (Some [Text (("myFTClient.addRemoveGroups - " +:+ method) +:+ " - groups: ");
                  Json groupIds]) answer.
Proof.
  unfold _addRemoveGroups.
  destruct noResultParse; simpl; unfold bind;
    rewrite addRemoveRelationships_run;
    destruct (relationships_answer _ _ _ _ _ _ _ _ _ _ _ _) as [r|e]; simpl;
    try reflexivity.
  unfold parse, of_settled, bind, ret. destruct (parseJsonRes helpers r _); reflexivity.
Qed.

Lemma addConcepts_resolution steps node nodeId concepts props tr x :
  (do results <- _addRemoveConceptsFollowed config helpers world steps "POST" node
                   nodeId concepts props;
   ret (@Outcomes Response results)) tr = x ->
  forall res, x.1 = Resolved res -> exists results, res = Outcomes results.
Proof.
  intros <- res. unfold bind.
  destruct (_addRemoveConceptsFollowed _ _ _ _ _ _ _ _ _ _) as [[results|e|] tr'];
    simpl; try discriminate.
  intros [= <-]. now exists results.
Qed.

(** C10 (as amended). The five remove operations resolve with the
    transport's response as it came: the parse step, and with it the
    classification of the response by status, is not applied.
    [addUsersToLicence], [addUsersToGroup] and [addGroupsToLicence] resolve
    with what the parse step makes of the response.  [addConceptsFollowedByUser]
    and [addConceptsFollowedByGroup] go through the batch engine: they
    resolve with the results array of the chunks, whose entries went through
    the parse step, never with a single parsed body; for a single identifier
    that array has the one parsed body, and a failure of the one request or
    of its parse step is raised. *)
Theorem remove_raw_add_parsed :
  (forall licenceUUID userUUIDs options tr,
      (removeUsersFromLicence config helpers world licenceUUID userUUIDs options tr).1
      = raw_answer
          (relationships_answer config helpers world "DELETE" "license"
             (Some licenceUUID) "member" "user" userUUIDs VUndefined options tr))
  /\ (forall groupUUID userUUIDs options tr,
      (removeUsersFromGroup config helpers world groupUUID userUUIDs options tr).1
      = raw_answer
          (relationships_answer config helpers world "DELETE" "group"
             (Some groupUUID) "member" "user" userUUIDs VUndefined options tr))
  /\ (forall licenceUUID groupUUIDs options tr,
      (removeGroupsFromLicence config helpers world licenceUUID groupUUIDs options tr).1
      = raw_answer
          (relationships_answer config helpers world "DELETE" "license"
             (Some licenceUUID) "member" "group" groupUUIDs VUndefined options tr))
  /\ (forall userUUID conceptUUIDs tr,
      (removeConceptsFollowedByUser config helpers world userUUID conceptUUIDs tr).1
      = raw_answer
          (relationships_answer config helpers world "DELETE" "user"
             (Some userUUID) "followed" "concept" conceptUUIDs VUndefined
             VUndefined tr))
  /\ (forall groupUUID conceptUUIDs tr,
      (removeConceptsFollowedByGroup config helpers world groupUUID conceptUUIDs tr).1
      = raw_answer
          (relationships_answer config helpers world "DELETE" "group"
             (Some groupUUID) "followed" "concept" conceptUUIDs VUndefined
             VUndefined tr))
  /\ (forall licenceUUID userUUIDs props options tr,
      (addUsersToLicence config helpers world licenceUUID userUUIDs props options tr).1
      = parsed_answer helpers
          (Some [Text "myFTClient.addRemoveUsers - POST license - users: ";
                 Json userUUIDs])
          (relationships_answer config helpers world "POST" "license"
             (Some licenceUUID) "member" "user" userUUIDs props options tr))
  /\ (forall groupUUID userUUIDs props options tr,
      (addUsersToGroup config helpers world groupUUID userUUIDs props options tr).1
      = parsed_answer helpers
          (Some [Text "myFTClient.addRemoveUsers - POST group - users: ";
                 Json userUUIDs])
          (relationships_answer config helpers world "POST" "group"
             (Some groupUUID) "member" "user" userUUIDs props options tr))
  /\ (forall licenceUUID groupUUIDs props options tr,
      (addGroupsToLicence config helpers world licenceUUID groupUUIDs props options tr).1
      = parsed_answer helpers
          (Some [Text "myFTClient.addRemoveGroups - POST - groups: ";
                 Json groupUUIDs])
          (relationships_answer config helpers world "POST" "license"
             (Some licenceUUID) "member" "group" groupUUIDs props options tr))
  /\ (forall steps userUUID conceptUUIDs props tr,
      (forall res,
          (addConceptsFollowedByUser config helpers world steps userUUID
             conceptUUIDs props tr).1 = Resolved res ->
          exists results, res = Outcomes results)
      /\ ((forall l, userUUID <> VArr l) ->
          service_order world 1 ≡ₚ seq 0 1 ->
          (addConceptsFollowedByUser config helpers world steps userUUID
             conceptUUIDs props tr).1
          = match chunk_outcome config helpers world "POST" "user" "followed"
                    "concept" conceptUUIDs props VUndefined tr userUUID with
            | Success v => Resolved (Outcomes [Success v])
            | Failure e => Raised e
            end))
  /\ (forall steps groupUUID conceptUUIDs props tr,
      (forall res,
          (addConceptsFollowedByGroup config helpers world steps groupUUID
             conceptUUIDs props tr).1 = Resolved res ->
          exists results, res = Outcomes results)
      /\ ((forall l, groupUUID <> VArr l) ->
          service_order world 1 ≡ₚ seq 0 1 ->
          (addConceptsFollowedByGroup config helpers world steps groupUUID
             conceptUUIDs props tr).1
          = match chunk_outcome config helpers world "POST" "group" "followed"
                    "concept" conceptUUIDs props VUndefined tr groupUUID with
            | Success v => Resolved (Outcomes [Success v])
            | Failure e => Raised e
            end)).
Proof.
  repeat split.
  - intros. apply (addRemoveUsers_run "DELETE" "license" _ _ VUndefined _ true).
  - intros. apply (addRemoveUsers_run "DELETE" "group" _ _ VUndefined _ true).
  - intros. apply (addRemoveGroups_run "DELETE" _ _ VUndefined _ true).
  - intros. unfold removeConceptsFollowedByUser, _removeConceptsFollowedByNode, bind.
    simpl. rewrite addRemoveRelationships_run.
    destruct (relationships_answer _ _ _ _ _ _ _ _ _ _ _ _); reflexivity.
  - intros. unfold removeConceptsFollowedByGroup, _removeConceptsFollowedByNode, bind.
    simpl. rewrite addRemoveRelationships_run.
    destruct (relationships_answer _ _ _ _ _ _ _ _ _ _ _ _); reflexivity.
  - intros. apply (addRemoveUsers_run "POST" "license" _ _ _ _ false).
  - intros. apply (addRemoveUsers_run "POST" "group" _ _ _ _ false).
  - intros. apply (addRemoveGroups_run "POST" _ _ _ _ false).
  - intros res. now apply (addConcepts_resolution steps "user" userUUID conceptUUIDs
                               props tr _ eq_refl).
  - intros Hna Hperm. unfold addConceptsFollowedByUser, _addRemoveConceptsFollowed, bind.
    rewrite single_chunk_run by assumption.
    destruct (chunk_outcome _ _ _ _ _ _ _ _ _ _ _ _); reflexivity.
  - intros res. now apply (addConcepts_resolution steps "group" groupUUID conceptUUIDs
                               props tr _ eq_refl).
  - intros Hna Hperm. unfold addConceptsFollowedByGroup, _addRemoveConceptsFollowed, bind.
    rewrite single_chunk_run by assumption.
    destruct (chunk_outcome _ _ _ _ _ _ _ _ _ _ _ _); reflexivity.
Qed.

(** *** Synchronisation workflow *)

Section Sync.

Context (steps : nat) (groupId userId : string).

Local Abbreviation sync' :=
  (syncUserFollowers config helpers world steps groupId userId).
Local Abbreviation group_fetch :=
  (getConceptsFollowedByGroup config helpers world steps groupId).
Local Abbreviation user_fetch :=
  (getConceptsFollowedByUser config helpers world steps userId).
Local Abbreviation onGroup' :=
  (onGroupConcepts config helpers world steps groupId userId).
Local Abbreviation onUser' :=
  (onUserConcepts config helpers world steps groupId userId).
Local Abbreviation followNew' :=
  (followNewConcepts config helpers world steps groupId userId).
Local Abbreviation ensure' :=
  (ensureDigestPreference config helpers world steps userId).
Local Abbreviation get_preference' :=
  (getEmailDigestPreference config helpers world userId).
Local Abbreviation add_request' :=
  (add_follow_request config helpers groupId userId).
Local Abbreviation add_outcome' :=
  (add_follow_outcome config helpers world groupId userId).
Local Abbreviation get_preference_request' :=
  (get_preference_request config helpers userId).
Local Abbreviation set_preference_request' :=
  (set_preference_request config helpers userId).
Local Abbreviation set_preference_outcome' :=
  (set_preference_outcome config helpers world userId).

(** The aggregator only reads. *)
Lemma aggregator_reads n node nodeId relationship relatedNode tr :
  exists added,
    (_getAllNodeItems config helpers world n node nodeId relationship relatedNode
       tr).2 = tr ++ added
    /\ Forall (fun e => is_read e = true) added.
Proof.
  unfold _getAllNodeItems, bind.
  destruct (get_page_run node nodeId relationship relatedNode 1 tr) as (Htr & _ & _).
  destruct (get_page _ _ _ _ _ _ _ 1 tr) as [[first|e|] tr'];
    simpl in Htr; subst tr'.
  - destruct (thenFn_trace node nodeId relationship relatedNode n 1 [] first
                (tr ++ [page_request config helpers node nodeId relationship
                          relatedNode 1])) as (count & _ & ->).
    eexists. split; [now rewrite <- app_assoc|].
    constructor; [reflexivity|].
    unfold page_requests. apply Forall_fmap, Forall_true. reflexivity.
  - eexists. split; [reflexivity|]. repeat constructor.
  - eexists. split; [reflexivity|]. repeat constructor.
Qed.

Lemma uuids_of_objects (Us : list (gmap string value)) :
  uuids_of (VObj <$> Us) = Fulfilled (uuid_of <$> Us).
Proof.
  induction Us as [|u Us IH]; [reflexivity|].
  change (uuids_of (VObj u :: (VObj <$> Us))
          = Fulfilled (uuid_of u :: (uuid_of <$> Us))).
  simpl. now rewrite IH.
Qed.

Lemma not_in_ids_objects (Us : list (gmap string value)) (g : gmap string value) :
  not_in_ids (uuid_of <$> Us) (uuid_of g) = negb (follows Us g).
Proof.
  unfold not_in_ids, follows. f_equal.
  induction Us as [|u Us IH]; [reflexivity|].
  change (strict_eq (uuid_of u) (uuid_of g)
            || existsb (fun id => strict_eq id (uuid_of g)) (uuid_of <$> Us)
          = strict_eq (uuid_of u) (uuid_of g)
              || existsb (fun u => strict_eq (uuid_of u) (uuid_of g)) Us).
  now rewrite IH.
Qed.

Lemma filter_new_objects (Us Gs : list (gmap string value)) :
  filter_new (uuid_of <$> Us) (VObj <$> Gs) = Fulfilled (VObj <$> absent_from Us Gs).
Proof.
  induction Gs as [|g Gs IH]; [reflexivity|].
  change (filter_new (uuid_of <$> Us) (VObj g :: (VObj <$> Gs))
          = Fulfilled (VObj <$> absent_from Us (g :: Gs))).
  simpl. rewrite IH. fold (uuid_of g). rewrite not_in_ids_objects.
  destruct (negb (follows Us g)); reflexivity.
Qed.

Lemma clean_objects (Gs : list (gmap string value)) :
  clean_concept <$> (VObj <$> Gs) = (fun g => VObj (delete "_rel" g)) <$> Gs.
Proof.
  rewrite <- list_fmap_compose. apply list_fmap_ext. intros _ g _. simpl.
  unfold clean_concept, assign. simpl. now rewrite (right_id_L ∅ (∪)).
Qed.

(** The workflow, one callback at a time. *)
Lemma sync_from_group tr :
  sync' tr
  = match group_fetch tr with
    | (Resolved groupConcepts, tr1) => onGroup' groupConcepts tr1
    | (Raised e, tr1) =>
        if isNotFoundError e then onGroup' [] tr1 else (Raised e, tr1)
    | (Unfinished, tr1) => (Unfinished, tr1)
    end.
Proof.
  unfold syncUserFollowers, bind, not_found_as_empty, catch.
  destruct (group_fetch tr) as [[G|e|] tr1]; try reflexivity.
  destruct (isNotFoundError e); reflexivity.
Qed.

Lemma onGroup_empty tr :
  onGroup' [] tr
  = (Resolved (SynchronisationIgnored userId groupId "noGroupConceptsToFollow"), tr).
Proof. reflexivity. Qed.

Lemma onGroup_nonempty groupConcepts tr1 :
  groupConcepts <> [] ->
  onGroup' groupConcepts tr1
  = match user_fetch tr1 with
    | (Resolved conceptsResp, tr2) => onUser' groupConcepts conceptsResp tr2
    | (Raised e, tr2) =>
        if isNotFoundError e then onUser' groupConcepts [] tr2 else (Raised e, tr2)
    | (Unfinished, tr2) => (Unfinished, tr2)
    end.
Proof.
  intros Hne. unfold onGroupConcepts.
  replace (Z.of_nat (length groupConcepts) >? 0) with true
    by (destruct groupConcepts; [congruence | reflexivity]).
  unfold bind, not_found_as_empty, catch.
  destruct (user_fetch tr1) as [[U|e|] tr2]; try reflexivity.
  destruct (isNotFoundError e); reflexivity.
Qed.

Lemma onUser_objects (Gs Us : list (gmap string value)) tr2 :
  onUser' (VObj <$> Gs) (VObj <$> Us) tr2
  = match absent_from Us Gs with
    | [] => (Resolved (SynchronisationIgnored userId groupId "noNewConceptsToFollow"),
             tr2)
    | _ => followNew' (VObj <$> absent_from Us Gs) tr2
    end.
Proof.
  unfold onUserConcepts, bind.
  rewrite uuids_of_objects. simpl. rewrite filter_new_objects. simpl.
  destruct (absent_from Us Gs); reflexivity.
Qed.

Lemma get_preference_run tr :
  (get_preference' tr).2 = tr ++ [get_preference_request']
  /\ (get_preference' tr).1 <> Unfinished.
Proof.
  unfold getEmailDigestPreference, bind. rewrite request_run.
  destruct (fetch world tr _ _) as [r|e]; simpl; [|split; [reflexivity|discriminate]].
  unfold parse, of_settled. destruct (parseJsonRes helpers r _);
    split; try reflexivity; discriminate.
Qed.

Lemma set_preference_run tr :
  service_order world 1 ≡ₚ seq 0 1 ->
  setEmailDigestPreference config helpers world steps (VStr userId)
    (VObj (digestProperties config)) VUndefined tr
  = (match set_preference_outcome' tr with
     | Success v => Resolved (Outcomes [Success v])
     | Failure e => Raised e
     end,
     tr ++ [set_preference_request']).
Proof.
  intros Hperm. unfold setEmailDigestPreference, bind.
  rewrite single_chunk_run by (assumption || discriminate).
  unfold set_preference_outcome.
  destruct (chunk_outcome _ _ _ _ _ _ _ _ _ _ _ _); reflexivity.
Qed.

(** Looking for the digest preference, and creating it when not found. *)
Lemma ensure_run tr :
  service_order world 1 ≡ₚ seq 0 1 ->
  ensure' tr
  = match (get_preference' tr).1 with
    | Resolved _ => (Resolved tt, tr ++ [get_preference_request'])
    | Raised e =>
        if isNotFoundError e
        then (match set_preference_outcome' (tr ++ [get_preference_request']) with
              | Success _ => Resolved tt
              | Failure e' => Raised e'
              end,
              tr ++ [get_preference_request'; set_preference_request'])
        else (Raised e, tr ++ [get_preference_request'])
    | Unfinished => (Unfinished, tr ++ [get_preference_request'])
    end.
Proof.
  intros Hperm. unfold ensureDigestPreference, catch, bind.
  destruct (get_preference_run tr) as [Htr _].
  destruct (get_preference' tr) as [[v|e|] tr'] eqn:Hget; simpl in Htr; subst tr';
    simpl; try reflexivity.
  destruct (isNotFoundError e); [|reflexivity].
  rewrite set_preference_run by assumption. rewrite <- app_assoc. simpl.
  destruct (set_preference_outcome' _); reflexivity.
Qed.

Lemma add_follow_run (newConcepts : list value) tr :
  service_order world 1 ≡ₚ seq 0 1 ->
  addConceptsFollowedByUser config helpers world steps (VStr userId) newConcepts
    (followProps config groupId) tr
  = (match add_outcome' newConcepts tr with
     | Success v => Resolved (Outcomes [Success v])
     | Failure e => Raised e
     end,
     tr ++ [add_request' newConcepts]).
Proof.
  intros Hperm. unfold addConceptsFollowedByUser, _addRemoveConceptsFollowed, bind.
  rewrite single_chunk_run by (assumption || discriminate).
  unfold add_follow_outcome.
  destruct (chunk_outcome _ _ _ _ _ _ _ _ _ _ _ _); reflexivity.
Qed.

Lemma emit_run (newConcepts : list value) tr :
  emitSubscribe world groupId userId newConcepts tr
  = (match kinesis_write world tr userId "subscribe"
             (clean_concept <$> newConcepts) with
     | Fulfilled _ =>
         Resolved (SynchronisationCompleted userId groupId newConcepts)
     | Rejected e => Raised e
     end,
     tr ++ [EvKinesis userId "subscribe" (clean_concept <$> newConcepts)]).
Proof.
  unfold emitSubscribe, bind, do_kinesis_write.
  destruct (kinesis_write world tr _ _ _); reflexivity.
Qed.

Lemma absent_from_nil (Gs : list (gmap string value)) : absent_from [] Gs = Gs.
Proof.
  unfold absent_from. induction Gs as [|g Gs IH]; [reflexivity|].
  simpl. f_equal. exact IH.
Qed.

Lemma absent_from_all (Us Gs : list (gmap string value)) :
  (forall g, g ∈ Gs -> follows Us g = true) -> absent_from Us Gs = [].
Proof.
  unfold absent_from. induction Gs as [|g Gs IH]; intros Hall; [reflexivity|].
  simpl. rewrite (Hall g) by constructor. simpl.
  apply IH. intros g' Hg'. apply Hall. now constructor.
Qed.

Lemma fetch_reads (fetched : M (list value)) n node nodeId tr result tr' :
  fetched = _getAllNodeItems config helpers world n node (Some nodeId)
              (Some "followed") (Some "concept") ->
  fetched tr = (result, tr') ->
  exists reads, tr' = tr ++ reads /\ Forall (fun e => is_read e = true) reads.
Proof.
  intros -> Hrun.
  destruct (aggregator_reads n node (Some nodeId) (Some "followed")
              (Some "concept") tr) as (reads & Htr & Hreads).
  exists reads. split; [|exact Hreads]. now rewrite Hrun in Htr.
Qed.


Lemma preference_body :
  event_body set_preference_request'
  = Some (BodyJSON
            (VObj (<["ids" := VStr userId]>
                     {["subjects" :=
                         VArr [VObj (<["_rel" := VObj (digestProperties config)]>
                                       {["uuid" := VStr "email-digest"]})]]}))).
Proof.
  unfold set_preference_request, chunk_request, request_event, request_options.
  simpl. rewrite chunk_body by discriminate.
  unfold chunkData. now rewrite subjects_merged.
Qed.


(** C5. When the fetch of the group's concepts resolves with no concept,
    the workflow resolves with [synchronisationIgnored] and reason
    [noGroupConceptsToFollow], and the only calls made are the reads of
    that fetch.  When every concept of the group has a uuid found among the
    user's concepts, it resolves with [synchronisationIgnored] and reason
    [noNewConceptsToFollow], and the only calls made are the reads of the
    two fetches: no add-follow request, no preference request, no event. *)
Theorem sync_ignored (tr tr1 : trace) :
  (group_fetch tr = (Resolved [], tr1) ->
     sync' tr
     = (Resolved (SynchronisationIgnored userId groupId "noGroupConceptsToFollow"),
        tr1)
     /\ status (SynchronisationIgnored userId groupId "noGroupConceptsToFollow")
        = "synchronisationIgnored"
     /\ exists reads, tr1 = tr ++ reads /\ Forall (fun e => is_read e = true) reads)
  /\ (forall (Gs Us : list (gmap string value)) (tr2 : trace),
        Gs <> [] ->
        group_fetch tr = (Resolved (VObj <$> Gs), tr1) ->
        user_fetch tr1 = (Resolved (VObj <$> Us), tr2) ->
        (forall g, g ∈ Gs -> follows Us g = true) ->
        sync' tr
        = (Resolved (SynchronisationIgnored userId groupId "noNewConceptsToFollow"),
           tr2)
        /\ exists reads, tr2 = tr ++ reads /\ Forall (fun e => is_read e = true) reads).
Proof.
  split.
  - intros Hg. split; [|split; [reflexivity|]].
    + now rewrite sync_from_group, Hg.
    + exact (fetch_reads _ steps "group" groupId tr _ tr1 eq_refl Hg).
  - intros Gs Us tr2 Hne Hg Hu Hall. split.
    + rewrite sync_from_group, Hg.
      rewrite onGroup_nonempty by (destruct Gs; [congruence | discriminate]).
      rewrite Hu, onUser_objects. now rewrite absent_from_all.
    + destruct (fetch_reads _ steps "group" groupId tr _ tr1 eq_refl Hg)
        as (reads1 & -> & Hreads1).
      destruct (fetch_reads _ steps "user" userId _ _ tr2 eq_refl Hu)
        as (reads2 & -> & Hreads2).
      exists (reads1 ++ reads2). split; [now rewrite app_assoc|].
      now apply Forall_app.
Qed.

(** C6. A [NotFoundError] from the fetch of the group's concepts, or from
    the fetch of the user's concepts, is taken as an empty list: the
    workflow goes on as the callback does from [[]].  A [NotFoundError]
    from the fetch of the digest preference makes the workflow post the
    default preference next.  Any other error at these three points is
    raised to the caller; in the preference case the fetch of the
    preference is then the last call made, so no preference is created. *)
Theorem not_found_absorbed :
  (forall tr tr1 e,
      group_fetch tr = (Raised e, tr1) ->
      (isNotFoundError e = true ->
         sync' tr = onGroup' [] tr1
         /\ sync' tr
            = (Resolved
                 (SynchronisationIgnored userId groupId "noGroupConceptsToFollow"),
               tr1))
      /\ (isNotFoundError e = false -> sync' tr = (Raised e, tr1)))
  /\ (forall tr tr1 tr2 (Gs : list (gmap string value)) e,
        Gs <> [] ->
        group_fetch tr = (Resolved (VObj <$> Gs), tr1) ->
        user_fetch tr1 = (Raised e, tr2) ->
        (isNotFoundError e = true ->
           sync' tr = onUser' (VObj <$> Gs) [] tr2
           /\ sync' tr = followNew' (VObj <$> Gs) tr2)
        /\ (isNotFoundError e = false -> sync' tr = (Raised e, tr2)))
  /\ (forall tr newConcepts e,
        service_order world 1 ≡ₚ seq 0 1 ->
        (exists v, add_outcome' newConcepts tr = Success v) ->
        let tr3 := tr ++ [add_request' newConcepts] in
        (get_preference' tr3).1 = Raised e ->
        (isNotFoundError e = true ->
           (exists rest,
               (followNew' newConcepts tr).2
               = tr3 ++ [get_preference_request'; set_preference_request'] ++ rest)
           /\ event_body set_preference_request'
              = Some (BodyJSON
                        (VObj (<["ids" := VStr userId]>
                                 {["subjects" :=
                                     VArr [VObj (<["_rel" :=
                                                     VObj (digestProperties config)]>
                                                   {["uuid" := VStr "email-digest"]})]]}))))
        /\ (isNotFoundError e = false ->
            followNew' newConcepts tr = (Raised e, tr3 ++ [get_preference_request']))).
Proof.
  split; [|split].
  - intros tr tr1 e Hg. split; intros Hnf; rewrite sync_from_group, Hg, Hnf;
      [split|]; reflexivity.
  - intros tr tr1 tr2 Gs e Hne Hg Hu.
    assert (Hne' : VObj <$> Gs <> []) by (destruct Gs; [congruence | discriminate]).
    split; intros Hnf; rewrite sync_from_group, Hg, onGroup_nonempty, Hu, Hnf
      by exact Hne'; [|reflexivity].
    split; [reflexivity|].
    change (@nil value) with (VObj <$> (@nil (gmap string value))).
    rewrite onUser_objects, absent_from_nil.
    destruct Gs; [congruence | reflexivity].
  - intros tr newConcepts e Hperm (v & Hadd) tr3 Hpref.
    unfold followNewConcepts, bind.
    rewrite add_follow_run, Hadd, ensure_run by assumption.
    fold tr3. rewrite Hpref.
    split; intros Hnf; rewrite Hnf; [|reflexivity].
    split; [|apply preference_body].
    destruct (set_preference_outcome' _).
    + rewrite emit_run. simpl. eexists.
      rewrite <- !app_assoc. simpl. reflexivity.
    + exists []. simpl. reflexivity.
Qed.

End Sync.

End Facts.

(** ** Worked instances *)

Section Instances.

Import Examples.

Local Abbreviation followed_by_user steps world :=
  (getConceptsFollowedByUser example_config example_helpers world steps "u1").

Lemma get_prop_page_body items total :
  get_prop (page_body items total) "items" = Fulfilled (VArr items)
  /\ get_prop (page_body items total) "total" = Fulfilled total.
Proof.
  unfold page_body, get_prop. split.
  - now rewrite lookup_insert_eq.
  - rewrite lookup_insert_ne by discriminate. now rewrite lookup_insert_eq.
Qed.

(** Three pages of a collection of 1200: three requests, items in order.
    A reported total of 10^21: one request. *)
Lemma pages_concatenated_three_pages :
  followed_by_user 2%nat world_three_pages []
  = (Resolved [concept "a"; concept "b"; concept "c"],
     page_requests example_config example_helpers "user" (Some "u1")
       (Some "followed") (Some "concept") 1 3)
  /\ followed_by_user 0%nat world_huge_total []
     = (Resolved [concept "a"],
        page_requests example_config example_helpers "user" (Some "u1")
          (Some "followed") (Some "concept") 1 1).
Proof.
  split.
  - pose proof (pages_concatenated_same_total example_config example_helpers
                  world_three_pages "user" (Some "u1") (Some "followed")
                  (Some "concept") 1200 three_pages 2 []) as H.
    simpl in H. destruct H as (H & _ & _ & _).
    + vm_compute. lia.
    + intros q Hq. change (1 `max` ceil_div 1200 500) with 3 in Hq.
      exists (page_body (three_pages q) (VNum 1200)).
      split; [|apply get_prop_page_body].
      assert (q = 1 \/ q = 2 \/ q = 3) as [->|[->| ->]] by lia;
        vm_compute; reflexivity.
    + exact H.
  - pose proof (pages_concatenated_same_total example_config example_helpers
                  world_huge_total "user" (Some "u1") (Some "followed")
                  (Some "concept") (10 ^ 21) (fun _ => [concept "a"]) 0 []) as H.
    cbv zeta in H.
    change (if Z.abs (10 ^ 21) <? 10 ^ 21
            then 1 `max` ceil_div (10 ^ 21) 500 else 1) with 1 in H.
    destruct H as (H & _).
    + simpl. lia.
    + intros q Hq. assert (q = 1) as -> by lia.
      exists (page_body [concept "a"] (VNum (10 ^ 21))).
      split; [reflexivity | apply get_prop_page_body].
    + exact H.
Defined.

(** The claim of [ceil (T / 500)] requests fails for an empty collection:
    every response reports the total 0, one request is made, and
    [ceil (0 / 500)] is 0. *)
Lemma same_total_zero_takes_one_request :
  get_prop (page_body [] (VNum 0)) "total" = Fulfilled (VNum 0)
  /\ followed_by_user 0%nat world_empty []
     = (Resolved [],
        page_requests example_config example_helpers "user" (Some "u1")
          (Some "followed") (Some "concept") 1 1)
  /\ Z.of_nat (length (followed_by_user 0%nat world_empty []).2) <> ceil_div 0 500.
Proof.
  split; [apply get_prop_page_body|]. split.
  - vm_compute. reflexivity.
  - vm_compute. discriminate.
Qed.

Lemma read_zeros (k : nat) : forall a,
  read_digits (Some a) (zeros k) = Some (a * 10 ^ Z.of_nat k).
Proof.
  induction k as [|k IH]; intros a.
  - simpl. f_equal. lia.
  - change (zeros (S k)) with (String "0" (zeros k)).
    change (read_digits (Some a) (String "0" (zeros k)))
      with (read_digits (Some (10 * a + 0)) (zeros k)).
    rewrite IH. f_equal.
    replace (Z.of_nat (S k)) with (Z.of_nat k + 1) by lia.
    rewrite Z.pow_add_r by lia. lia.
Qed.

Lemma parseInt_growing_total (calls : nat) :
  parseInt (growing_total calls) = Some (10 ^ Z.of_nat (calls + 3)).
Proof.
  change (read_digits (Some (10 * 0 + 1)) (zeros (calls + 3))
          = Some (10 ^ Z.of_nat (calls + 3))).
  rewrite read_zeros. f_equal. lia.
Qed.

Lemma growing_total_ahead (calls : nat) :
  Z.of_nat (S calls) * 500 < 10 ^ Z.of_nat (calls + 3).
Proof.
  induction calls as [|calls IH]; [simpl; lia|].
  replace (Z.of_nat (S calls + 3)) with (Z.of_nat (calls + 3) + 1) by lia.
  rewrite Z.pow_add_r by lia. lia.
Qed.

Lemma growing_page page tr :
  get_page example_config example_helpers world_growing "user" (Some "u1")
    (Some "followed") (Some "concept") page tr
  = (Resolved (page_body [] (growing_total (length tr))),
     tr ++ [page_request example_config example_helpers "user" (Some "u1")
              (Some "followed") (Some "concept") page]).
Proof. unfold get_page, bind. rewrite request_run. reflexivity. Qed.

Lemma growing_loop steps : forall (calls : nat) allItems tr,
  length tr = S calls ->
  (thenFn example_config example_helpers world_growing steps "user" (Some "u1")
     (Some "followed") (Some "concept") (Z.of_nat (S calls)) allItems
     (page_body [] (growing_total calls)) tr).1 = Unfinished.
Proof.
  induction steps as [|steps IH]; intros calls allItems tr Hlen;
    rewrite thenFn_unfold;
    destruct (get_prop_page_body [] (growing_total calls)) as [-> ->];
    assert (Hmore : more_pages (Z.of_nat (S calls)) (growing_total calls) = true)
      by (unfold more_pages; rewrite parseInt_growing_total;
          apply andb_true_iff; split;
          [reflexivity | apply Z.ltb_lt, growing_total_ahead]);
    rewrite Hmore.
  - reflexivity.
  - rewrite growing_page, Hlen.
    replace (Z.of_nat (S calls) + 1) with (Z.of_nat (S (S calls))) by lia.
    apply IH. rewrite length_app, Hlen. simpl. lia.
Qed.

(** The claim that the aggregator terminates on every sequence of responses
    fails: against [world_growing] no number of steps is enough. *)
Lemma growing_total_never_ends :
  ~ exists steps,
      (followed_by_user steps world_growing []).1 <> Unfinished.
Proof.
  intros [steps Hends]. apply Hends.
  unfold getConceptsFollowedByUser, _getAllNodeItems, bind.
  rewrite growing_page.
  apply (growing_loop steps 0 []). reflexivity.
Qed.

(** The rule at the third page of [world_three_pages], and the bound 1200 on
    its totals. *)
Lemma next_page_rule_three_pages :
  (thenFn example_config example_helpers world_three_pages 0 "user" (Some "u1")
     (Some "followed") (Some "concept") 3 [concept "a"; concept "b"]
     (page_body (three_pages 3) (VNum 1200)) []).2 = []
  /\ (exists count,
        0 <= count
        /\ (thenFn example_config example_helpers world_three_pages 1 "user"
              (Some "u1") (Some "followed") (Some "concept") 2 [concept "a"]
              (page_body (three_pages 2) (VNum 1200)) []).2
           = [] ++ page_request example_config example_helpers "user" (Some "u1")
                     (Some "followed") (Some "concept") (2 + 1)
                :: page_requests example_config example_helpers "user" (Some "u1")
                     (Some "followed") (Some "concept") (2 + 2) count)
  /\ (followed_by_user 2%nat world_three_pages []).1 <> Unfinished
  /\ (followed_by_user 7%nat world_growing []).1 = Unfinished.
Proof.
  destruct (next_page_rule_is_local example_config example_helpers
              world_three_pages "user" (Some "u1") (Some "followed")
              (Some "concept")) as (Hlocal & Hbound & _).
  destruct (next_page_rule_is_local example_config example_helpers
              world_growing "user" (Some "u1") (Some "followed")
              (Some "concept")) as (_ & _ & Hnever).
  split; [|split; [|split]].
  4:{ apply (Hnever [] ). intros page Hpage.
      rewrite growing_page. eexists. split; [reflexivity|].
      unfold wants_next_page.
      destruct (get_prop_page_body []
                  (growing_total
                     (length ([] ++ page_requests example_config example_helpers
                                      "user" (Some "u1") (Some "followed")
                                      (Some "concept") 1 (page - 1)))))
        as [-> ->].
      rewrite parseInt_growing_total.
      apply andb_true_iff. split; [reflexivity|]. apply Z.ltb_lt.
      unfold page_requests. simpl length. rewrite length_map, length_seqZ.
      pose proof (growing_total_ahead (Z.to_nat (page - 1))) as Hahead.
      replace (Z.of_nat (S (Z.to_nat (page - 1)))) with page in Hahead by lia.
      exact Hahead. }
  - destruct (Hlocal 0%nat 3 [concept "a"; concept "b"]
                (page_body (three_pages 3) (VNum 1200)) []) as [Hstop _].
    apply Hstop. vm_compute. reflexivity.
  - destruct (Hlocal 0%nat 2 [concept "a"]
                (page_body (three_pages 2) (VNum 1200)) []) as [_ Hgo].
    apply Hgo. vm_compute. reflexivity.
  - apply (Hbound 1200 2%nat []); [|vm_compute; lia].
    intros h url options r v total Hfetch Hparse Htotal.
    simpl in Hfetch.
    destruct (length h) as [|[|[|k]]]; simpl in Hfetch;
      try discriminate; injection Hfetch as <-;
      vm_compute in Hparse; injection Hparse as <-;
      vm_compute in Htotal; injection Htotal as <-; reflexivity.
Defined.

(** Five identifiers in chunks of two: three chunks, three requests. *)
Lemma batch_chunking_five_ids :
  exists chunks : list (list value),
    idChunks example_config 5 (VArr five_ids) = Some (map VArr chunks)
    /\ concat chunks = five_ids
    /\ Z.of_nat (length chunks) = 3.
Proof.
  destruct (batch_chunking example_config example_helpers world_batch "POST" "user"
              "followed" "concept" [concept "A"] VUndefined VUndefined five_ids
              5%nat []) as [(chunks & Hchunks & Hcat & _ & Hlen & _) _].
  - simpl. lia.
  - simpl. lia.
  - discriminate.
  - intros n. simpl. unfold last_first. symmetry. apply Permutation_rev.
  - exists chunks. split; [exact Hchunks|]. split; [exact Hcat|].
    rewrite Hlen. reflexivity.
Defined.


(** The group follows nothing; the user follows all the group follows. *)
Lemma sync_ignored_examples :
  (syncUserFollowers example_config example_helpers world_group_empty 1 "g1" "u1"
     []).1
  = Resolved (SynchronisationIgnored "u1" "g1" "noGroupConceptsToFollow")
  /\ (syncUserFollowers example_config example_helpers world_all_followed 1 "g1"
        "u1" []).1
     = Resolved (SynchronisationIgnored "u1" "g1" "noNewConceptsToFollow").
Proof.
  split.
  - destruct (sync_ignored example_config example_helpers world_group_empty 1%nat
                "g1" "u1" []
                (getConceptsFollowedByGroup example_config example_helpers
                   world_group_empty 1 "g1" []).2) as [Hnone _].
    destruct Hnone as (H & _); [vm_compute; reflexivity|].
    now rewrite H.
  - destruct (sync_ignored example_config example_helpers world_all_followed 1%nat
                "g1" "u1" []
                (getConceptsFollowedByGroup example_config example_helpers
                   world_all_followed 1 "g1" []).2) as [_ Hall].
    destruct (Hall [concept_fields "A"; concept_fields "B"]
                [concept_fields "B"; concept_fields "A"]
                (getConceptsFollowedByUser example_config example_helpers
                   world_all_followed 1 "u1"
                   (getConceptsFollowedByGroup example_config example_helpers
                      world_all_followed 1 "g1" []).2).2) as (H & _).
    + discriminate.
    + vm_compute. reflexivity.
    + vm_compute. reflexivity.
    + intros g Hg. apply list_elem_of_In in Hg.
      destruct Hg as [<-|[<-|[]]]; vm_compute; reflexivity.
    + now rewrite H.
Defined.

(** An unknown group, an unknown user, a failing service. *)
Lemma not_found_absorbed_examples :
  (syncUserFollowers example_config example_helpers world_group_missing 1 "g1" "u1"
     []).1
  = Resolved (SynchronisationIgnored "u1" "g1" "noGroupConceptsToFollow")
  /\ (syncUserFollowers example_config example_helpers world_down 1 "g1" "u1" []).1
     = Raised (StatusError "StatusError" "503")
  /\ (syncUserFollowers example_config example_helpers world_user_missing 1 "g1"
        "u1" []).1
     = Resolved (SynchronisationCompleted "u1" "g1" [concept "A"; concept "B"])
  /\ (syncUserFollowers example_config example_helpers world_user_down 1 "g1" "u1"
        []).1
     = Raised (StatusError "StatusError" "503")
  /\ (followNewConcepts example_config example_helpers world_preference_down 1
        "g1" "u1" [concept "B"]
        (getConceptsFollowedByUser example_config example_helpers
           world_preference_down 1 "u1"
           (getConceptsFollowedByGroup example_config example_helpers
              world_preference_down 1 "g1" []).2).2).1
     = Raised (StatusError "StatusError" "503")
  /\ (exists rest,
        (followNewConcepts example_config example_helpers world_sync 1 "g1" "u1"
           [concept "B"]
           (getConceptsFollowedByUser example_config example_helpers world_sync 1
              "u1"
              (getConceptsFollowedByGroup example_config example_helpers
                 world_sync 1 "g1" []).2).2).2
        = ((getConceptsFollowedByUser example_config example_helpers world_sync 1
              "u1"
              (getConceptsFollowedByGroup example_config example_helpers
                 world_sync 1 "g1" []).2).2
           ++ [add_follow_request example_config example_helpers "g1" "u1"
                 [concept "B"]])
          ++ [get_preference_request example_config example_helpers "u1";
              set_preference_request example_config example_helpers "u1"]
          ++ rest).
Proof.
  split; [|split; [|split; [|split; [|split]]]].
  - destruct (not_found_absorbed example_config example_helpers world_group_missing
                1%nat "g1" "u1") as (Hgroup & _ & _).
    destruct (Hgroup [] (getConceptsFollowedByGroup example_config example_helpers
                           world_group_missing 1 "g1" []).2
                (NotFoundError "Not Found")) as [Hnf _];
      [vm_compute; reflexivity|].
    destruct Hnf as [_ ->]; reflexivity.
  - destruct (not_found_absorbed example_config example_helpers world_down
                1%nat "g1" "u1") as (Hgroup & _ & _).
    destruct (Hgroup [] (getConceptsFollowedByGroup example_config example_helpers
                           world_down 1 "g1" []).2
                (StatusError "StatusError" "503")) as [_ Hother];
      [vm_compute; reflexivity|].
    rewrite Hother; reflexivity.
  - destruct (not_found_absorbed example_config example_helpers world_user_missing
                1%nat "g1" "u1") as (_ & Huser & _).
    destruct (Huser [] (getConceptsFollowedByGroup example_config example_helpers
                          world_user_missing 1 "g1" []).2
                (getConceptsFollowedByUser example_config example_helpers
                   world_user_missing 1 "u1"
                   (getConceptsFollowedByGroup example_config example_helpers
                      world_user_missing 1 "g1" []).2).2
                [concept_fields "A"; concept_fields "B"]
                (NotFoundError "Not Found")) as [Hnf _];
      [discriminate | vm_compute; reflexivity | vm_compute; reflexivity |].
    destruct Hnf as [_ ->]; [reflexivity|]. vm_compute. reflexivity.
  - destruct (not_found_absorbed example_config example_helpers world_user_down
                1%nat "g1" "u1") as (_ & Huser & _).
    destruct (Huser [] (getConceptsFollowedByGroup example_config example_helpers
                          world_user_down 1 "g1" []).2
                (getConceptsFollowedByUser example_config example_helpers
                   world_user_down 1 "u1"
                   (getConceptsFollowedByGroup example_config example_helpers
                      world_user_down 1 "g1" []).2).2
                [concept_fields "A"; concept_fields "B"]
                (StatusError "StatusError" "503")) as [_ Hother];
      [discriminate | vm_compute; reflexivity | vm_compute; reflexivity |].
    rewrite Hother; reflexivity.
  - destruct (not_found_absorbed example_config example_helpers
                world_preference_down 1%nat "g1" "u1") as (_ & _ & Hpref).
    pose proof (Hpref (getConceptsFollowedByUser example_config example_helpers
                         world_preference_down 1 "u1"
                         (getConceptsFollowedByGroup example_config example_helpers
                            world_preference_down 1 "g1" []).2).2
                  [concept "B"] (StatusError "StatusError" "503")) as H.
    cbv zeta in H. destruct H as [_ Hother].
    + reflexivity.
    + exists (VObj ∅). vm_compute. reflexivity.
    + vm_compute. reflexivity.
    + rewrite Hother; reflexivity.
  - destruct (not_found_absorbed example_config example_helpers world_sync 1%nat
                "g1" "u1") as (_ & _ & Hpref).
    pose proof (Hpref (getConceptsFollowedByUser example_config example_helpers
                         world_sync 1 "u1"
                         (getConceptsFollowedByGroup example_config example_helpers
                            world_sync 1 "g1" []).2).2
                  [concept "B"] (NotFoundError "Not Found")) as H.
    cbv zeta in H. destruct H as [Hnf _].
    + reflexivity.
    + exists (VObj ∅). vm_compute. reflexivity.
    + vm_compute. reflexivity.
    + destruct Hnf as [Hcreated _]; [reflexivity | exact Hcreated].
Defined.

(** A failing service: the remove resolves with the response as it came,
    the add raises what the parse step makes of it; a single identifier
    gives the follow operation a results array of one. *)
Lemma remove_raw_add_parsed_examples :
  (removeUsersFromLicence example_config example_helpers world_down "l1"
     (VStr "u1") VUndefined []).1
  = Resolved (Raw (503, VStr "unavailable"))
  /\ (addUsersToLicence example_config example_helpers world_down "l1" (VStr "u1")
        VUndefined VUndefined []).1
     = Raised (StatusError "StatusError" "503")
  /\ (addConceptsFollowedByUser example_config example_helpers world_one_answer 0
        (VStr "u1") [concept "A"] VUndefined []).1
     = Resolved (Outcomes [Success (VObj {["ok" := VBool true]})]).
Proof.
  destruct (remove_raw_add_parsed example_config example_helpers world_down)
    as (Hremove & _ & _ & _ & _ & Hadd & _).
  destruct (remove_raw_add_parsed example_config example_helpers world_one_answer)
    as (_ & _ & _ & _ & _ & _ & _ & _ & Hfollow & _).
  split; [|split].
  - rewrite Hremove. vm_compute. reflexivity.
  - rewrite Hadd. vm_compute. reflexivity.
  - destruct (Hfollow 0%nat (VStr "u1") [concept "A"] VUndefined []) as [_ Hone].
    rewrite Hone; [vm_compute; reflexivity | discriminate | reflexivity].
Defined.

(** The claim that the follow operations resolve with the parsed body
    fails: the transport answers with a body, the parse step yields that
    body, and [addConceptsFollowedByUser] resolves with an array holding
    it. *)
Lemma add_concepts_resolve_with_results_array :
  example_parseJsonRes (200, VObj {["ok" := VBool true]}) None
  = Fulfilled (VObj {["ok" := VBool true]})
  /\ (addConceptsFollowedByUser example_config example_helpers world_one_answer 0
        (VStr "u1") [concept "A"] VUndefined []).1
     = Resolved (Outcomes [Success (VObj {["ok" := VBool true]})])
  /\ (addConceptsFollowedByUser example_config example_helpers world_one_answer 0
        (VStr "u1") [concept "A"] VUndefined []).1
     <> Resolved (Parsed (VObj {["ok" := VBool true]})).
Proof.
  split; [reflexivity|]. split.
  - vm_compute. reflexivity.
  - vm_compute. discriminate.
Qed.

(** [parseInt] on the values a total may be. *)
Example parseInt_examples :
  parseInt (VStr "  600 items") = Some 600 /\
  parseInt (VStr "-12") = Some (-12) /\
  parseInt (VStr "many") = None /\
  parseInt (VBool true) = None /\
  parseInt (VArr [VNum 600; VNum 3]) = Some 600 /\
  parseInt (VObj ∅) = None /\
  parseInt (VStr (String (ascii_of_nat 160) "600")) = Some 600 /\
  parseInt (VFrac "600.5") = Some 600 /\
  parseInt (VFrac "5e-7") = Some 5 /\
  parseInt (VNum (10 ^ 21 - 2 ^ 17)) = Some (10 ^ 21 - 2 ^ 17) /\
  parseInt (VNum (10 ^ 21)) = Some 1 /\
  parseInt (VNum (- 2 ^ 70)) = Some (-1) /\
  parseInt (VArr [VNum (5 * 10 ^ 22)]) = Some 5.
Proof. repeat split; vm_compute; reflexivity. Qed.

(** Numbers as JavaScript prints them. *)
Example number_text_examples :
  toString (VNum 1200) = "1200"
  /\ toString (VNum (-12)) = "-12"
  /\ toString (VNum (2 ^ 53)) = "9007199254740992"
  /\ toString (VNum (2 ^ 69)) = "590295810358705700000"
  /\ toString (VNum (10 ^ 21)) = "1e+21"
  /\ toString (VNum (2 ^ 70)) = "1.1805916207174113e+21"
  /\ toString (VNum 99999999999999991611392) = "1e+23"
  /\ toString (VNum (- 2 ^ 100)) = "-1.2676506002282294e+30".
Proof. repeat split; vm_compute; reflexivity. Qed.

(** The paths of the operations used by the workflow. *)
Example relationship_url_examples :
  relationship_url example_config "user" (Some "u1") (Some "followed")
    (Some "concept") None
  = "https://myft.example/v3/user/u1/followed/concept"
  /\ relationship_url example_config "user" None (Some "followed") (Some "concept")
       None
     = "https://myft.example/v3/user/followed/concept"
  /\ relationship_url example_config "license" None None None None
     = "https://myft.example/v3/license".
Proof. repeat split; vm_compute; reflexivity. Qed.

End Instances.

(** ** Further facts *)

Section Further.

Context {Response : Type}.
Context (config : Config) (helpers : @Helpers Response) (world : @World Response).

(** *** The aggregator on arbitrary responses *)

Section Aggregator.

Context (node : string) (nodeId relationship relatedNode : option string).

Local Abbreviation get_page' :=
  (get_page config helpers world node nodeId relationship relatedNode).
Local Abbreviation thenFn' steps :=
  (thenFn config helpers world steps node nodeId relationship relatedNode).
Local Abbreviation page_request' :=
  (page_request config helpers node nodeId relationship relatedNode).
Local Abbreviation page_requests' :=
  (page_requests config helpers node nodeId relationship relatedNode).
Local Abbreviation getAll' steps :=
  (_getAllNodeItems config helpers world steps node nodeId relationship relatedNode).

Lemma page_requests_none first : page_requests' first 0 = [].
Proof. reflexivity. Qed.

Lemma page_requests_cons first (count : nat) :
  page_requests' first (Z.of_nat (S count))
  = page_request' first :: page_requests' (first + 1) (Z.of_nat count).
Proof.
  unfold page_requests. rewrite (seqZ_cons first) by lia.
  replace (Z.pred (Z.of_nat (S count))) with (Z.of_nat count) by lia.
  replace (Z.succ first) with (first + 1) by lia. reflexivity.
Qed.

Lemma wants_next_page_array page response items total :
  get_prop response "items" = Fulfilled (VArr items) ->
  get_prop response "total" = Fulfilled total ->
  wants_next_page page response = more_pages page total.
Proof. intros Hi Ht. unfold wants_next_page. now rewrite Hi, Ht. Qed.

Lemma items_of_array response items :
  get_prop response "items" = Fulfilled (VArr items) -> items_of response = items.
Proof. intros Hi. unfold items_of. now rewrite Hi. Qed.

(** Reading a property fails for [null] and [undefined] only, whatever the
    property. *)
Lemma get_prop_total v k x :
  get_prop v k = Fulfilled x -> exists y, get_prop v "total" = Fulfilled y.
Proof. destruct v; simpl; try discriminate; eauto. Qed.

(** The callback when the test fails, and when it passes. *)
Lemma thenFn_stops steps page allItems response tr1 :
  wants_next_page page response = false ->
  thenFn' steps page allItems response tr1
  = (match get_prop response "items" with
     | Rejected e => Raised e
     | Fulfilled _ => Resolved (allItems ++ items_of response)
     end, tr1).
Proof.
  intros Hw. rewrite thenFn_unfold. unfold wants_next_page, items_of in *.
  destruct (get_prop response "items") as [items|] eqn:Hi; [|reflexivity].
  destruct (get_prop_total _ _ _ Hi) as [total Ht]. rewrite Ht in *.
  destruct items; rewrite ?app_nil_r; try reflexivity.
  unfold more_pages. now rewrite Hw.
Qed.

Lemma thenFn_goes steps page allItems response tr1 :
  wants_next_page page response = true ->
  thenFn' steps page allItems response tr1
  = match steps with
    | O => (Unfinished, tr1)
    | S steps' =>
        match get_page' (page + 1) tr1 with
        | (Resolved next, tr2) =>
            thenFn' steps' (page + 1) (allItems ++ items_of response) next tr2
        | (Raised e, tr2) => (Raised e, tr2)
        | (Unfinished, tr2) => (Unfinished, tr2)
        end
    end.
Proof.
  intros Hw. rewrite thenFn_unfold. unfold wants_next_page, items_of in *.
  destruct (get_prop response "items") as [[]|]; try discriminate.
  destruct (get_prop response "total") as [total|]; [|discriminate].
  unfold more_pages. now rewrite Hw.
Qed.

Lemma thenFn_resolved steps : forall page allItems response tr1 all tr',
  thenFn' steps page allItems response tr1 = (Resolved all, tr') ->
  exists later : list value,
    tr' = tr1 ++ page_requests' (page + 1) (Z.of_nat (length later))
    /\ all = allItems ++ items_of response ++ concat (items_of <$> later)
    /\ wants_next_page page response = bool_decide (0 < length later)%nat
    /\ forall (i : nat) r,
         later !! i = Some r ->
         (get_page' (page + 1 + Z.of_nat i)
            (tr1 ++ page_requests' (page + 1) (Z.of_nat i))).1 = Resolved r
         /\ wants_next_page (page + 1 + Z.of_nat i) r
            = bool_decide (S i < length later)%nat.
Proof.
  induction steps as [|steps IH]; intros page allItems response tr1 all tr' Hrun;
    destruct (wants_next_page page response) eqn:Hw.
  - rewrite thenFn_goes in Hrun by exact Hw. discriminate.
  - rewrite thenFn_stops in Hrun by exact Hw.
    destruct (get_prop response "items"); [|discriminate].
    injection Hrun as <- <-. exists []. simpl.
    rewrite page_requests_none, !app_nil_r.
    split; [reflexivity|]. split; [reflexivity|]. split; [reflexivity|].
    intros i r Hi. inversion Hi.
  - rewrite thenFn_goes in Hrun by exact Hw.
    destruct (get_page_run config helpers world node nodeId relationship relatedNode
                (page + 1) tr1) as (Htr & _ & _).
    destruct (get_page' (page + 1) tr1) as [[next|e|] tr2] eqn:Hpage;
      try discriminate. simpl in Htr. subst tr2.
    destruct (IH _ _ _ _ _ _ Hrun) as (later & -> & -> & Hnext & Hlater).
    exists (next :: later). split; [|split; [|split]].
    + simpl length. rewrite page_requests_cons, <- app_assoc. reflexivity.
    + simpl. now rewrite <- !app_assoc.
    + reflexivity.
    + intros [|i] r Hi.
      * injection Hi as <-. change (Z.of_nat 0) with 0.
        rewrite page_requests_none, app_nil_r.
        replace (page + 1 + 0) with (page + 1) by lia. rewrite Hpage. split.
        -- reflexivity.
        -- rewrite Hnext. simpl length. apply bool_decide_ext. lia.
      * simpl in Hi. destruct (Hlater i r Hi) as [Hget Hwant].
        rewrite page_requests_cons, cons_middle, app_assoc.
        replace (page + 1 + Z.of_nat (S i)) with (page + 1 + 1 + Z.of_nat i) by lia.
        split; [exact Hget|]. rewrite Hwant. simpl length.
        apply bool_decide_ext. lia.
  - rewrite thenFn_stops in Hrun by exact Hw.
    destruct (get_prop response "items"); [|discriminate].
    injection Hrun as <- <-. exists []. simpl.
    rewrite page_requests_none, !app_nil_r.
    split; [reflexivity|]. split; [reflexivity|]. split; [reflexivity|].
    intros i r Hi. inversion Hi.
Qed.

(** X1. Whatever the pages report, when the aggregator resolves, its result
    is the concatenation, in page order, of the items arrays of the
    responses it received (a response without an items array contributing
    nothing); its calls are the requests for pages 1 to the number of
    responses; every response but the last passed the continuation test and
    the last one failed it. *)
Theorem aggregate_is_concatenation (steps : nat) (tr tr' : trace) (all : list value) :
  getAll' steps tr = (Resolved all, tr') ->
  exists responses : list value,
    (1 <= length responses)%nat
    /\ tr' = tr ++ page_requests' 1 (Z.of_nat (length responses))
    /\ all = concat (items_of <$> responses)
    /\ forall (i : nat) response,
         responses !! i = Some response ->
         (get_page' (Z.of_nat i + 1) (tr ++ page_requests' 1 (Z.of_nat i))).1
         = Resolved response
         /\ wants_next_page (Z.of_nat i + 1) response
            = bool_decide (S i < length responses)%nat.
Proof.
  intros Hrun. unfold _getAllNodeItems, bind in Hrun.
  destruct (get_page_run config helpers world node nodeId relationship relatedNode
              1 tr) as (Htr & _ & _).
  destruct (get_page' 1 tr) as [[first|e|] tr1] eqn:Hpage; try discriminate.
  simpl in Htr. subst tr1.
  destruct (thenFn_resolved _ _ _ _ _ _ _ Hrun) as (later & -> & -> & Hfirst & Hlater).
  exists (first :: later). split; [simpl; lia|]. split; [|split].
  - simpl length. rewrite page_requests_cons, <- app_assoc. reflexivity.
  - reflexivity.
  - intros [|i] r Hi.
    + injection Hi as <-. change (Z.of_nat 0) with 0.
      rewrite page_requests_none, app_nil_r. change (0 + 1) with 1. rewrite Hpage.
      split; [reflexivity|]. rewrite Hfirst. simpl length.
      apply bool_decide_ext. lia.
    + simpl in Hi. destruct (Hlater i r Hi) as [Hget Hwant].
      rewrite page_requests_cons, cons_middle, app_assoc.
      replace (Z.of_nat (S i) + 1) with (1 + 1 + Z.of_nat i) by lia.
      split; [exact Hget|]. rewrite Hwant. simpl length.
      apply bool_decide_ext. lia.
Qed.

Lemma failing_page (c : completion (list value) * trace) page tr1 e steps allItems :
  page_fails (get_page' page tr1).1 e ->
  c = match get_page' page tr1 with
      | (Resolved next, tr2) => thenFn' steps page allItems next tr2
      | (Raised e', tr2) => (Raised e', tr2)
      | (Unfinished, tr2) => (Unfinished, tr2)
      end ->
  c = (Raised e, tr1 ++ [page_request' page]).
Proof.
  intros Hfail ->.
  destruct (get_page_run config helpers world node nodeId relationship relatedNode
              page tr1) as (Htr & _ & _).
  destruct (get_page' page tr1) as [[next|e'|] tr2]; simpl in *; subst tr2.
  - destruct Hfail as [Hfail|(v & [= <-] & Hv)]; [discriminate|].
    rewrite thenFn_stops by (unfold wants_next_page; now rewrite Hv).
    now rewrite Hv.
  - destruct Hfail as [[= <-]|(v & Hv & _)]; [reflexivity | discriminate].
  - destruct Hfail as [Hfail|(v & Hv & _)]; discriminate.
Qed.

Lemma thenFn_failure e (rest : list value) :
  forall steps page allItems response tr1,
    (S (length rest) <= steps)%nat ->
    wants_next_page page response = true ->
    (forall (i : nat) r,
        rest !! i = Some r ->
        (get_page' (page + 1 + Z.of_nat i)
           (tr1 ++ page_requests' (page + 1) (Z.of_nat i))).1 = Resolved r
        /\ wants_next_page (page + 1 + Z.of_nat i) r = true) ->
    page_fails
      (get_page' (page + 1 + Z.of_nat (length rest))
         (tr1 ++ page_requests' (page + 1) (Z.of_nat (length rest)))).1 e ->
    thenFn' steps page allItems response tr1
    = (Raised e, tr1 ++ page_requests' (page + 1) (Z.of_nat (S (length rest)))).
Proof.
  induction rest as [|r0 rest IH];
    intros steps page allItems response tr1 Hsteps Hw Hrest Hfail;
    (destruct steps as [|steps]; [lia|]); rewrite thenFn_goes by exact Hw.
  - simpl length in *. change (Z.of_nat 0) with 0 in Hfail.
    rewrite page_requests_none, app_nil_r in Hfail.
    replace (page + 1 + 0) with (page + 1) in Hfail by lia.
    rewrite page_requests_cons, page_requests_none.
    now apply (failing_page _ (page + 1) tr1 e steps (allItems ++ items_of response)).
  - destruct (Hrest 0%nat r0 eq_refl) as [Hget Hw0].
    change (Z.of_nat 0) with 0 in Hget, Hw0.
    rewrite page_requests_none, app_nil_r in Hget.
    replace (page + 1 + 0) with (page + 1) in Hget, Hw0 by lia.
    destruct (get_page_run config helpers world node nodeId relationship relatedNode
                (page + 1) tr1) as (Htr & _ & _).
    destruct (get_page' (page + 1) tr1) as [c tr2]. simpl in Hget, Htr. subst c tr2.
    rewrite (IH steps (page + 1)); try assumption.
    + simpl length. rewrite (page_requests_cons (page + 1)), <- app_assoc.
      reflexivity.
    + simpl in Hsteps. lia.
    + intros i r Hi. destruct (Hrest (S i) r Hi) as [Hget Hwant].
      rewrite page_requests_cons, cons_middle, app_assoc in Hget.
      replace (page + 1 + Z.of_nat (S i)) with (page + 1 + 1 + Z.of_nat i) in * by lia.
      split; assumption.
    + simpl length in Hfail.
      rewrite page_requests_cons, cons_middle, app_assoc in Hfail.
      replace (page + 1 + Z.of_nat (S (length rest)))
        with (page + 1 + 1 + Z.of_nat (length rest)) in Hfail by lia.
      exact Hfail.
Qed.

(** X2. A page that cannot be read fails the whole fetch.  When the first
    [k] pages were read and each asked for more, and the request for page
    [k + 1] rejects, or resolves with [null] or [undefined], the aggregator
    rejects with that error after [k + 1] requests: the items of the pages
    already read are not returned. *)
Theorem page_failure_fails_fetch (earlier : list value) (e : error) (steps : nat)
    (tr : trace) :
  (length earlier <= steps)%nat ->
  (forall (i : nat) r,
      earlier !! i = Some r ->
      (get_page' (Z.of_nat i + 1) (tr ++ page_requests' 1 (Z.of_nat i))).1
      = Resolved r
      /\ wants_next_page (Z.of_nat i + 1) r = true) ->
  page_fails
    (get_page' (Z.of_nat (length earlier) + 1)
       (tr ++ page_requests' 1 (Z.of_nat (length earlier)))).1 e ->
  getAll' steps tr
  = (Raised e, tr ++ page_requests' 1 (Z.of_nat (length earlier) + 1)).
Proof.
  intros Hsteps Hearlier Hfail. unfold _getAllNodeItems, bind.
  destruct earlier as [|r0 rest].
  - simpl length in *. change (Z.of_nat 0) with 0 in *.
    rewrite page_requests_none, app_nil_r in Hfail. change (0 + 1) with 1 in *.
    change (page_requests' 1 1) with (page_requests' 1 (Z.of_nat 1)). rewrite page_requests_cons, page_requests_none.
    now apply (failing_page _ 1 tr e steps []).
  - destruct (Hearlier 0%nat r0 eq_refl) as [Hget Hw0].
    change (Z.of_nat 0) with 0 in Hget, Hw0.
    rewrite page_requests_none, app_nil_r in Hget. change (0 + 1) with 1 in Hget, Hw0.
    destruct (get_page_run config helpers world node nodeId relationship relatedNode
                1 tr) as (Htr & _ & _).
    destruct (get_page' 1 tr) as [c tr1]. simpl in Hget, Htr. subst c tr1.
    rewrite (thenFn_failure e rest); try assumption.
    + simpl length.
      replace (Z.of_nat (S (length rest)) + 1)
        with (Z.of_nat (S (S (length rest)))) by lia.
      rewrite (page_requests_cons 1), <- app_assoc. reflexivity.
    + intros i r Hi. destruct (Hearlier (S i) r Hi) as [Hget Hwant].
      rewrite page_requests_cons, cons_middle, app_assoc in Hget.
      replace (Z.of_nat (S i) + 1) with (1 + 1 + Z.of_nat i) in * by lia.
      split; assumption.
    + simpl length in Hfail.
      rewrite page_requests_cons, cons_middle, app_assoc in Hfail.
      replace (Z.of_nat (S (length rest)) + 1)
        with (1 + 1 + Z.of_nat (length rest)) in Hfail by lia.
      exact Hfail.
Qed.

End Aggregator.

(** *** The batch engine at its edges *)

Section Engine.

Context (method node rel relType : string) (relIds : list value)
        (relProp options : value).

Local Abbreviation mapper' :=
  (chunk_mapper config helpers world method node rel relType relIds relProp
     (request_params config options)).
Local Abbreviation chunk_request' :=
  (chunk_request config helpers method node rel relType relIds relProp options).
Local Abbreviation chunk_outcome' :=
  (chunk_outcome config helpers world method node rel relType relIds relProp options).
Local Abbreviation engine' steps nodeId :=
  (_multiAddRemoveRelationships config helpers world steps method node nodeId rel
     relType relIds relProp options).

Lemma serve_nothing {B} (mapper : value -> M B) (order : list nat) (tr : trace) :
  serve order mapper [] tr = (Resolved [], tr).
Proof. induction order as [|i order IH]; [reflexivity | exact IH]. Qed.

(** X3. An empty array of identifiers gives no chunk: the engine makes no
    request and raises the generic [ClientError], whatever the chunk size
    and however the remote would have answered. *)
Theorem empty_batch_raises (steps : nat) (tr : trace) :
  engine' steps (VArr []) tr
  = (Raised (ClientError "An error has occurred while processing your request."), tr).
Proof.
  unfold _multiAddRemoveRelationships, idChunks.
  replace (chunk_loop steps (BATCH_USER_COUNT config) []) with (Some (@nil (list value)))
    by (destruct steps; reflexivity).
  simpl. unfold Promise_map, bind. simpl length. now rewrite serve_nothing.
Qed.

(** X4. A configured chunk size of 0 or less makes the chunking loop spin:
    for a non-empty array of identifiers the engine makes no request and
    never settles, however many steps it is given. *)
Theorem no_chunk_size_never_settles (ids : list value) (steps : nat) (tr : trace) :
  BATCH_USER_COUNT config <= 0 ->
  ids <> [] ->
  engine' steps (VArr ids) tr = (Unfinished, tr).
Proof.
  intros Hsize Hids. unfold _multiAddRemoveRelationships, idChunks.
  now rewrite chunk_loop_stuck.
Qed.

Lemma aggregate_resolved (filled results : list outcome) (tr tr' : trace) :
  aggregate filled tr = (Resolved results, tr') ->
  results = filled
  /\ existsb (fun res => negb (instanceof_Error res)) filled = true.
Proof.
  unfold aggregate.
  destruct (existsb (fun res => negb (instanceof_Error res)) filled); simpl.
  - intros [= <- _]. split; reflexivity.
  - destruct filled as [|[] [|]]; discriminate.
Qed.

(** C1. The results array of the engine has one entry per chunk, at the
    position of the chunk: the outcome of that chunk's own request (its
    parsed response, or the error its catch captured), made after the
    requests of the chunks started before it.  If some chunk succeeded the
    engine resolves with that whole array, successes and captured errors
    mixed; if the only chunk failed it raises that chunk's error itself; if
    all of two or more chunks failed it raises one generic [ClientError],
    whatever the individual errors were.  What the engine does is the same
    in whatever order the remote answers the requests in flight: the array
    is filled by position, not by time of arrival. *)
Theorem aggregation_policy (steps : nat) (nodeId : value) (chunks : list value)
    (tr : trace) :
  idChunks config steps nodeId = Some chunks ->
  let order := start_order (BATCH_USER_CONCURRENCY config) (length chunks) in
  exists results,
    length results = length chunks
    /\ (forall p i chunk,
          order !! p = Some i -> chunks !! i = Some chunk ->
          results !! i
          = Some (chunk_outcome'
                    (tr ++ map chunk_request'
                             (omap (fun i => chunks !! i) (take p order)))
                    chunk))
    /\ ((exists res, Success res ∈ results) ->
          (engine' steps nodeId tr).1 = Resolved results)
    /\ (forall err, results = [Failure err] ->
          (engine' steps nodeId tr).1 = Raised err)
    /\ (Forall (fun res => instanceof_Error res = true) results ->
        (2 <= length results)%nat ->
        (engine' steps nodeId tr).1
        = Raised (ClientError "An error has occurred while processing your request."))
    /\ (forall answered_in,
          _multiAddRemoveRelationships config helpers (answering world answered_in)
            steps method node nodeId rel relType relIds relProp options tr
          = engine' steps nodeId tr).
Proof.
  intros Hchunks order.
  destruct (engine_spec config helpers world method node rel relType relIds relProp
              options steps nodeId chunks tr Hchunks)
    as (results & Hlen & Hout & Hrun).
  fold order in Hout, Hrun.
  exists results. split; [exact Hlen|]. split; [exact Hout|].
  split; [|split; [|split]].
  - intros Hsome. now rewrite Hrun, aggregate_some_success.
  - intros err ->. now rewrite Hrun.
  - intros Hall Htwo. rewrite Hrun. unfold aggregate.
    rewrite (aggregate_all_failed results Hall). simpl.
    destruct results as [|r1 [|r2 results]]; simpl in Htwo; try lia.
    destruct r1; reflexivity.
  - intros answered_in.
    unfold _multiAddRemoveRelationships at 1. rewrite Hchunks.
    destruct (Promise_map_spec config helpers (answering world answered_in) method
                node rel relType relIds relProp options
                (BATCH_USER_CONCURRENCY config) chunks tr)
      as (results' & Hlen' & Hrun' & Hout').
    fold order in Hout', Hrun'.
    assert (results' = results) as ->.
    { apply list_eq. intros i.
      destruct (chunks !! i) as [chunk|] eqn:Hi.
      - assert (Hstarted : i ∈ order).
        { subst order. rewrite start_order_permutation. apply elem_of_seq.
          apply lookup_lt_Some in Hi. lia. }
        apply list_elem_of_lookup in Hstarted as [p Hp].
        now rewrite (Hout p i chunk Hp Hi), (Hout' p i chunk Hp Hi).
      - apply lookup_ge_None in Hi.
        rewrite !(proj2 (lookup_ge_None _ _)) by lia. reflexivity. }
    unfold bind. now rewrite Hrun', Hrun.
Qed.

(** C8 (as amended). The engine hands the chunks to [Promise.map] with the
    configured limit, and the requests go out in the order the chunks are
    started.  Every chunk is started once and every request is answered:
    none is dropped.  With a limit of at least 1, at no point of the
    timeline are more than that many requests in flight; the first [limit]
    chunks are started at once, in chunk order; a chunk that had to wait is
    started right after a request was answered; and the waiting chunks are
    started last chunk first.  A limit below 1 is no limit: every chunk is
    started at once, in chunk order. *)
Theorem bounded_dispatch (steps : nat) (nodeId : value) (chunks : list value)
    (tr : trace) :
  idChunks config steps nodeId = Some chunks ->
  let n := length chunks in
  let limit := BATCH_USER_CONCURRENCY config in
  let t := schedule limit (service_order world n) n in
  let first := Nat.min (Z.to_nat limit) n in
  (engine' steps nodeId tr).2
  = tr ++ map chunk_request' (omap (fun i => chunks !! i) (started t))
  /\ started t ≡ₚ seq 0 n
  /\ completions t ≡ₚ seq 0 n
  /\ (1 <= limit ->
       (forall p, in_flight (take p t) <= limit)
       /\ take first t = Started <$> seq 0 first
       /\ started t = seq 0 first ++ rev (seq first (n - first))
       /\ (forall p j, t !! p = Some (Started j) ->
             (j < first)%nat
             \/ exists c, (1 <= p)%nat /\ t !! (p - 1)%nat = Some (Completed c)))
  /\ (limit < 1 -> take n t = Started <$> seq 0 n).
Proof.
  intros Hchunks n limit t first.
  destruct (schedule_spec limit (service_order world n) n)
    as (Hstart & Hdone & [Hbound Hwait] & Htake).
  fold t in Hstart, Hdone, Hbound, Hwait, Htake.
  split; [|split; [|split; [|split]]].
  - destruct (engine_spec config helpers world method node rel relType relIds
                relProp options steps nodeId chunks tr Hchunks)
      as (results & _ & _ & Hrun).
    rewrite Hrun, aggregate_trace, Hstart. reflexivity.
  - rewrite Hstart. apply start_order_permutation.
  - exact Hdone.
  - intros Hlimit.
    assert (Hl : concurrency_limit limit = limit).
    { unfold concurrency_limit.
      now replace (1 <=? limit) with true by (symmetry; now apply Z.leb_le). }
    assert (Hfirst : first_pass limit n = first).
    { unfold first_pass.
      now replace (1 <=? limit) with true by (symmetry; now apply Z.leb_le). }
    rewrite Hl, Hfirst in *.
    split; [now apply Hbound|]. split; [exact Htake|]. split; [|exact Hwait].
    rewrite Hstart. unfold start_order.
    now replace (1 <=? limit) with true by (symmetry; now apply Z.leb_le).
  - intros Hlimit.
    assert (Hl : concurrency_limit limit = 0).
    { unfold concurrency_limit.
      now replace (1 <=? limit) with false by (symmetry; apply Z.leb_gt; lia). }
    rewrite Hl in Htake. exact Htake.
Qed.

(** X5. When the engine resolves, its results array has one entry per
    chunk, at least one of them a success, and the entry at the position of
    a chunk is the outcome of that chunk's own request (its parsed response,
    or the error of its transport call or parse step): a failing chunk
    leaves the entries of the other chunks untouched. *)
Theorem results_are_chunk_outcomes (steps : nat) (nodeId : value)
    (chunks : list value) (tr tr' : trace) (results : list outcome) :
  idChunks config steps nodeId = Some chunks ->
  service_order world (length chunks) ≡ₚ seq 0 (length chunks) ->
  engine' steps nodeId tr = (Resolved results, tr') ->
  length results = length chunks
  /\ (exists res, Success res ∈ results)
  /\ forall i chunk,
       chunks !! i = Some chunk ->
       exists h, tr `prefix_of` h /\ results !! i = Some (chunk_outcome' h chunk).
Proof.
  intros Hchunks _ Hrun.
  unfold _multiAddRemoveRelationships in Hrun. rewrite Hchunks in Hrun.
  destruct (Promise_map_spec config helpers world method node rel relType relIds
              relProp options (BATCH_USER_CONCURRENCY config) chunks tr)
    as (filled & Hlen & Hmap & Hout).
  unfold bind in Hrun. rewrite Hmap in Hrun.
  apply aggregate_resolved in Hrun as (<- & Hsome).
  split; [exact Hlen|]. split.
  - apply existsb_exists in Hsome as ([res|err] & Hin & Hres); [|discriminate].
    exists res. now apply list_elem_of_In.
  - intros i chunk Hi.
    assert (Hstarted : i ∈ start_order (BATCH_USER_CONCURRENCY config)
                           (length chunks)).
    { rewrite start_order_permutation. apply elem_of_seq.
      apply lookup_lt_Some in Hi. lia. }
    apply list_elem_of_lookup in Hstarted as [p Hp].
    eexists. split; [|exact (Hout p i chunk Hp Hi)].
    now apply prefix_app_r.
Qed.

(** X6. Every payload becomes one subject, in order.  With a [relProp] the
    subject's [_rel] is that [relProp], also when the payload came with a
    [_rel] of its own; without one the payload's own [_rel], if any, is
    passed on.  Every other property of the payload is kept. *)
Theorem subject_relationship_tag (i : nat) (item : value) :
  relIds !! i = Some item ->
  length (subjects relIds relProp) = length relIds
  /\ exists o,
       subjects relIds relProp !! i = Some (VObj o)
       /\ (forall k, k <> "_rel" -> o !! k = own_props item !! k)
       /\ o !! "_rel" = match relProp with
                        | VUndefined => own_props item !! "_rel"
                        | _ => Some relProp
                        end.
Proof.
  intros Hi. rewrite subjects_merged. split; [apply length_map|].
  eexists. split; [|split].
  - change (map ?f relIds) with (f <$> relIds). rewrite list_lookup_fmap, Hi.
    reflexivity.
  - intros k Hk. destruct relProp; try reflexivity;
      now rewrite lookup_insert_ne by congruence.
  - destruct relProp; try reflexivity; now rewrite lookup_insert_eq.
Qed.

End Engine.

(** X7. The query parameters of a mutation are the caller's options laid
    over the configured defaults: an option the caller gives wins, [noEvent]
    and [waitForPurge] otherwise come from the configuration, and any other
    option is passed through. *)
Theorem options_override_defaults (options : value) (k : string) :
  get_prop (request_params config options) k
  = Fulfilled
      match own_props options !! k with
      | Some v => v
      | None =>
          if String.eqb k "noEvent" then MYFT_NO_EVENT config
          else if String.eqb k "waitForPurge" then MYFT_WAIT_FOR_PURGE_ADD config
          else VUndefined
      end.
Proof.
  unfold request_params, assign, get_prop. f_equal.
  destruct (own_props options !! k) as [v|] eqn:Hk.
  - now rewrite (lookup_union_Some_l _ _ _ _ Hk).
  - rewrite lookup_union_r by exact Hk.
    destruct (String.eqb_spec k "noEvent") as [->|Hne].
    + now rewrite lookup_insert_eq.
    + rewrite lookup_insert_ne by congruence.
      destruct (String.eqb_spec k "waitForPurge") as [->|Hne'].
      * now rewrite lookup_insert_eq.
      * now rewrite lookup_insert_ne, lookup_empty by congruence.
Qed.

(** *** Reads and writes of single nodes *)

Lemma read_run (msg : option (list msg_part)) method node nodeId relationship
    relatedNode relatedNodeId data tr :
  (do res <- _createAndTriggerRelationshipRequest config helpers world method node
               nodeId relationship relatedNode relatedNodeId data VUndefined;
   parse helpers msg res) tr
  = (parsed_value helpers msg
       (fetch world tr
          (request_url config helpers method node nodeId relationship relatedNode
             relatedNodeId data VUndefined)
          (request_options config method data)),
     tr ++ [request_event config helpers method node nodeId relationship
              relatedNode relatedNodeId data VUndefined]).
Proof.
  unfold bind. rewrite request_run.
  destruct (fetch world tr _ _) as [r|e]; simpl; [|reflexivity].
  unfold parse, of_settled. destruct (parseJsonRes helpers r msg); reflexivity.
Qed.

Lemma scoped_run node nodeId relatedNode relatedNodeId relationship relatedType tr :
  (do res <- _createAndTriggerScopedRequest config helpers world "GET" node nodeId
               relatedNode relatedNodeId relationship relatedType VUndefined
               VUndefined;
   parse helpers None res) tr
  = (parsed_value helpers None
       (fetch world tr
          (MYFT_API_URL config +:+ "/" +:+ node +:+ "/" +:+ nodeId +:+ "/"
             +:+ relatedNode +:+ "/" +:+ relatedNodeId +:+ "/" +:+ relationship
             +:+ "/" +:+ relatedType +:+ no_query helpers "GET")
          (request_options config "GET" VUndefined)),
     tr ++ [EvFetch
              (MYFT_API_URL config +:+ "/" +:+ node +:+ "/" +:+ nodeId +:+ "/"
                 +:+ relatedNode +:+ "/" +:+ relatedNodeId +:+ "/" +:+ relationship
                 +:+ "/" +:+ relatedType +:+ no_query helpers "GET")
              (request_options config "GET" VUndefined)]).
Proof.
  unfold bind, _createAndTriggerScopedRequest, _doRelationshipRequest, do_fetch.
  rewrite !string_app_assoc.
  change (request_query helpers "GET" VUndefined VUndefined) with (no_query helpers "GET").
  fold (request_options config "GET" VUndefined).
  destruct (fetch world tr _ _) as [r|e]; simpl; [|reflexivity].
  unfold parse, of_settled. destruct (parseJsonRes helpers r None); reflexivity.
Qed.

Lemma member_url node nodeId memberType memberId :
  request_url config helpers "GET" node (Some nodeId) (Some "member")
    (Some memberType) (Some memberId) VUndefined VUndefined
  = MYFT_API_URL config +:+ "/" +:+ node +:+ "/" +:+ nodeId +:+ "/member/"
      +:+ memberType +:+ "/" +:+ memberId +:+ no_query helpers "GET".
Proof.
  unfold request_url, relationship_url, add_segment, no_query.
  rewrite !string_app_assoc. reflexivity.
Qed.

(** X8. Each read of a single node or member makes exactly one call, a GET
    without a body, to the path of that node or member, and resolves with
    what the parse step makes of the answer; a rejection of the transport
    or of the parse step (a [NotFoundError] included) is raised as it is. *)
Theorem single_reads (tr : trace) :
  let read url :=
    (parsed_value helpers None
       (fetch world tr url (request_options config "GET" VUndefined)),
     tr ++ [EvFetch url (request_options config "GET" VUndefined)]) in
  fo_method (request_options config "GET" VUndefined) = "GET"
  /\ fo_body (request_options config "GET" VUndefined) = BodyUnset
  /\ (forall uuid,
        getLicence config helpers world uuid tr
        = read (MYFT_API_URL config +:+ "/license/" +:+ uuid
                  +:+ no_query helpers "GET"))
  /\ (forall licenceId userId,
        getUserFromLicence config helpers world licenceId userId tr
        = read (MYFT_API_URL config +:+ "/license/" +:+ licenceId
                  +:+ "/member/user/" +:+ userId +:+ no_query helpers "GET"))
  /\ (forall groupId userId,
        getUserFromGroup config helpers world groupId userId tr
        = read (MYFT_API_URL config +:+ "/group/" +:+ groupId
                  +:+ "/member/user/" +:+ userId +:+ no_query helpers "GET"))
  /\ (forall licenceId groupId,
        getGroupFromLicence config helpers world licenceId groupId tr
        = read (MYFT_API_URL config +:+ "/license/" +:+ licenceId
                  +:+ "/member/group/" +:+ groupId +:+ no_query helpers "GET")).
Proof.
  intros read. subst read. split; [reflexivity|]. split; [reflexivity|].
  split; [|split; [|split]].
  - intros uuid. unfold getLicence, _getNode. rewrite read_run.
    unfold request_event.
    replace (request_url config helpers "GET" myftConst.licenceNodeName (Some uuid)
               None None None VUndefined VUndefined)
      with (MYFT_API_URL config +:+ "/license/" +:+ uuid +:+ no_query helpers "GET");
      [reflexivity|].
    unfold request_url, relationship_url, add_segment, no_query.
    rewrite !string_app_assoc. reflexivity.
  - intros licenceId userId. unfold getUserFromLicence, _getMemberFromNode.
    rewrite read_run. unfold request_event.
    change myftConst.memberRelName with "member". rewrite member_url.
    reflexivity.
  - intros groupId userId. unfold getUserFromGroup, _getMemberFromNode.
    rewrite read_run. unfold request_event.
    change myftConst.memberRelName with "member". rewrite member_url.
    reflexivity.
  - intros licenceId groupId. unfold getGroupFromLicence, _getMemberFromNode.
    rewrite read_run. unfold request_event.
    change myftConst.memberRelName with "member". rewrite member_url.
    reflexivity.
Qed.

(** X9. The reads scoped by a licence make exactly one call, a GET without
    a body: the followers of a concept are asked for under
    [license/<licence>/concept/<concept>/followed/<user or group>], the
    users with a digest preference under
    [license/<licence>/preference/email-digest/preferred/user]; each
    resolves with what the parse step makes of the answer. *)
Theorem scoped_reads (tr : trace) :
  let read url :=
    (parsed_value helpers None
       (fetch world tr url (request_options config "GET" VUndefined)),
     tr ++ [EvFetch url (request_options config "GET" VUndefined)]) in
  (forall licenceId conceptId,
      getUsersFollowingConcept config helpers world licenceId conceptId tr
      = read (MYFT_API_URL config +:+ "/license/" +:+ licenceId +:+ "/concept/"
                +:+ conceptId +:+ "/followed/user" +:+ no_query helpers "GET"))
  /\ (forall licenceId conceptId,
        getGroupsFollowingConcept config helpers world licenceId conceptId tr
        = read (MYFT_API_URL config +:+ "/license/" +:+ licenceId +:+ "/concept/"
                  +:+ conceptId +:+ "/followed/group" +:+ no_query helpers "GET"))
  /\ (forall uuid,
        getUsersWithEmailDigestPreference config helpers world uuid tr
        = read (MYFT_API_URL config +:+ "/license/" +:+ uuid
                  +:+ "/preference/email-digest/preferred/user"
                  +:+ no_query helpers "GET")).
Proof.
  intros read. subst read. split; [|split].
  - intros licenceId conceptId.
    unfold getUsersFollowingConcept, _getNodesFollowingConcept.
    rewrite scoped_run. reflexivity.
  - intros licenceId conceptId.
    unfold getGroupsFollowingConcept, _getNodesFollowingConcept.
    rewrite scoped_run. reflexivity.
  - intros uuid. unfold getUsersWithEmailDigestPreference.
    rewrite scoped_run. reflexivity.
Qed.

(** X10. [addLicence] posts [{uuid}] to the licence collection.
    [updateLicence] puts to the licence itself; its body is the data when
    the data is truthy, and otherwise an empty object in production and
    [null] elsewhere.  The [Content-Length] header is set in production
    only, to the length of the body.  Both make exactly one call and resolve
    with what the parse step makes of the answer. *)
Theorem licence_writes (tr : trace) :
  (forall uuid,
      let data := VObj {["uuid" := VStr uuid]} in
      let url := MYFT_API_URL config +:+ "/license" +:+ no_query helpers "POST" in
      let options :=
        {| fo_method := "POST";
           fo_content_length :=
             if production config then Some (ByteLengthOf (BodyJSON data)) else None;
           fo_body := BodyJSON data |} in
      addLicence config helpers world uuid tr
      = (parsed_value helpers None (fetch world tr url options),
         tr ++ [EvFetch url options]))
  /\ (forall uuid data,
        let body :=
          if truthy data then BodyJSON data
          else if production config then BodyJSON (VObj ∅) else BodyNull in
        let url := MYFT_API_URL config +:+ "/license/" +:+ uuid
                     +:+ no_query helpers "PUT" in
        let options :=
          {| fo_method := "PUT";
             fo_content_length :=
               if production config then Some (ByteLengthOf body) else None;
             fo_body := body |} in
        updateLicence config helpers world uuid data tr
        = (parsed_value helpers None (fetch world tr url options),
           tr ++ [EvFetch url options])).
Proof.
  split.
  - intros uuid data url options. unfold addLicence, _setNode. rewrite read_run.
    unfold request_event, request_options, request_content_length, request_body.
    subst url options data. simpl.
    replace (request_url config helpers "POST" myftConst.licenceNodeName None None
               None None (VObj {["uuid" := VStr uuid]}) VUndefined)
      with (MYFT_API_URL config +:+ "/license" +:+ no_query helpers "POST")
      by (unfold request_url, relationship_url, add_segment, no_query;
          rewrite !string_app_assoc; reflexivity).
    destruct (production config); reflexivity.
  - intros uuid data body url options. unfold updateLicence, _updateNode.
    rewrite read_run.
    unfold request_event, request_options, request_content_length, request_body.
    subst url options body. simpl.
    replace (request_url config helpers "PUT" myftConst.licenceNodeName (Some uuid)
               None None None data VUndefined)
      with (MYFT_API_URL config +:+ "/license/" +:+ uuid +:+ no_query helpers "PUT")
      by (unfold request_url, relationship_url, add_segment, no_query;
          rewrite !string_app_assoc; reflexivity).
    unfold or_empty. destruct (production config), (truthy data); reflexivity.
Qed.

(** X11. [_addRemoveRelationships] makes exactly one request, whatever the
    number of identifiers (none included).  For a method other than GET its
    body has, for an array of identifiers, one object per identifier in the
    same order, and for a single identifier one object; each object holds
    the identifier under [uuid], and [relProp] under [_rel] exactly when a
    [relProp] is given. *)
Theorem relationships_one_request method node nodeId rel relType relIds relProp
    options tr :
  method <> "GET" ->
  let entry uuid :=
    VObj match relProp with
         | VUndefined => {["uuid" := uuid]}
         | _ => <["_rel" := relProp]> {["uuid" := uuid]}
         end in
  exists call,
    (_addRemoveRelationships config helpers world method node nodeId rel relType
       relIds relProp options tr).2 = tr ++ [call]
    /\ event_body call
       = Some (BodyJSON match relIds with
                        | VArr ids => VArr (entry <$> ids)
                        | _ => entry relIds
                        end).
Proof.
  intros Hmethod entry. rewrite addRemoveRelationships_run. eexists.
  split; [reflexivity|].
  unfold relationships_request, request_event, request_options, request_body.
  apply String.eqb_neq in Hmethod. simpl. rewrite Hmethod. simpl.
  assert (Hentry : forall uuid,
            VObj (assign {["uuid" := uuid]} (rel_tag relProp)) = entry uuid).
  { intros uuid. subst entry. unfold assign, rel_tag. simpl. f_equal.
    destruct relProp; try (now rewrite insert_union_singleton_l).
    apply (left_id_L ∅ (∪)). }
  assert (Hdata : relationships_data relIds relProp
                  = match relIds with
                    | VArr ids => VArr (entry <$> ids)
                    | _ => entry relIds
                    end).
  { unfold relationships_data. destruct relIds; try apply Hentry.
    f_equal. apply map_ext. intros uuid. apply Hentry. }
  rewrite Hdata. unfold or_empty.
  assert (Htruthy : truthy match relIds with
                           | VArr ids => VArr (entry <$> ids)
                           | _ => entry relIds
                           end = true)
    by (subst entry; destruct relIds; reflexivity).
  rewrite Htruthy. destruct (production config); reflexivity.
Qed.

(** *** Failures inside the synchronisation workflow *)

Section Workflow.

Context (steps : nat) (groupId userId : string).

Local Abbreviation sync' :=
  (syncUserFollowers config helpers world steps groupId userId).
Local Abbreviation group_fetch :=
  (getConceptsFollowedByGroup config helpers world steps groupId).
Local Abbreviation user_fetch :=
  (getConceptsFollowedByUser config helpers world steps userId).
Local Abbreviation onUser' :=
  (onUserConcepts config helpers world steps groupId userId).
Local Abbreviation followNew' :=
  (followNewConcepts config helpers world steps groupId userId).
Local Abbreviation ensure' :=
  (ensureDigestPreference config helpers world steps userId).
Local Abbreviation get_preference' :=
  (getEmailDigestPreference config helpers world userId).
Local Abbreviation add_request' :=
  (add_follow_request config helpers groupId userId).
Local Abbreviation add_outcome' :=
  (add_follow_outcome config helpers world groupId userId).
Local Abbreviation get_preference_request' :=
  (get_preference_request config helpers userId).
Local Abbreviation set_preference_request' :=
  (set_preference_request config helpers userId).
Local Abbreviation set_preference_outcome' :=
  (set_preference_outcome config helpers world userId).

Lemma sync_to_follow (Gs Us : list (gmap string value)) (tr tr1 tr2 : trace) :
  group_fetch tr = (Resolved (VObj <$> Gs), tr1) ->
  user_fetch tr1 = (Resolved (VObj <$> Us), tr2) ->
  absent_from Us Gs <> [] ->
  sync' tr = followNew' (VObj <$> absent_from Us Gs) tr2.
Proof.
  intros Hg Hu Hnew.
  assert (Hne : VObj <$> Gs <> []).
  { destruct Gs; [|discriminate]. now destruct Hnew. }
  rewrite sync_from_group, Hg, onGroup_nonempty, Hu, onUser_objects by exact Hne.
  destruct (absent_from Us Gs); [congruence | reflexivity].
Qed.

(** X12. When the request that makes the user follow the new concepts
    fails, the workflow raises that failure and this request is the last
    call made: the digest preference is neither looked for nor created, and
    no event is written. *)
Theorem failed_follow_stops_sync (Gs Us : list (gmap string value))
    (tr tr1 tr2 : trace) (e : error) :
  service_order world 1 ≡ₚ seq 0 1 ->
  group_fetch tr = (Resolved (VObj <$> Gs), tr1) ->
  user_fetch tr1 = (Resolved (VObj <$> Us), tr2) ->
  absent_from Us Gs <> [] ->
  add_outcome' (VObj <$> absent_from Us Gs) tr2 = Failure e ->
  sync' tr = (Raised e, tr2 ++ [add_request' (VObj <$> absent_from Us Gs)]).
Proof.
  intros Hperm Hg Hu Hnew Hadd.
  rewrite (sync_to_follow Gs Us tr tr1 tr2) by assumption.
  unfold followNewConcepts, bind.
  rewrite add_follow_run by assumption. now rewrite Hadd.
Qed.

(** X13. When the digest preference is not found and the request that
    creates it fails, the workflow raises that failure.  The user has been
    made to follow the new concepts by then, the creation request is the
    last call made, and no event is written. *)
Theorem failed_preference_creation_stops_sync (Gs Us : list (gmap string value))
    (tr tr1 tr2 : trace) (e e' : error) :
  service_order world 1 ≡ₚ seq 0 1 ->
  group_fetch tr = (Resolved (VObj <$> Gs), tr1) ->
  user_fetch tr1 = (Resolved (VObj <$> Us), tr2) ->
  absent_from Us Gs <> [] ->
  let new := VObj <$> absent_from Us Gs in
  let tr3 := tr2 ++ [add_request' new] in
  (exists v, add_outcome' new tr2 = Success v) ->
  (get_preference' tr3).1 = Raised e ->
  isNotFoundError e = true ->
  set_preference_outcome' (tr3 ++ [get_preference_request']) = Failure e' ->
  sync' tr
  = (Raised e', tr3 ++ [get_preference_request'; set_preference_request']).
Proof.
  intros Hperm Hg Hu Hnew new tr3 (v & Hadd) Hget Hnf Hset.
  rewrite (sync_to_follow Gs Us tr tr1 tr2) by assumption.
  unfold followNewConcepts, bind. fold new.
  rewrite add_follow_run by assumption. rewrite Hadd.
  rewrite ensure_run by assumption. fold tr3.
  now rewrite Hget, Hnf, Hset.
Qed.

(** X14. When the event stream rejects the subscribe event, the workflow
    raises that rejection although the user has been made to follow the new
    concepts and the preference step is over: the trace holds the add-follow
    request, the calls of the preference step (the lookup first) and the
    event that was refused. *)
Theorem failed_event_is_raised (Gs Us : list (gmap string value))
    (tr tr1 tr2 tr4 : trace) (e : error) :
  service_order world 1 ≡ₚ seq 0 1 ->
  group_fetch tr = (Resolved (VObj <$> Gs), tr1) ->
  user_fetch tr1 = (Resolved (VObj <$> Us), tr2) ->
  absent_from Us Gs <> [] ->
  let new := absent_from Us Gs in
  let cleanConcepts := (fun g => VObj (delete "_rel" g)) <$> new in
  let tr3 := tr2 ++ [add_request' (VObj <$> new)] in
  (exists v, add_outcome' (VObj <$> new) tr2 = Success v) ->
  ensure' tr3 = (Resolved tt, tr4) ->
  kinesis_write world tr4 userId "subscribe" cleanConcepts = Rejected e ->
  sync' tr = (Raised e, tr4 ++ [EvKinesis userId "subscribe" cleanConcepts])
  /\ exists created, tr4 = tr3 ++ get_preference_request' :: created.
Proof.
  intros Hperm Hg Hu Hnew new cleanConcepts tr3 (v & Hadd) Hensure Hkin.
  split.
  - rewrite (sync_to_follow Gs Us tr tr1 tr2) by assumption.
    unfold followNewConcepts, bind. fold new.
    rewrite add_follow_run by assumption. rewrite Hadd.
    fold tr3. rewrite Hensure.
    rewrite emit_run, clean_objects. fold cleanConcepts. now rewrite Hkin.
  - rewrite ensure_run in Hensure by assumption.
    destruct ((get_preference' tr3).1) as [pv|pe|].
    + exists []. congruence.
    + destruct (isNotFoundError pe); [|discriminate].
      exists [set_preference_request']. congruence.
    + discriminate.
Qed.

Lemma uuids_of_nullish (conceptsResp : list value) :
  Exists (fun c => nullish c = true) conceptsResp ->
  exists msg, uuids_of conceptsResp = Rejected (TypeError msg).
Proof.
  induction 1 as [c rest Hc | c rest _ IH].
  - destruct c; try discriminate; simpl; eauto.
  - destruct IH as (msg & IH). simpl. rewrite IH.
    destruct (get_prop c "uuid") as [uuid|e] eqn:Hget; [eauto|].
    destruct c; try discriminate; simpl in Hget; inversion Hget; eauto.
Qed.

Lemma filter_new_nullish (userConceptIds groupConcepts : list value) :
  Exists (fun c => nullish c = true) groupConcepts ->
  exists msg, filter_new userConceptIds groupConcepts = Rejected (TypeError msg).
Proof.
  induction 1 as [c rest Hc | c rest _ IH].
  - destruct c; try discriminate; simpl; eauto.
  - destruct IH as (msg & IH). simpl. rewrite IH.
    destruct (get_prop c "uuid") as [uuid|e] eqn:Hget; [eauto|].
    destruct c; try discriminate; simpl in Hget; inversion Hget; eauto.
Qed.

Lemma uuids_of_settles (conceptsResp : list value) :
  (exists ids, uuids_of conceptsResp = Fulfilled ids)
  \/ exists msg, uuids_of conceptsResp = Rejected (TypeError msg).
Proof.
  induction conceptsResp as [|c rest IH]; [left; simpl; eauto|].
  simpl. destruct c; simpl; eauto;
    destruct IH as [(ids & ->) | (msg & ->)]; eauto.
Qed.

(** X15. The workflow reads [uuid] from every concept of the two lists
    before it calls anything.  When the user's list or the group's list
    holds a [null] or an [undefined], the workflow therefore raises a
    [TypeError] after the two fetches, with no request sent and no event
    written. *)
Theorem nullish_concept_raises (groupConcepts conceptsResp : list value)
    (tr tr1 tr2 : trace) :
  group_fetch tr = (Resolved groupConcepts, tr1) ->
  user_fetch tr1 = (Resolved conceptsResp, tr2) ->
  Exists (fun c => nullish c = true) (conceptsResp ++ groupConcepts) ->
  groupConcepts <> [] ->
  exists msg, sync' tr = (Raised (TypeError msg), tr2).
Proof.
  intros Hg Hu Hnull Hne.
  rewrite sync_from_group, Hg, onGroup_nonempty, Hu by exact Hne.
  unfold onUserConcepts, bind.
  apply Exists_app in Hnull. destruct Hnull as [Hnull | Hnull].
  - destruct (uuids_of_nullish _ Hnull) as (msg & ->). simpl. eauto.
  - destruct (uuids_of_settles conceptsResp) as [(ids & ->) | (msg & ->)];
      simpl; [|eauto].
    destruct (filter_new_nullish ids _ Hnull) as (msg & ->). simpl. eauto.
Qed.

Lemma strict_eq_refl (v : value) : primitive v = true -> strict_eq v v = true.
Proof.
  destruct v; simpl; try discriminate; intros _; try reflexivity.
  - apply eqb_reflx.
  - apply Z.eqb_refl.
  - apply String.eqb_refl.
  - apply String.eqb_refl.
Qed.

Lemma strict_eq_compound (a b : value) : primitive b = false -> strict_eq a b = false.
Proof. destruct a, b; simpl; try discriminate; reflexivity. Qed.

Lemma follows_member (Us : list (gmap string value)) (g : gmap string value) :
  primitive (uuid_of g) = true -> g ∈ Us -> follows Us g = true.
Proof.
  intros Hprim Hin. unfold follows. apply existsb_exists.
  exists g. split; [now apply list_elem_of_In | now apply strict_eq_refl].
Qed.

Lemma follows_app (Us Vs : list (gmap string value)) (g : gmap string value) :
  follows (Us ++ Vs) g = follows Us g || follows Vs g.
Proof. unfold follows. apply existsb_app. Qed.

(** X16. Once the user follows the concepts the workflow added, a second
    run finds nothing to add: with the user's list extended by the new
    concepts (and by whatever else), the callback resolves with
    [synchronisationIgnored] and calls nothing.  This needs every uuid of
    the group's concepts to be a string, a number, a boolean, [null] or
    absent, which [===] compares by content. *)
Theorem second_run_is_ignored (Gs Us others : list (gmap string value)) (tr : trace) :
  (forall g, g ∈ Gs -> primitive (uuid_of g) = true) ->
  onUser' (VObj <$> Gs) (VObj <$> (Us ++ absent_from Us Gs ++ others)) tr
  = (Resolved (SynchronisationIgnored userId groupId "noNewConceptsToFollow"), tr).
Proof.
  intros Hprim.
  rewrite onUser_objects, absent_from_all; [reflexivity|].
  intros g Hg. rewrite !follows_app.
  destruct (follows Us g) eqn:Hfollows; [reflexivity|]. simpl.
  rewrite follows_member; [reflexivity | now apply Hprim |].
  apply list_elem_of_In, filter_In.
  split; [now apply list_elem_of_In | now rewrite Hfollows].
Qed.

(** X17. A concept of the group whose uuid is an object or an array is
    compared by identity with the uuids of the user's concepts, so it is
    never found among them: whatever the user follows, it is among the new
    concepts and the callback goes on to the add-follow request. *)
Theorem compound_uuid_is_always_new (Gs Us : list (gmap string value))
    (g : gmap string value) (tr : trace) :
  g ∈ Gs ->
  primitive (uuid_of g) = false ->
  g ∈ absent_from Us Gs
  /\ onUser' (VObj <$> Gs) (VObj <$> Us) tr
     = followNew' (VObj <$> absent_from Us Gs) tr.
Proof.
  intros Hg Hcompound.
  assert (Hnew : g ∈ absent_from Us Gs).
  { apply list_elem_of_In, filter_In. split; [now apply list_elem_of_In|].
    unfold follows. apply negb_true_iff, not_true_iff_false.
    intros Hex. apply existsb_exists in Hex. destruct Hex as (u & _ & Heq).
    now rewrite strict_eq_compound in Heq. }
  split; [exact Hnew|].
  rewrite onUser_objects.
  destruct (absent_from Us Gs); [inversion Hnew | reflexivity].
Qed.

End Workflow.

(** *** The routes of the membership operations *)

Lemma write_url method node nodeId rel relType data params :
  method <> "GET" ->
  request_url config helpers method node (Some nodeId) (Some rel) (Some relType)
    None data params
  = MYFT_API_URL config +:+ "/" +:+ node +:+ "/" +:+ nodeId +:+ "/" +:+ rel
      +:+ "/" +:+ relType +:+ createParams helpers params "?".
Proof.
  intros Hmethod. apply String.eqb_neq in Hmethod.
  unfold request_url, relationship_url, add_segment, request_query.
  rewrite Hmethod. simpl. rewrite !string_app_assoc. reflexivity.
Qed.

Lemma addRemoveUsers_trace method node nodeId userIds relProp options noResultParse
    tr :
  (_addRemoveUsers config helpers world method node nodeId userIds relProp options
     noResultParse tr).2
  = tr ++ [relationships_request config helpers method node nodeId
             myftConst.memberRelName myftConst.userNodeName userIds relProp options].
Proof.
  unfold _addRemoveUsers.
  destruct noResultParse; simpl; unfold bind;
    rewrite addRemoveRelationships_run;
    destruct (relationships_answer _ _ _ _ _ _ _ _ _ _ _ _) as [r|e]; simpl;
    try reflexivity.
  unfold parse, of_settled, bind, ret. destruct (parseJsonRes helpers r _); reflexivity.
Qed.

Lemma addRemoveGroups_trace method licenseId groupIds relProp options noResultParse
    tr :
  (_addRemoveGroups config helpers world method licenseId groupIds relProp options
     noResultParse tr).2
  = tr ++ [relationships_request config helpers method myftConst.licenceNodeName
             licenseId myftConst.memberRelName myftConst.groupNodeName groupIds
             relProp options].
Proof.
  unfold _addRemoveGroups.
  destruct noResultParse; simpl; unfold bind;
    rewrite addRemoveRelationships_run;
    destruct (relationships_answer _ _ _ _ _ _ _ _ _ _ _ _) as [r|e]; simpl;
    try reflexivity.
  unfold parse, of_settled, bind, ret. destruct (parseJsonRes helpers r _); reflexivity.
Qed.

Lemma removeConcepts_trace node nodeUUID conceptUUIDs noResultParse tr :
  (_removeConceptsFollowedByNode config helpers world node nodeUUID conceptUUIDs
     noResultParse tr).2
  = tr ++ [relationships_request config helpers "DELETE" node nodeUUID
             myftConst.followedRelName myftConst.topicNodeName conceptUUIDs
             VUndefined VUndefined].
Proof.
  unfold _removeConceptsFollowedByNode.
  destruct noResultParse; simpl; unfold bind;
    rewrite addRemoveRelationships_run;
    destruct (relationships_answer _ _ _ _ _ _ _ _ _ _ _ _) as [r|e]; simpl;
    try reflexivity.
  unfold parse, of_settled, bind, ret. destruct (parseJsonRes helpers r _); reflexivity.
Qed.

(** X18. Each membership operation, and each removal of followed concepts,
    makes exactly one call whether it succeeds or fails: the adds a POST and
    the removes a DELETE, to [<node>/<id>/member/<user or group>] or
    [<node>/<id>/followed/concept], with the query string of the merged
    options and a body listing the identifiers.  The adds tag each
    identifier with the relationship properties given; the removes pass
    none, and the removals of concepts pass no options either. *)
Theorem membership_routes (tr : trace) :
  let sent (method path : string) (ids relProp options : value) :=
    tr ++ [EvFetch
             (MYFT_API_URL config +:+ path
                +:+ createParams helpers (request_params config options) "?")
             (request_options config method (relationships_data ids relProp))] in
  (forall licence ids props options,
      (addUsersToLicence config helpers world licence ids props options tr).2
      = sent "POST" ("/license/" +:+ licence +:+ "/member/user") ids props options)
  /\ (forall licence ids options,
        (removeUsersFromLicence config helpers world licence ids options tr).2
        = sent "DELETE" ("/license/" +:+ licence +:+ "/member/user") ids VUndefined
            options)
  /\ (forall group ids props options,
        (addUsersToGroup config helpers world group ids props options tr).2
        = sent "POST" ("/group/" +:+ group +:+ "/member/user") ids props options)
  /\ (forall group ids options,
        (removeUsersFromGroup config helpers world group ids options tr).2
        = sent "DELETE" ("/group/" +:+ group +:+ "/member/user") ids VUndefined
            options)
  /\ (forall licence ids props options,
        (addGroupsToLicence config helpers world licence ids props options tr).2
        = sent "POST" ("/license/" +:+ licence +:+ "/member/group") ids props options)
  /\ (forall licence ids options,
        (removeGroupsFromLicence config helpers world licence ids options tr).2
        = sent "DELETE" ("/license/" +:+ licence +:+ "/member/group") ids VUndefined
            options)
  /\ (forall user ids,
        (removeConceptsFollowedByUser config helpers world user ids tr).2
        = sent "DELETE" ("/user/" +:+ user +:+ "/followed/concept") ids VUndefined
            VUndefined)
  /\ (forall group ids,
        (removeConceptsFollowedByGroup config helpers world group ids tr).2
        = sent "DELETE" ("/group/" +:+ group +:+ "/followed/concept") ids VUndefined
            VUndefined).
Proof.
  intros sent. subst sent.
  split; [|split; [|split; [|split; [|split; [|split; [|split]]]]]]; intros;
    unfold addUsersToLicence, removeUsersFromLicence, addUsersToGroup,
      removeUsersFromGroup, addGroupsToLicence, removeGroupsFromLicence,
      removeConceptsFollowedByUser, removeConceptsFollowedByGroup;
    rewrite ?addRemoveUsers_trace, ?addRemoveGroups_trace, ?removeConcepts_trace;
    unfold relationships_request, request_event;
    rewrite write_url by discriminate; rewrite !string_app_assoc; reflexivity.
Qed.

(** *** The digest preference *)

(** X19. The lookup of a user's digest preference is one GET to
    [user/<uuid>/preferred/preference/email-digest], parsed with a message
    that names the user.  Setting the preference of one user is one POST to
    [user/preferred/preference], the user not being part of the path: the
    body holds the user under [ids] and, under [subjects], the one subject
    [email-digest] tagged with the preference.  It settles within any
    number of steps. *)
Theorem digest_preference_calls (steps : nat) (uuid : string)
    (preference options : value) (tr : trace) :
  service_order world 1 ≡ₚ seq 0 1 ->
  preference <> VUndefined ->
  let lookup_url :=
    MYFT_API_URL config +:+ "/user/" +:+ uuid
      +:+ "/preferred/preference/email-digest" +:+ no_query helpers "GET" in
  let body :=
    VObj (<["ids" := VStr uuid]>
            {["subjects" :=
                VArr [VObj (<["_rel" := preference]>
                              {["uuid" := VStr "email-digest"]})]]}) in
  let post :=
    EvFetch
      (MYFT_API_URL config +:+ "/user/preferred/preference"
         +:+ createParams helpers (request_params config options) "?")
      {| fo_method := "POST";
         fo_content_length :=
           if production config then Some (ByteLengthOf (BodyJSON body)) else None;
         fo_body := BodyJSON body |} in
  getEmailDigestPreference config helpers world uuid tr
  = (parsed_value helpers
       (Some [Text ("myFTClient.emailDigestPreferences for user " +:+ uuid)])
       (fetch world tr lookup_url (request_options config "GET" VUndefined)),
     tr ++ [EvFetch lookup_url (request_options config "GET" VUndefined)])
  /\ (setEmailDigestPreference config helpers world steps (VStr uuid) preference
        options tr).2 = tr ++ [post]
  /\ (setEmailDigestPreference config helpers world steps (VStr uuid) preference
        options tr).1 <> Unfinished.
Proof.
  intros Hperm Hpref lookup_url body post.
  assert (Hset : (setEmailDigestPreference config helpers world steps (VStr uuid)
                    preference options tr).2 = tr ++ [post]
                 /\ (setEmailDigestPreference config helpers world steps (VStr uuid)
                       preference options tr).1 <> Unfinished).
  { unfold setEmailDigestPreference, bind.
    rewrite single_chunk_run by (assumption || discriminate).
    assert (Hpost : chunk_request config helpers "POST" myftConst.userNodeName
                      myftConst.prefRelType myftConst.prefRelName
                      [VObj {["uuid" := VStr myftConst.prefRelId]}] preference options
                      (VStr uuid) = post).
    { unfold chunk_request, request_event, request_options, request_content_length.
      rewrite chunk_body by discriminate.
      unfold chunkData. rewrite subjects_merged. subst post body. simpl.
      replace (request_url config helpers "POST" myftConst.userNodeName None
                 (Some myftConst.prefRelType) (Some myftConst.prefRelName) None _ _)
        with (MYFT_API_URL config +:+ "/user/preferred/preference"
                +:+ createParams helpers (request_params config options) "?")
        by (unfold request_url, relationship_url, add_segment, request_query;
            simpl; rewrite !string_app_assoc; reflexivity).
      destruct preference; try (now destruct Hpref);
        destruct (production config); reflexivity. }
    rewrite Hpost. destruct (chunk_outcome _ _ _ _ _ _ _ _ _ _ _ _); simpl;
      split; (reflexivity || discriminate). }
  split; [|exact Hset].
  unfold getEmailDigestPreference. rewrite read_run. subst lookup_url.
  unfold request_event.
  replace (request_url config helpers "GET" myftConst.userNodeName (Some uuid)
             (Some myftConst.prefRelType) (Some myftConst.prefRelName)
             (Some myftConst.prefRelId) VUndefined VUndefined)
    with (MYFT_API_URL config +:+ "/user/" +:+ uuid
            +:+ "/preferred/preference/email-digest" +:+ no_query helpers "GET")
    by (unfold request_url, relationship_url, add_segment, no_query;
        rewrite !string_app_assoc; reflexivity).
  reflexivity.
Qed.

(** *** The routes of the list reads *)

Lemma getAll_trace steps node nodeId relationship relatedNode tr :
  exists count,
    1 <= count
    /\ (_getAllNodeItems config helpers world steps node nodeId relationship
          relatedNode tr).2
       = tr ++ page_requests config helpers node nodeId relationship relatedNode 1
                 count.
Proof.
  unfold _getAllNodeItems, bind.
  destruct (get_page_run config helpers world node nodeId relationship relatedNode
              1 tr) as (Htr & _ & _).
  destruct (get_page _ _ _ _ _ _ _ 1 tr) as [[first|e|] tr'];
    simpl in Htr; subst tr'.
  - destruct (thenFn_trace config helpers world node nodeId relationship
                relatedNode steps 1 [] first
                (tr ++ [page_request config helpers node nodeId relationship
                          relatedNode 1])) as (count & Hc & ->).
    exists (count + 1). split; [lia|].
    rewrite <- app_assoc. f_equal. unfold page_requests.
    rewrite (seqZ_cons 1 (count + 1)) by lia.
    replace (Z.pred (count + 1)) with count by lia. reflexivity.
  - exists 1. split; [lia | reflexivity].
  - exists 1. split; [lia | reflexivity].
Qed.

(** X20. Whatever the remote answers, and whether the read resolves, fails
    or is still going on, each of the five list reads only ever asks for
    consecutive pages, from page 1, of its own collection: every call is a
    GET without a body to [<node>/<uuid>/<relationship>/<related node>],
    with the page number and the limit 500 folded into the query string. *)
Theorem list_reads_routes (steps : nat) (uuid : string) (tr : trace) :
  let pages (path : string) (count : Z) :=
    map (fun page =>
           EvFetch
             (MYFT_API_URL config +:+ path
                +:+ request_query helpers "GET" (page_params page) VUndefined)
             (request_options config "GET" (page_params page)))
        (seqZ 1 count) in
  let reads (run : M (list value)) (path : string) :=
    exists count, 1 <= count /\ (run tr).2 = tr ++ pages path count in
  (forall page,
      fo_method (request_options config "GET" (page_params page)) = "GET"
      /\ fo_body (request_options config "GET" (page_params page)) = BodyUnset)
  /\ reads (getConceptsFollowedByUser config helpers world steps uuid)
        ("/user/" +:+ uuid +:+ "/followed/concept")
  /\ reads (getConceptsFollowedByGroup config helpers world steps uuid)
        ("/group/" +:+ uuid +:+ "/followed/concept")
  /\ reads (getGroupsForLicence config helpers world steps uuid)
        ("/license/" +:+ uuid +:+ "/member/group")
  /\ reads (getUsersForLicence config helpers world steps uuid)
        ("/license/" +:+ uuid +:+ "/member/user")
  /\ reads (getUsersForGroup config helpers world steps uuid)
        ("/group/" +:+ uuid +:+ "/member/user").
Proof.
  intros pages reads. subst pages reads. cbv beta.
  split; [intros page; split; reflexivity|].
  assert (Hroute : forall node relationship relatedNode,
            exists count,
              1 <= count
              /\ (_getAllNodeItems config helpers world steps node (Some uuid)
                    (Some relationship) (Some relatedNode) tr).2
                 = tr ++ map (fun page =>
                                EvFetch
                                  (MYFT_API_URL config
                                     +:+ ("/" +:+ node +:+ "/" +:+ uuid +:+ "/"
                                            +:+ relationship +:+ "/" +:+ relatedNode)
                                     +:+ request_query helpers "GET"
                                           (page_params page) VUndefined)
                                  (request_options config "GET" (page_params page)))
                             (seqZ 1 count)).
  { intros node relationship relatedNode.
    destruct (getAll_trace steps node (Some uuid) (Some relationship)
                (Some relatedNode) tr) as (count & Hc & ->).
    exists count. split; [exact Hc|]. f_equal. unfold page_requests.
    apply map_ext. intros page.
    unfold page_request, request_event, request_url, relationship_url, add_segment.
    rewrite !string_app_assoc. reflexivity. }
  split; [|split; [|split; [|split]]].
  - exact (Hroute "user" "followed" "concept").
  - exact (Hroute "group" "followed" "concept").
  - exact (Hroute "license" "member" "group").
  - exact (Hroute "license" "member" "user").
  - exact (Hroute "group" "member" "user").
Qed.

End Further.

(** ** Further instances *)

Section FurtherInstances.

Import Examples.

Local Abbreviation cfg := example_config.
Local Abbreviation hlp := example_helpers.
Local Abbreviation unavailable := (StatusError "StatusError" "503").
Local Abbreviation group_AB := [concept_fields "A"; concept_fields "B"].
Local Abbreviation user_A := [concept_fields "A"].

(** Two pages whose totals disagree: the aggregate is still the
    concatenation of the pages read. *)
Lemma aggregate_is_concatenation_two_pages :
  exists responses,
    (1 <= length responses)%nat
    /\ [concept "a"; concept "b"] = concat (items_of <$> responses).
Proof.
  destruct (aggregate_is_concatenation cfg hlp world_two_pages "user" (Some "u1")
              (Some "followed") (Some "concept") 1%nat []
              (getConceptsFollowedByUser cfg hlp world_two_pages 1 "u1" []).2
              [concept "a"; concept "b"])
    as (responses & Hlen & _ & Hall & _).
  - vm_compute. reflexivity.
  - exists responses. split; [exact Hlen | exact Hall].
Defined.

(** The second page answers 503: the fetch fails and the first page's items
    are lost. *)
Lemma page_failure_second_page :
  (getConceptsFollowedByUser cfg hlp world_second_page_fails 1 "u1" []).1
  = Raised unavailable.
Proof.
  unfold getConceptsFollowedByUser, myftConst.userNodeName,
    myftConst.followedRelName, myftConst.topicNodeName.
  rewrite (page_failure_fails_fetch cfg hlp world_second_page_fails "user"
             (Some "u1") (Some "followed") (Some "concept")
             [page_body [concept "a"] (VNum 1200)] unavailable 1%nat []).
  - reflexivity.
  - simpl. lia.
  - intros [|i] r Hr.
    + injection Hr as <-. split; vm_compute; reflexivity.
    + destruct i; discriminate Hr.
  - left. vm_compute. reflexivity.
Defined.

(** Five identifiers and a chunk size of 0. *)
Lemma no_chunk_size_five_ids :
  _multiAddRemoveRelationships config_no_chunk_size hlp world_batch 7 "POST" "user"
    (VArr five_ids) "followed" "concept" [concept "A"] VUndefined VUndefined []
  = (Unfinished, []).
Proof.
  apply (no_chunk_size_never_settles config_no_chunk_size hlp world_batch "POST"
           "user" "followed" "concept" [concept "A"] VUndefined VUndefined five_ids
           7%nat []).
  - simpl. lia.
  - discriminate.
Defined.

(** Three chunks answered last chunk first: the entry of the second chunk is
    the failure of its own request. *)
Lemma results_are_chunk_outcomes_batch :
  exists h,
    chunk_outcome cfg hlp world_batch "POST" "user" "followed" "concept"
      [concept "A"] VUndefined VUndefined h (VArr [VStr "u3"; VStr "u4"])
    = Failure unavailable.
Proof.
  destruct (results_are_chunk_outcomes cfg hlp world_batch "POST" "user" "followed"
              "concept" [concept "A"] VUndefined VUndefined 5%nat (VArr five_ids)
              [VArr [VStr "u1"; VStr "u2"]; VArr [VStr "u3"; VStr "u4"];
               VArr [VStr "u5"]] []
              (_multiAddRemoveRelationships cfg hlp world_batch 5 "POST" "user"
                 (VArr five_ids) "followed" "concept" [concept "A"] VUndefined
                 VUndefined []).2
              [Success (VStr "first"); Failure unavailable; Success (VStr "third")])
    as (_ & _ & Hall).
  - vm_compute. reflexivity.
  - change (rev (seq 0 3) ≡ₚ seq 0 3). symmetry. apply Permutation_rev.
  - vm_compute. reflexivity.
  - destruct (Hall 1%nat (VArr [VStr "u3"; VStr "u4"]) eq_refl) as (h & _ & Hres).
    exists h. simpl in Hres. now injection Hres as <-.
Defined.

(** A concept tagged with a relationship. *)
Lemma subject_relationship_tag_concept :
  exists o,
    subjects [concept "A"] (VObj {["byTool" := VStr "KAT"]}) !! 0%nat = Some (VObj o)
    /\ o !! "_rel" = Some (VObj {["byTool" := VStr "KAT"]})
    /\ o !! "uuid" = Some (VStr "A").
Proof.
  destruct (subject_relationship_tag [concept "A"] (VObj {["byTool" := VStr "KAT"]})
              0%nat (concept "A")) as (_ & o & Ho & Hother & Hrel).
  - reflexivity.
  - exists o. split; [exact Ho|]. split; [exact Hrel|].
    rewrite Hother by discriminate. vm_compute. reflexivity.
Defined.

(** Two users added to a licence in one request. *)
Lemma relationships_one_request_two_users :
  exists call,
    (_addRemoveRelationships cfg hlp world_one_answer "POST" "license" (Some "l1")
       "member" "user" (VArr [VStr "u1"; VStr "u2"]) VUndefined VUndefined []).2
    = [] ++ [call]
    /\ event_body call
       = Some (BodyJSON (VArr [VObj {["uuid" := VStr "u1"]};
                               VObj {["uuid" := VStr "u2"]}])).
Proof.
  pose proof (relationships_one_request cfg hlp world_one_answer "POST" "license"
                (Some "l1") "member" "user" (VArr [VStr "u1"; VStr "u2"])
                VUndefined VUndefined []) as H.
  cbv zeta in H. apply H. discriminate.
Defined.

(** The add-follow request answers 503. *)
Lemma failed_follow_example :
  (syncUserFollowers cfg hlp world_add_fails 1 "g1" "u1" []).1 = Raised unavailable.
Proof.
  rewrite (failed_follow_stops_sync cfg hlp world_add_fails 1%nat "g1" "u1"
             group_AB user_A []
             (getConceptsFollowedByGroup cfg hlp world_add_fails 1 "g1" []).2
             (getConceptsFollowedByUser cfg hlp world_add_fails 1 "u1"
                (getConceptsFollowedByGroup cfg hlp world_add_fails 1 "g1" []).2).2
             unavailable).
  - reflexivity.
  - reflexivity.
  - vm_compute. reflexivity.
  - vm_compute. reflexivity.
  - vm_compute. discriminate.
  - vm_compute. reflexivity.
Defined.

(** The preference is not found and its creation answers 503. *)
Lemma failed_preference_creation_example :
  (syncUserFollowers cfg hlp world_preference_not_created 1 "g1" "u1" []).1
  = Raised unavailable.
Proof.
  pose proof (failed_preference_creation_stops_sync cfg hlp
                world_preference_not_created 1%nat "g1" "u1" group_AB user_A []
                (getConceptsFollowedByGroup cfg hlp world_preference_not_created 1
                   "g1" []).2
                (getConceptsFollowedByUser cfg hlp world_preference_not_created 1
                   "u1"
                   (getConceptsFollowedByGroup cfg hlp world_preference_not_created
                      1 "g1" []).2).2
                (NotFoundError "Not Found") unavailable) as H.
  cbv zeta in H. rewrite H.
  - reflexivity.
  - reflexivity.
  - vm_compute. reflexivity.
  - vm_compute. reflexivity.
  - vm_compute. discriminate.
  - exists (VObj ∅). vm_compute. reflexivity.
  - vm_compute. reflexivity.
  - reflexivity.
  - vm_compute. reflexivity.
Defined.

(** Every request succeeds and the event stream refuses the event. *)
Lemma failed_event_example :
  (syncUserFollowers cfg hlp world_stream_down 1 "g1" "u1" []).1
  = Raised (StatusError "StreamError" "down").
Proof.
  pose proof (failed_event_is_raised cfg hlp world_stream_down 1%nat "g1" "u1"
                group_AB user_A []
                (getConceptsFollowedByGroup cfg hlp world_stream_down 1 "g1" []).2
                (getConceptsFollowedByUser cfg hlp world_stream_down 1 "u1"
                   (getConceptsFollowedByGroup cfg hlp world_stream_down 1 "g1"
                      []).2).2
                (ensureDigestPreference cfg hlp world_stream_down 1 "u1"
                   ((getConceptsFollowedByUser cfg hlp world_stream_down 1 "u1"
                       (getConceptsFollowedByGroup cfg hlp world_stream_down 1 "g1"
                          []).2).2
                    ++ [add_follow_request cfg hlp "g1" "u1"
                          (VObj <$> absent_from user_A group_AB)])).2
                (StatusError "StreamError" "down")) as H.
  cbv zeta in H. destruct H as (H & _).
  - reflexivity.
  - vm_compute. reflexivity.
  - vm_compute. reflexivity.
  - vm_compute. discriminate.
  - exists (VObj ∅). vm_compute. reflexivity.
  - vm_compute. reflexivity.
  - reflexivity.
  - rewrite H. reflexivity.
Defined.

(** The user's list holds a [null]. *)
Lemma nullish_concept_example :
  exists msg,
    (syncUserFollowers cfg hlp world_null_concept 1 "g1" "u1" []).1
    = Raised (TypeError msg).
Proof.
  destruct (nullish_concept_raises cfg hlp world_null_concept 1%nat "g1" "u1"
              [concept "A"; concept "B"] [concept "A"; VNull] []
              (getConceptsFollowedByGroup cfg hlp world_null_concept 1 "g1" []).2
              (getConceptsFollowedByUser cfg hlp world_null_concept 1 "u1"
                 (getConceptsFollowedByGroup cfg hlp world_null_concept 1 "g1"
                    []).2).2) as (msg & H).
  - vm_compute. reflexivity.
  - vm_compute. reflexivity.
  - apply Exists_cons_tl, Exists_cons_hd. reflexivity.
  - discriminate.
  - exists msg. rewrite H. reflexivity.
Defined.

(** The group follows A and B, the user A and, after a first run, B. *)
Lemma second_run_example :
  onUserConcepts cfg hlp world_sync 1 "g1" "u1" (VObj <$> group_AB)
    (VObj <$> (user_A ++ absent_from user_A group_AB ++ [])) []
  = (Resolved (SynchronisationIgnored "u1" "g1" "noNewConceptsToFollow"), []).
Proof.
  apply (second_run_is_ignored cfg hlp world_sync 1%nat "g1" "u1" group_AB user_A
           [] []).
  intros g Hg. apply list_elem_of_In in Hg.
  destruct Hg as [<-|[<-|[]]]; vm_compute; reflexivity.
Defined.

(** A concept identified by an array, which the user already follows. *)
Lemma compound_uuid_example :
  ({["uuid" := VArr [VStr "x"]]} : gmap string value)
  ∈ absent_from [{["uuid" := VArr [VStr "x"]]}]
      [concept_fields "A"; {["uuid" := VArr [VStr "x"]]}].
Proof.
  destruct (compound_uuid_is_always_new cfg hlp world_sync 1%nat "g1" "u1"
              [concept_fields "A"; {["uuid" := VArr [VStr "x"]]}]
              [{["uuid" := VArr [VStr "x"]]}]
              {["uuid" := VArr [VStr "x"]]} []) as [H _].
  - apply list_elem_of_In. right. left. reflexivity.
  - vm_compute. reflexivity.
  - exact H.
Defined.

(** A weekly digest for one user. *)
Lemma digest_preference_example :
  (setEmailDigestPreference cfg hlp world_one_answer 1 (VStr "u1")
     (VObj {["type" := VStr "weekly"]}) VUndefined []).1 <> Unfinished.
Proof.
  pose proof (digest_preference_calls cfg hlp world_one_answer 1%nat "u1"
                (VObj {["type" := VStr "weekly"]}) VUndefined []) as H.
  cbv zeta in H. destruct H as (_ & _ & H).
  - reflexivity.
  - discriminate.
  - exact H.
Defined.

(** Three chunks answered last chunk first, the second one failing; a single
    identifier whose request fails; three chunks that all fail. *)
Lemma aggregation_policy_examples :
  (_multiAddRemoveRelationships cfg hlp world_batch 5 "POST" "user" (VArr five_ids)
     "followed" "concept" [concept "A"] VUndefined VUndefined []).1
  = Resolved [Success (VStr "first"); Failure unavailable; Success (VStr "third")]
  /\ (_multiAddRemoveRelationships cfg hlp world_down 5 "POST" "user" (VStr "u1")
        "followed" "concept" [concept "A"] VUndefined VUndefined []).1
     = Raised unavailable
  /\ (_multiAddRemoveRelationships cfg hlp world_down 5 "POST" "user" (VArr five_ids)
        "followed" "concept" [concept "A"] VUndefined VUndefined []).1
     = Raised (ClientError "An error has occurred while processing your request.")
  /\ _multiAddRemoveRelationships cfg hlp (answering world_batch in_order) 5 "POST"
       "user" (VArr five_ids) "followed" "concept" [concept "A"] VUndefined
       VUndefined []
     = _multiAddRemoveRelationships cfg hlp world_batch 5 "POST" "user"
         (VArr five_ids) "followed" "concept" [concept "A"] VUndefined VUndefined [].
Proof.
  split; [|split; [|split]].
  - pose proof (aggregation_policy cfg hlp world_batch "POST" "user" "followed"
                  "concept" [concept "A"] VUndefined VUndefined 5%nat (VArr five_ids)
                  five_ids_chunks []) as H.
    cbv zeta in H. destruct H as (results & Hlen & Hout & Hsome & _).
    + vm_compute. reflexivity.
    + destruct results as [|r0 [|r1 [|r2 [|r3 rest]]]]; try discriminate Hlen.
      pose proof (Hout 0%nat 0%nat _ eq_refl eq_refl) as H0.
      pose proof (Hout 1%nat 1%nat _ eq_refl eq_refl) as H1.
      pose proof (Hout 2%nat 2%nat _ eq_refl eq_refl) as H2.
      vm_compute in H0, H1, H2.
      injection H0 as ->. injection H1 as ->. injection H2 as ->.
      apply Hsome. exists (VStr "first"). constructor.
  - pose proof (aggregation_policy cfg hlp world_down "POST" "user" "followed"
                  "concept" [concept "A"] VUndefined VUndefined 5%nat (VStr "u1")
                  [VStr "u1"] []) as H.
    cbv zeta in H. destruct H as (results & Hlen & Hout & _ & Hone & _).
    + reflexivity.
    + destruct results as [|r0 [|r1 rest]]; try discriminate Hlen.
      pose proof (Hout 0%nat 0%nat _ eq_refl eq_refl) as H0.
      vm_compute in H0. injection H0 as ->.
      now apply Hone.
  - pose proof (aggregation_policy cfg hlp world_down "POST" "user" "followed"
                  "concept" [concept "A"] VUndefined VUndefined 5%nat (VArr five_ids)
                  five_ids_chunks []) as H.
    cbv zeta in H. destruct H as (results & Hlen & Hout & _ & _ & Hall & _).
    + vm_compute. reflexivity.
    + destruct results as [|r0 [|r1 [|r2 [|r3 rest]]]]; try discriminate Hlen.
      pose proof (Hout 0%nat 0%nat _ eq_refl eq_refl) as H0.
      pose proof (Hout 1%nat 1%nat _ eq_refl eq_refl) as H1.
      pose proof (Hout 2%nat 2%nat _ eq_refl eq_refl) as H2.
      vm_compute in H0, H1, H2.
      injection H0 as ->. injection H1 as ->. injection H2 as ->.
      apply Hall; [repeat constructor | simpl; lia].
  - pose proof (aggregation_policy cfg hlp world_batch "POST" "user" "followed"
                  "concept" [concept "A"] VUndefined VUndefined 5%nat (VArr five_ids)
                  five_ids_chunks []) as H.
    cbv zeta in H. destruct H as (results & _ & _ & _ & _ & _ & Hany).
    + vm_compute. reflexivity.
    + apply Hany.
Defined.

(** Three chunks sent one at a time: one request in flight at any point,
    and the requests go out for the first chunk, the third, the second.
    Without a limit the three are started at once. *)
Lemma bounded_dispatch_one_at_a_time :
  (forall p,
      in_flight (take p (schedule 1 (service_order world_batch 3) 3)) <= 1)
  /\ started (schedule 1 (service_order world_batch 3) 3) = [0; 2; 1]%nat
  /\ take 3 (schedule 0 (service_order world_batch 3) 3)
     = [Started 0; Started 1; Started 2].
Proof.
  pose proof (bounded_dispatch config_one_at_a_time hlp world_batch "POST" "user"
                "followed" "concept" [concept "A"] VUndefined VUndefined 5%nat
                (VArr five_ids) five_ids_chunks []) as H.
  pose proof (bounded_dispatch config_no_limit hlp world_batch "POST" "user"
                "followed" "concept" [concept "A"] VUndefined VUndefined 5%nat
                (VArr five_ids) five_ids_chunks []) as H'.
  cbv zeta in H, H'.
  destruct H as (_ & _ & _ & Hlimit & _); [vm_compute; reflexivity|].
  destruct H' as (_ & _ & _ & _ & Hnone); [vm_compute; reflexivity|].
  destruct Hlimit as (Hbound & _ & Hstart & _); [simpl; lia|].
  split; [exact Hbound|]. split; [exact Hstart|].
  apply Hnone. simpl. lia.
Defined.

(** The claim that the waiting chunks are started in chunk order fails:
    with one request at a time the chunk pushed last is popped first, and
    the second request is for the third chunk.  So does the bound for a
    configured limit of 0, which is no limit: the three requests are in
    flight together. *)
Lemma waiting_chunks_start_last_first :
  (_multiAddRemoveRelationships config_one_at_a_time hlp world_batch 5 "POST" "user"
     (VArr five_ids) "followed" "concept" [concept "A"] VUndefined VUndefined []).2
  = map (chunk_request config_one_at_a_time hlp "POST" "user" "followed" "concept"
           [concept "A"] VUndefined VUndefined)
      [VArr [VStr "u1"; VStr "u2"]; VArr [VStr "u5"]; VArr [VStr "u3"; VStr "u4"]]
  /\ started (schedule (BATCH_USER_CONCURRENCY config_one_at_a_time)
               (service_order world_batch 3) 3) = [0; 2; 1]%nat
  /\ [0; 2; 1]%nat <> seq 0 3
  /\ BATCH_USER_CONCURRENCY config_no_limit
     < in_flight (take 3 (schedule (BATCH_USER_CONCURRENCY config_no_limit)
                            (service_order world_batch 3) 3)).
Proof.
  split; [vm_compute; reflexivity|]. split; [vm_compute; reflexivity|].
  split; [discriminate | vm_compute; reflexivity].
Qed.

End FurtherInstances.
